(** * The commands of oh-my-antigravity ([src/cli.ts])

    A shallow embedding of the commands of the CLI, [update], [doctor]
    and the installer [main], and of the functions they are built from
    ([calculateSHA256], [getFileSHA256], [getLocalVersion],
    [saveLocalVersion], [fetchRemoteManifest], [downloadFile],
    [fetchSkillFiles], [installSkill], [installShared], [checkCLI],
    [checkMCPConfig], [checkDashboardDependencies], [checkSkills]),
    together with the parts of the JavaScript platform those functions
    call: UTF-8 decoding and encoding, SHA-256, [JSON.parse] and
    [JSON.stringify], [path.join] and [path.dirname], the synchronous
    file-system calls, [fetch] and [execSync].

    Conventions.
    - A byte is a [Byte.byte]; file contents and response bodies are
      [list byte].
    - A JavaScript string is the list of its UTF-16 code units, each a [Z]
      in [0, 65535] ([wf_str]).
    - A value is a [JSValue]: the program casts the parsed manifest to its
      interface without a check, so property access, comparison and
      conversion to text are those of JavaScript on any value.
    - Effects are threaded through a state-and-exception monad [M] whose
      state is the file system and the trace of effects performed; the
      network, the order in which its answers arrive and the working
      directory are fixed for a run ([env]), and so are the answers to
      [HEAD] requests, the commands of the shell and the environment
      variables, which the functions that use them take as arguments.
    - Paths follow the POSIX flavour of [node:path].
    - Of the calls that only print (the prompts and colours of the
      terminal), nothing is kept but the conversions of values to text,
      which can throw; the answers to the prompts of [main] are arguments
      of it.
    - The calls that [pMap] keeps in flight are suspended at each
      [await] and go on one at a time, in any order: a theorem about a
      pass holds for every order. *)

From Stdlib Require Import ZArith List Bool Lia Ascii String.
From Stdlib Require Import Strings.Byte Floats.SpecFloat.
From stdpp Require Import base option list gmap.

Local Open Scope Z_scope.
Set Warnings "-register-all".

(** ** Bytes and code units *)

Definition b2z (b : byte) : Z := Z.of_N (Byte.to_N b).

Definition z2b (z : Z) : byte :=
  match Byte.of_N (Z.to_N (z mod 256)) with
  | Some b => b
  | None => x00
  end.

(** A JavaScript string: UTF-16 code units. *)
Abbreviation jsstring := (list Z) (only parsing).

Definition wf_unit (c : Z) : Prop := 0 <= c < 65536.
Definition wf_str (s : jsstring) : Prop := Forall wf_unit s.

(** Embedding of an ASCII literal of this file as a JavaScript string. *)
Definition js (s : string) : jsstring :=
  map (fun a => Z.of_N (N_of_ascii a)) (list_ascii_of_string s).

(** ** UTF-16 and UTF-8 *)

Definition is_high (c : Z) : bool := (0xD800 <=? c) && (c <=? 0xDBFF).
Definition is_low (c : Z) : bool := (0xDC00 <=? c) && (c <=? 0xDFFF).

(** The code points of a string as the UTF-8 encoder of Node sees them:
    a surrogate pair is one code point, an unpaired surrogate is replaced
    by U+FFFD. *)
Fixpoint code_points (s : jsstring) : list Z :=
  match s with
  | [] => []
  | c :: rest =>
      if is_high c then
        match rest with
        | d :: rest' =>
            if is_low d
            then (0x10000 + (c - 0xD800) * 0x400 + (d - 0xDC00)) :: code_points rest'
            else 0xFFFD :: code_points rest
        | [] => [0xFFFD]
        end
      else if is_low c then 0xFFFD :: code_points rest
      else c :: code_points rest
  end.

Definition utf8_of_cp (cp : Z) : list byte :=
  if cp <? 0x80 then [z2b cp]
  else if cp <? 0x800 then [z2b (0xC0 + cp / 64); z2b (0x80 + cp mod 64)]
  else if cp <? 0x10000 then
    [z2b (0xE0 + cp / 4096); z2b (0x80 + (cp / 64) mod 64); z2b (0x80 + cp mod 64)]
  else
    [z2b (0xF0 + cp / 262144); z2b (0x80 + (cp / 4096) mod 64);
     z2b (0x80 + (cp / 64) mod 64); z2b (0x80 + cp mod 64)].

(** [Buffer.from(s, "utf-8")]: what [hash.update(s, "utf-8")] digests and
    what [writeFileSync(p, s, "utf-8")] stores. *)
Definition utf8_encode (s : jsstring) : list byte :=
  flat_map utf8_of_cp (code_points s).

Definition utf16_of_cp (cp : Z) : jsstring :=
  if cp <? 0x10000 then [cp]
  else [0xD800 + (cp - 0x10000) / 0x400; 0xDC00 + (cp - 0x10000) mod 0x400].

(** State of the UTF-8 decoder between two bytes of a multi-byte sequence:
    the code point accumulated so far, the number of continuation bytes
    still expected, and the range allowed for the next byte. *)
Record utf8_state : Type := Utf8State {
  u8_cp : Z;
  u8_need : Z;
  u8_lower : Z;
  u8_upper : Z
}.

(** A byte read when no sequence is open: it is emitted, opens a sequence,
    or is an error (U+FFFD). *)
Definition utf8_lead (b : Z) : list Z * option utf8_state :=
  if b <=? 0x7F then ([b], None)
  else if (0xC2 <=? b) && (b <=? 0xDF) then
    ([], Some (Utf8State (b - 0xC0) 1 0x80 0xBF))
  else if (0xE0 <=? b) && (b <=? 0xEF) then
    ([], Some (Utf8State (b - 0xE0) 2
                 (if b =? 0xE0 then 0xA0 else 0x80)
                 (if b =? 0xED then 0x9F else 0xBF)))
  else if (0xF0 <=? b) && (b <=? 0xF4) then
    ([], Some (Utf8State (b - 0xF0) 3
                 (if b =? 0xF0 then 0x90 else 0x80)
                 (if b =? 0xF4 then 0x8F else 0xBF)))
  else ([0xFFFD], None).

(** The decoder of the Encoding standard, with replacement: an invalid
    byte inside a sequence closes it with U+FFFD and is read again as a
    lead byte. *)
Fixpoint utf8_run (st : option utf8_state) (bs : list byte) : list Z :=
  match bs with
  | [] => match st with None => [] | Some _ => [0xFFFD] end
  | b :: rest =>
      let z := b2z b in
      match st with
      | None =>
          let '(out, st') := utf8_lead z in out ++ utf8_run st' rest
      | Some s =>
          if (u8_lower s <=? z) && (z <=? u8_upper s) then
            let cp := u8_cp s * 64 + (z - 0x80) in
            if u8_need s =? 1 then cp :: utf8_run None rest
            else utf8_run (Some (Utf8State cp (u8_need s - 1) 0x80 0xBF)) rest
          else
            let '(out, st') := utf8_lead z in
            0xFFFD :: out ++ utf8_run st' rest
      end
  end.

(** [buffer.toString("utf-8")], as used by [readFileSync(p, "utf-8")]:
    a byte order mark is kept. *)
Definition utf8_decode (bs : list byte) : jsstring :=
  flat_map utf16_of_cp (utf8_run None bs).

(** [new TextDecoder().decode(bs)]: UTF-8 with replacement, a byte order
    mark at the start being dropped. *)
Definition text_decoder (bs : list byte) : jsstring :=
  match bs with
  | xef :: xbb :: xbf :: rest => utf8_decode rest
  | _ => utf8_decode bs
  end.

(** The body of a response as text, as [Response.text()] and
    [Response.json()] of Node produce it: a leading byte order mark is
    taken off the bytes, which is the UTF-8 decode of the Fetch standard,
    and what follows is handed to a [TextDecoder], which drops one more.
    Of a body that starts with two byte order marks, both are dropped. *)
Definition utf8_decode_bom (bs : list byte) : jsstring :=
  match bs with
  | xef :: xbb :: xbf :: rest => text_decoder rest
  | _ => text_decoder bs
  end.

(** ** SHA-256 (FIPS 180-4) and [digest("hex")] *)

Module SHA256.

Definition w32 (x : Z) : Z := x mod 4294967296.
Definition add32 (x y : Z) : Z := w32 (x + y).
Definition rotr (n x : Z) : Z :=
  w32 (Z.lor (Z.shiftr x n) (Z.shiftl x (32 - n))).
Definition Ch (x y z : Z) : Z :=
  Z.lxor (Z.land x y) (Z.land (w32 (Z.lnot x)) z).
Definition Maj (x y z : Z) : Z :=
  Z.lxor (Z.lxor (Z.land x y) (Z.land x z)) (Z.land y z).
Definition Sigma0 (x : Z) : Z :=
  Z.lxor (Z.lxor (rotr 2 x) (rotr 13 x)) (rotr 22 x).
Definition Sigma1 (x : Z) : Z :=
  Z.lxor (Z.lxor (rotr 6 x) (rotr 11 x)) (rotr 25 x).
Definition sigma0 (x : Z) : Z :=
  Z.lxor (Z.lxor (rotr 7 x) (rotr 18 x)) (Z.shiftr x 3).
Definition sigma1 (x : Z) : Z :=
  Z.lxor (Z.lxor (rotr 17 x) (rotr 19 x)) (Z.shiftr x 10).

(** The first [n] prime numbers from [k] on, by trial division with the
    primes found so far, held last first in [found]. *)
Fixpoint primes_from (fuel n : nat) (k : Z) (found : list Z) : list Z :=
  match fuel, n with
  | O, _ | _, O => rev found
  | S fuel', S n' =>
      if forallb (fun p => negb (k mod p =? 0)) found
      then primes_from fuel' n' (k + 1) (k :: found)
      else primes_from fuel' n (k + 1) found
  end.

Definition primes (n : nat) : list Z := primes_from 400 n 2 [].

(** The integer cube root of [x], one bit at a time from bit [bits - 1]
    down. *)
Fixpoint cube_root (bits : nat) (x r : Z) : Z :=
  match bits with
  | O => r
  | S b =>
      let r' := r + 2 ^ Z.of_nat b in
      cube_root b x (if r' * r' * r' <=? x then r' else r)
  end.

(** The round constants: the first 32 bits of the fractional parts of the
    cube roots of the first 64 primes. *)
Definition K : list Z := Eval vm_compute in
  map (fun p => w32 (cube_root 36 (p * 2 ^ 96) 0)) (primes 64).

(** The initial hash value: the first 32 bits of the fractional parts of
    the square roots of the first 8 primes. *)
Definition H0 : list Z := Eval vm_compute in
  map (fun p => w32 (Z.sqrt (p * 2 ^ 64))) (primes 8).

(** Big-endian encoding of [x] on [n] bytes. *)
Fixpoint be_bytes (n : nat) (x : Z) : list Z :=
  match n with
  | O => []
  | S n' => be_bytes n' (x / 256) ++ [x mod 256]
  end.

(** The message followed by the bit 1, zeros up to 56 modulo 64 bytes,
    and the bit length on 64 bits. *)
Definition pad (msg : list Z) : list Z :=
  let len := Z.of_nat (length msg) in
  msg ++ [0x80] ++ repeat 0 (Z.to_nat ((55 - len) mod 64)) ++ be_bytes 8 (len * 8).

Fixpoint words (bs : list Z) : list Z :=
  match bs with
  | a :: b :: c :: d :: rest =>
      (((a * 256 + b) * 256 + c) * 256 + d) :: words rest
  | _ => []
  end.

(** Message schedule, most recent word first: [extend n w] appends [n]
    words to the first sixteen. *)
Fixpoint extend (n : nat) (w : list Z) : list Z :=
  match n with
  | O => w
  | S n' =>
      let new :=
        add32 (add32 (sigma1 (nth 1 w 0)) (nth 6 w 0))
              (add32 (sigma0 (nth 14 w 0)) (nth 15 w 0)) in
      extend n' (new :: w)
  end.

Definition schedule (block : list Z) : list Z := rev (extend 48 (rev block)).

Definition round (s : list Z) (kw : Z * Z) : list Z :=
  match s with
  | [a; b; c; d; e; f; g; h] =>
      let t1 := add32 (add32 (add32 h (Sigma1 e)) (add32 (Ch e f g) (fst kw))) (snd kw) in
      let t2 := add32 (Sigma0 a) (Maj a b c) in
      [add32 t1 t2; a; b; c; add32 d t1; e; f; g]
  | _ => s
  end.

Definition compress (h : list Z) (block : list Z) : list Z :=
  let s := fold_left round (combine K (schedule block)) h in
  map (fun p => add32 (fst p) (snd p)) (combine h s).

(** One block of sixteen words at a time; [n] bounds the number of
    blocks. *)
Fixpoint blocks (n : nat) (h : list Z) (ws : list Z) : list Z :=
  match n with
  | O => h
  | S n' =>
      match ws with
      | [] => h
      | _ => blocks n' (compress h (firstn 16 ws)) (skipn 16 ws)
      end
  end.

Definition digest (msg : list byte) : list byte :=
  let ws := words (pad (map b2z msg)) in
  map z2b (flat_map (be_bytes 4) (blocks (length ws) H0 ws)).

End SHA256.

Definition hex_digit (n : Z) : Z :=
  if n <? 10 then 48 + n else 87 + n.

(** Lower-case hexadecimal, two characters per byte. *)
Definition hex (bs : list byte) : jsstring :=
  flat_map (fun b => [hex_digit (b2z b / 16); hex_digit (b2z b mod 16)]) bs.

(** [calculateSHA256] of [src/cli.ts]:
    [createHash("sha256").update(content, "utf-8").digest("hex")]. *)
Definition calculateSHA256 (content : jsstring) : jsstring :=
  hex (SHA256.digest (utf8_encode content)).

(** ** JavaScript values *)

(** A finite number is [(-1)^neg * m * 2^e]; JSON never denotes NaN. *)
Definition double : Type := spec_float.

(** The values that occur in the program: what [JSON.parse] builds, and
    [undefined]. The fields of an object are in property enumeration
    order. *)
Inductive JSValue : Type :=
| JUndefined
| JNull
| JBool (b : bool)
| JNumber (x : double)
| JString (s : jsstring)
| JArray (elems : list JSValue)
| JObject (fields : list (jsstring * JSValue)).

(** *** Numbers *)

Definition prec : Z := 53.
Definition emax : Z := 1024.

(** The double nearest to [num / den] (ties to even), for [num >= 0] and
    [den > 0]: the quotient is computed on at least 64 bits and rounded
    with the position of the remainder. *)
Definition round_ratio (neg : bool) (num den : Z) : double :=
  if num =? 0 then S754_zero neg
  else
    let k := Z.max 0 (64 + Z.log2 den - Z.log2 num) in
    let n := num * 2 ^ k in
    let q := n / den in
    let r := n mod den in
    let loc :=
      if r =? 0 then loc_Exact else loc_Inexact (Z.compare (2 * r) den) in
    binary_round_aux prec emax neg q (- k) loc.

(** The Number value of the decimal [(-1)^neg * m * 10^e10]. *)
Definition double_of_decimal (neg : bool) (m e10 : Z) : double :=
  if 0 <=? e10 then round_ratio neg (m * 10 ^ e10) 1
  else round_ratio neg m (10 ^ (- e10)).

Definition double_is_zero (x : double) : bool :=
  match x with S754_zero _ => true | _ => false end.

Definition double_eqb (x y : double) : bool := SFeqb x y.

(** Decimal digits of a non-negative integer, as characters. *)
Fixpoint dec_digits_aux (fuel : nat) (z : Z) (acc : jsstring) : jsstring :=
  match fuel with
  | O => acc
  | S f =>
      let acc' := (48 + z mod 10) :: acc in
      if z <? 10 then acc' else dec_digits_aux f (z / 10) acc'
  end.

Definition dec_digits (z : Z) : jsstring :=
  dec_digits_aux (S (Z.to_nat (Z.log2 z))) z [].

(** [10^n <= num / den], for any integer [n]. *)
Definition pow10_le (n num den : Z) : bool :=
  if 0 <=? n then 10 ^ n * den <=? num else den <=? num * 10 ^ (- n).

(** The [n] with [10^(n-1) <= num / den < 10^n]: counted up from a lower
    estimate taken from the binary logarithms. *)
Fixpoint magnitude_from (fuel : nat) (n num den : Z) : Z :=
  match fuel with
  | O => n
  | S f => if pow10_le n num den then magnitude_from f (n + 1) num den else n
  end.

Definition magnitude (num den : Z) : Z :=
  magnitude_from 8 ((Z.log2 num - Z.log2 den) * 30103 / 100000 - 2) num den.

(** A candidate decimal [s * 10^(n-k)] and its distance [dn / dd] to the
    number printed. *)
Record candidate : Type := Candidate {
  c_digits : Z;
  c_point : Z;
  c_dn : Z;
  c_dd : Z
}.

(** The candidates with [k] digits that denote the double [x = num / den]:
    the two integers around [x / 10^(n-k)], for the magnitude [n] of [x]
    and for [n + 1]. *)
Definition digit_candidates (x : double) (num den k : Z) : list candidate :=
  let n0 := magnitude num den in
  flat_map (fun n =>
    let sc := n - k in
    let lo := if 0 <=? sc then num / (den * 10 ^ sc)
              else (num * 10 ^ (- sc)) / den in
    flat_map (fun s =>
      if (10 ^ (k - 1) <=? s) && (s <? 10 ^ k)
         && double_eqb (double_of_decimal false s sc) x
      then
        if 0 <=? sc
        then [Candidate s n (Z.abs (s * 10 ^ sc * den - num)) den]
        else [Candidate s n (Z.abs (s * den - num * 10 ^ (- sc)))
                        (den * 10 ^ (- sc))]
      else []) [lo; lo + 1]) [n0; n0 + 1].

(** The nearer of two candidates; at equal distance the even one. *)
Definition nearer (a b : candidate) : candidate :=
  match Z.compare (c_dn a * c_dd b) (c_dn b * c_dd a) with
  | Lt => a
  | Gt => b
  | Eq => if Z.even (c_digits a) then a else b
  end.

(** The shortest digit string that reads back as [x]: the least [k] from
    1 to 17 that has a candidate. *)
Fixpoint shortest_digits (fuel : nat) (k : Z) (x : double) (num den : Z)
  : option candidate :=
  match fuel with
  | O => None
  | S f =>
      match digit_candidates x num den k with
      | c :: cs => Some (fold_left nearer cs c)
      | [] => shortest_digits f (k + 1) x num den
      end
  end.

(** [Number::toString] in radix 10. *)
Definition number_to_string (x : double) : jsstring :=
  match x with
  | S754_nan => js "NaN"
  | S754_zero _ => js "0"
  | S754_infinity neg => (if neg then js "-" else []) ++ js "Infinity"
  | S754_finite neg m e =>
      let num := if 0 <=? e then Zpos m * 2 ^ e else Zpos m in
      let den := if 0 <=? e then 1 else 2 ^ (- e) in
      let sign := if neg then js "-" else [] in
      match shortest_digits 17 1 (S754_finite false m e) num den with
      | None => sign ++ js "NaN"
      | Some c =>
          let ds := dec_digits (c_digits c) in
          let k := Z.of_nat (length ds) in
          let n := c_point c in
          sign ++
          if (k <=? n) && (n <=? 21) then ds ++ repeat 48 (Z.to_nat (n - k))
          else if (0 <? n) && (n <=? 21) then
            firstn (Z.to_nat n) ds ++ js "." ++ skipn (Z.to_nat n) ds
          else if (-6 <? n) && (n <=? 0) then
            js "0." ++ repeat 48 (Z.to_nat (- n)) ++ ds
          else
            let e10 := n - 1 in
            let es := (if e10 <? 0 then js "-" else js "+") ++ dec_digits (Z.abs e10) in
            match ds with
            | [d] => [d] ++ js "e" ++ es
            | d :: rest => [d] ++ js "." ++ rest ++ js "e" ++ es
            | [] => js "NaN"
            end
      end
  end.

(** *** Exceptions and dynamic operations *)

Inductive exn : Type :=
| TypeError
| SyntaxError
| Error (message : string)
| SystemError (code : string).

Inductive result (A : Type) : Type :=
| Return (a : A)
| Throw (e : exn).
Arguments Return {A} a.
Arguments Throw {A} e.

Definition str_eqb (a b : jsstring) : bool := bool_decide (a = b).

(** [ToBoolean]. *)
Definition truthy (v : JSValue) : bool :=
  match v with
  | JUndefined | JNull => false
  | JBool b => b
  | JNumber x => negb (double_is_zero x)
  | JString s => negb (str_eqb s [])
  | JArray _ | JObject _ => true
  end.

(** [a === b]. Arrays and objects are equal only to themselves; the two
    operands of every comparison of the program come from different
    sources (two [JSON.parse] calls, or a digest and a parsed value), so
    two of them are never the same object. *)
Definition strict_eq (a b : JSValue) : bool :=
  match a, b with
  | JUndefined, JUndefined => true
  | JNull, JNull => true
  | JBool x, JBool y => eqb x y
  | JNumber x, JNumber y => double_eqb x y
  | JString x, JString y => str_eqb x y
  | _, _ => false
  end.

Fixpoint lookup_field (k : jsstring) (fields : list (jsstring * JSValue))
  : option JSValue :=
  match fields with
  | [] => None
  | (k', v) :: rest => if str_eqb k k' then Some v else lookup_field k rest
  end.

(** [v.key] for a key that no prototype defines, which is the case of
    [version], [files], [path] and [sha256]: the own property of an
    object, [undefined] on any other value but [null] and [undefined],
    where the access throws. *)
Definition get_prop (v : JSValue) (key : jsstring) : result JSValue :=
  match v with
  | JUndefined | JNull => Throw TypeError
  | JObject fields =>
      Return (match lookup_field key fields with Some x => x | None => JUndefined end)
  | _ => Return JUndefined
  end.

(** [ToString], as applied by a template literal. An object built by
    [JSON.parse] prints as [[object Object]] unless it has an own
    property [toString], which is then not callable; an array is joined
    with commas, [null] elements printing as the empty string. *)
Fixpoint to_string (v : JSValue) : result jsstring :=
  match v with
  | JUndefined => Return (js "undefined")
  | JNull => Return (js "null")
  | JBool true => Return (js "true")
  | JBool false => Return (js "false")
  | JNumber x => Return (number_to_string x)
  | JString s => Return s
  | JArray elems =>
      (fix join (first : bool) (l : list JSValue) : result jsstring :=
         match l with
         | [] => Return []
         | e :: l' =>
             let sep := if first then [] else js "," in
             let this :=
               match e with
               | JUndefined | JNull => Return []
               | _ => to_string e
               end in
             match this, join false l' with
             | Return a, Return b => Return (sep ++ a ++ b)
             | Throw x, _ => Throw x
             | _, Throw x => Throw x
             end
         end) true elems
  | JObject fields =>
      match lookup_field (js "toString") fields with
      | Some _ => Throw TypeError
      | None => Return (js "[object Object]")
      end
  end.

(** ** JSON *)

Module JSON.

Inductive token : Type :=
| TLBrace | TRBrace | TLBracket | TRBracket | TColon | TComma
| TStr (s : jsstring)
| TNum (x : double)
| TTrue | TFalse | TNull.

(** The parts of a number read so far: sign, digits of the integer and
    fraction parts as one integer, count of fraction digits, sign and
    value of the exponent. *)
Record num_acc : Type := NumAcc {
  n_neg : bool;
  n_mant : Z;
  n_frac : Z;
  n_eneg : bool;
  n_exp : Z
}.

Inductive num_stage : Type :=
| NMinus | NZero | NInt | NDot | NFrac | NE | NESign | NEDigits.

Inductive lex_state : Type :=
| LStart
| LStr (acc : jsstring)
| LEsc (acc : jsstring)
| LHex (acc : jsstring) (n : nat) (v : Z)
| LLit (expect : jsstring) (t : token)
| LNum (stage : num_stage) (a : num_acc).

Definition is_digit (c : Z) : bool := (48 <=? c) && (c <=? 57).

Definition hex_val (c : Z) : option Z :=
  if is_digit c then Some (c - 48)
  else if (97 <=? c) && (c <=? 102) then Some (c - 87)
  else if (65 <=? c) && (c <=? 70) then Some (c - 55)
  else None.

Definition num_value (a : num_acc) : double :=
  double_of_decimal (n_neg a) (n_mant a)
    ((if n_eneg a then - n_exp a else n_exp a) - n_frac a).

(** The stages at which a number may end. *)
Definition num_complete (st : num_stage) : bool :=
  match st with
  | NZero | NInt | NFrac | NEDigits => true
  | _ => false
  end.

Definition push_digit (a : num_acc) (c : Z) (frac : bool) : num_acc :=
  NumAcc (n_neg a) (n_mant a * 10 + (c - 48))
         (if frac then n_frac a + 1 else n_frac a) (n_eneg a) (n_exp a).

Definition push_exp (a : num_acc) (c : Z) : num_acc :=
  NumAcc (n_neg a) (n_mant a) (n_frac a) (n_eneg a) (n_exp a * 10 + (c - 48)).

(** One more character of a number, if the grammar allows it. *)
Definition num_step (st : num_stage) (a : num_acc) (c : Z)
  : option (num_stage * num_acc) :=
  let is_e := (c =? 101) || (c =? 69) in
  match st with
  | NMinus =>
      if c =? 48 then Some (NZero, a)
      else if is_digit c then Some (NInt, push_digit a c false)
      else None
  | NZero =>
      if c =? 46 then Some (NDot, a)
      else if is_e then Some (NE, a)
      else None
  | NInt =>
      if is_digit c then Some (NInt, push_digit a c false)
      else if c =? 46 then Some (NDot, a)
      else if is_e then Some (NE, a)
      else None
  | NDot => if is_digit c then Some (NFrac, push_digit a c true) else None
  | NFrac =>
      if is_digit c then Some (NFrac, push_digit a c true)
      else if is_e then Some (NE, a)
      else None
  | NE =>
      if c =? 43 then Some (NESign, a)
      else if c =? 45 then
        Some (NESign, NumAcc (n_neg a) (n_mant a) (n_frac a) true (n_exp a))
      else if is_digit c then Some (NEDigits, push_exp a c)
      else None
  | NESign => if is_digit c then Some (NEDigits, push_exp a c) else None
  | NEDigits => if is_digit c then Some (NEDigits, push_exp a c) else None
  end.

Definition num0 (neg : bool) (m : Z) : num_acc := NumAcc neg m 0 false 0.

(** A character between two tokens: white space, a punctuator, or the
    first character of a string, a literal or a number. *)
Definition lex_start (c : Z) : option (lex_state * list token) :=
  if (c =? 9) || (c =? 10) || (c =? 13) || (c =? 32) then Some (LStart, [])
  else if c =? 123 then Some (LStart, [TLBrace])
  else if c =? 125 then Some (LStart, [TRBrace])
  else if c =? 91 then Some (LStart, [TLBracket])
  else if c =? 93 then Some (LStart, [TRBracket])
  else if c =? 58 then Some (LStart, [TColon])
  else if c =? 44 then Some (LStart, [TComma])
  else if c =? 34 then Some (LStr [], [])
  else if c =? 116 then Some (LLit (js "rue") TTrue, [])
  else if c =? 102 then Some (LLit (js "alse") TFalse, [])
  else if c =? 110 then Some (LLit (js "ull") TNull, [])
  else if c =? 45 then Some (LNum NMinus (num0 true 0), [])
  else if c =? 48 then Some (LNum NZero (num0 false 0), [])
  else if is_digit c then Some (LNum NInt (num0 false (c - 48)), [])
  else None.

(** The character after a backslash, but [u]. *)
Definition unescape (c : Z) : option Z :=
  if c =? 34 then Some 34
  else if c =? 92 then Some 92
  else if c =? 47 then Some 47
  else if c =? 98 then Some 8
  else if c =? 102 then Some 12
  else if c =? 110 then Some 10
  else if c =? 114 then Some 13
  else if c =? 116 then Some 9
  else None.

(** The tokens of a JSON text; [acc] holds the tokens read, last first,
    and a string under construction is held last character first. *)
Fixpoint lex (st : lex_state) (acc : list token) (s : jsstring)
  : option (list token) :=
  match s with
  | [] =>
      match st with
      | LStart => Some (rev acc)
      | LNum stage a =>
          if num_complete stage then Some (rev (TNum (num_value a) :: acc))
          else None
      | _ => None
      end
  | c :: rest =>
      match st with
      | LStart =>
          match lex_start c with
          | Some (st', ts) => lex st' (ts ++ acc) rest
          | None => None
          end
      | LStr sacc =>
          if c =? 34 then lex LStart (TStr (rev sacc) :: acc) rest
          else if c =? 92 then lex (LEsc sacc) acc rest
          else if c <? 32 then None
          else lex (LStr (c :: sacc)) acc rest
      | LEsc sacc =>
          if c =? 117 then lex (LHex sacc 4 0) acc rest
          else
            match unescape c with
            | Some d => lex (LStr (d :: sacc)) acc rest
            | None => None
            end
      | LHex sacc n v =>
          match hex_val c with
          | Some d =>
              match n with
              | S (S n') => lex (LHex sacc (S n') (v * 16 + d)) acc rest
              | _ => lex (LStr ((v * 16 + d) :: sacc)) acc rest
              end
          | None => None
          end
      | LLit expect t =>
          match expect with
          | e :: expect' =>
              if c =? e then
                match expect' with
                | [] => lex LStart (t :: acc) rest
                | _ => lex (LLit expect' t) acc rest
                end
              else None
          | [] => None
          end
      | LNum stage a =>
          match num_step stage a c with
          | Some (stage', a') => lex (LNum stage' a') acc rest
          | None =>
              if num_complete stage then
                match lex_start c with
                | Some (st', ts) =>
                    lex st' (ts ++ TNum (num_value a) :: acc) rest
                | None => None
                end
              else None
          end
      end
  end.

(** *** Objects under construction *)

(** An array index: the canonical decimal form of an integer below
    [2^32 - 1]. Such keys are enumerated first, in ascending order. *)
Fixpoint digits_value (s : jsstring) (acc : Z) : option Z :=
  match s with
  | [] => Some acc
  | c :: rest => if is_digit c then digits_value rest (acc * 10 + (c - 48)) else None
  end.

Definition array_index (k : jsstring) : option Z :=
  match k with
  | [] => None
  | [48] => Some 0
  | 48 :: _ => None
  | _ =>
      if Nat.leb (length k) 10 then
        match digits_value k 0 with
        | Some n => if n <? 4294967295 then Some n else None
        | None => None
        end
      else None
  end.

(** [CreateDataProperty] on an object whose fields are kept in
    enumeration order: an existing key keeps its place and takes the new
    value; a new array index goes before the first larger index or the
    first other key; any other new key goes last. *)
Fixpoint insert_field (k : jsstring) (v : JSValue)
         (fields : list (jsstring * JSValue)) : list (jsstring * JSValue) :=
  match fields with
  | [] => [(k, v)]
  | (k', v') :: rest =>
      match array_index k, array_index k' with
      | Some i, Some i' =>
          if i <? i' then (k, v) :: fields else (k', v') :: insert_field k v rest
      | Some _, None => (k, v) :: fields
      | None, _ => (k', v') :: insert_field k v rest
      end
  end.

Fixpoint replace_field (k : jsstring) (v : JSValue)
         (fields : list (jsstring * JSValue)) : list (jsstring * JSValue) :=
  match fields with
  | [] => []
  | (k', v') :: rest =>
      if str_eqb k k' then (k', v) :: rest else (k', v') :: replace_field k v rest
  end.

Definition set_field (k : jsstring) (v : JSValue)
           (fields : list (jsstring * JSValue)) : list (jsstring * JSValue) :=
  match lookup_field k fields with
  | Some _ => replace_field k v fields
  | None => insert_field k v fields
  end.

(** *** Parser *)

(** A container whose members are being read: an array with the
    elements read (last first), an object waiting for a key, an object
    waiting for the value of a key. *)
Inductive frame : Type :=
| FArr (acc : list JSValue)
| FObj (fields : list (jsstring * JSValue))
| FKey (fields : list (jsstring * JSValue)) (key : jsstring).

Inductive expect : Type :=
| EValue          (* a value *)
| EArrOpen        (* after [[]: a value or []] *)
| EObjOpen        (* after [{]: a key or [}] *)
| EKey            (* after a comma in an object: a key *)
| EColon          (* after a key *)
| EArrNext        (* after an element: a comma or []] *)
| EObjNext        (* after a member: a comma or [}] *)
| EDone (v : JSValue).

(** A complete value goes into the container on top of the stack, or is
    the result. *)
Definition deliver (v : JSValue) (stack : list frame)
  : option (expect * list frame) :=
  match stack with
  | [] => Some (EDone v, [])
  | FArr acc :: st => Some (EArrNext, FArr (v :: acc) :: st)
  | FKey fields k :: st => Some (EObjNext, FObj (set_field k v fields) :: st)
  | FObj _ :: _ => None
  end.

Definition start_value (t : token) (stack : list frame)
  : option (expect * list frame) :=
  match t with
  | TLBracket => Some (EArrOpen, FArr [] :: stack)
  | TLBrace => Some (EObjOpen, FObj [] :: stack)
  | TStr s => deliver (JString s) stack
  | TNum x => deliver (JNumber x) stack
  | TTrue => deliver (JBool true) stack
  | TFalse => deliver (JBool false) stack
  | TNull => deliver JNull stack
  | _ => None
  end.

Definition parse_step (e : expect) (stack : list frame) (t : token)
  : option (expect * list frame) :=
  match e, t, stack with
  | EValue, _, _ => start_value t stack
  | EArrOpen, TRBracket, FArr _ :: st => deliver (JArray []) st
  | EArrOpen, _, _ => start_value t stack
  | EObjOpen, TRBrace, FObj _ :: st => deliver (JObject []) st
  | (EObjOpen | EKey), TStr k, FObj fields :: st => Some (EColon, FKey fields k :: st)
  | EColon, TColon, _ => Some (EValue, stack)
  | EArrNext, TComma, _ => Some (EValue, stack)
  | EArrNext, TRBracket, FArr acc :: st => deliver (JArray (rev acc)) st
  | EObjNext, TComma, _ => Some (EKey, stack)
  | EObjNext, TRBrace, FObj fields :: st => deliver (JObject fields) st
  | _, _, _ => None
  end.

Fixpoint parse_tokens (e : expect) (stack : list frame) (ts : list token)
  : option JSValue :=
  match ts with
  | [] => match e with EDone v => Some v | _ => None end
  | t :: rest =>
      match parse_step e stack t with
      | Some (e', stack') => parse_tokens e' stack' rest
      | None => None
      end
  end.

(** [JSON.parse(text)]. *)
Definition parse (text : jsstring) : result JSValue :=
  match lex LStart [] text with
  | Some ts =>
      match parse_tokens EValue [] ts with
      | Some v => Return v
      | None => Throw SyntaxError
      end
  | None => Throw SyntaxError
  end.

(** *** [JSON.stringify] *)

Definition hex4 (c : Z) : jsstring :=
  [hex_digit (c / 4096); hex_digit ((c / 256) mod 16);
   hex_digit ((c / 16) mod 16); hex_digit (c mod 16)].

Definition unicode_escape (c : Z) : jsstring := js "\u" ++ hex4 c.

(** The characters of [QuoteJSONString] between the quotes: the short
    escapes, [\uXXXX] for the other control characters and for unpaired
    surrogates, and every other character as it is. *)
Fixpoint quote_body (s : jsstring) : jsstring :=
  match s with
  | [] => []
  | c :: rest =>
      if c =? 8 then js "\b" ++ quote_body rest
      else if c =? 9 then js "\t" ++ quote_body rest
      else if c =? 10 then js "\n" ++ quote_body rest
      else if c =? 12 then js "\f" ++ quote_body rest
      else if c =? 13 then js "\r" ++ quote_body rest
      else if c =? 34 then [92; 34] ++ quote_body rest
      else if c =? 92 then js "\\" ++ quote_body rest
      else if c <? 32 then unicode_escape c ++ quote_body rest
      else if is_high c then
        match rest with
        | d :: rest' =>
            if is_low d then c :: d :: quote_body rest'
            else unicode_escape c ++ quote_body rest
        | [] => unicode_escape c
        end
      else if is_low c then unicode_escape c ++ quote_body rest
      else c :: quote_body rest
  end.

Definition quote (s : jsstring) : jsstring := [34] ++ quote_body s ++ [34].

Fixpoint join_with (sep : jsstring) (items : list jsstring) : jsstring :=
  match items with
  | [] => []
  | [x] => x
  | x :: rest => x ++ sep ++ join_with sep rest
  end.

Definition gap : jsstring := js "  ".
Definition nl : jsstring := [10].

(** [SerializeJSONProperty] with a gap of two spaces; [None] stands for
    [undefined]. No value built by [JSON.parse] has a callable
    [toJSON]. *)
Fixpoint serialize (indent : jsstring) (v : JSValue) {struct v}
  : option jsstring :=
  let inner := indent ++ gap in
  match v with
  | JUndefined => None
  | JNull => Some (js "null")
  | JBool true => Some (js "true")
  | JBool false => Some (js "false")
  | JNumber x =>
      match x with
      | S754_finite _ _ _ | S754_zero _ => Some (number_to_string x)
      | _ => Some (js "null")
      end
  | JString s => Some (quote s)
  | JArray elems =>
      let items :=
        (fix go (l : list JSValue) : list jsstring :=
           match l with
           | [] => []
           | e :: l' =>
               match serialize inner e with
               | Some s => s
               | None => js "null"
               end :: go l'
           end) elems in
      match items with
      | [] => Some (js "[]")
      | _ =>
          Some (js "[" ++ nl ++ inner ++ join_with (js "," ++ nl ++ inner) items
                ++ nl ++ indent ++ js "]")
      end
  | JObject fields =>
      let items :=
        (fix go (l : list (jsstring * JSValue)) : list jsstring :=
           match l with
           | [] => []
           | (k, e) :: l' =>
               match serialize inner e with
               | Some s => (quote k ++ js ": " ++ s) :: go l'
               | None => go l'
               end
           end) fields in
      match items with
      | [] => Some (js "{}")
      | _ =>
          Some (js "{" ++ nl ++ inner ++ join_with (js "," ++ nl ++ inner) items
                ++ nl ++ indent ++ js "}")
      end
  end.

(** [JSON.stringify(v, null, 2)] for an object or array [v]. *)
Definition stringify (v : JSValue) : jsstring :=
  match serialize [] v with
  | Some s => s
  | None => []
  end.

End JSON.

(** ** Paths ([node:path], POSIX flavour) *)

Module Path.

Definition slash : Z := 47.

(** The segments of a path between its slashes; the first is empty when
    the path is absolute, the last when it ends with a slash. *)
Fixpoint split (s : jsstring) (cur : jsstring) : list jsstring :=
  match s with
  | [] => [rev cur]
  | c :: rest =>
      if c =? slash then rev cur :: split rest [] else split rest (c :: cur)
  end.

(** [normalizeString]: empty and [.] segments are dropped; [..] removes
    the segment before it, unless there is none or it is [..] itself, in
    which case it is kept if [above] and dropped otherwise. [acc] holds
    the result, last segment first. *)
Fixpoint normalize_segments (above : bool) (segs acc : list jsstring)
  : list jsstring :=
  match segs with
  | [] => rev acc
  | seg :: rest =>
      if str_eqb seg [] || str_eqb seg (js ".") then
        normalize_segments above rest acc
      else if str_eqb seg (js "..") then
        match acc with
        | last :: acc' =>
            if str_eqb last (js "..")
            then normalize_segments above rest
                   (if above then seg :: acc else acc)
            else normalize_segments above rest acc'
        | [] => normalize_segments above rest (if above then [seg] else [])
        end
      else normalize_segments above rest (seg :: acc)
  end.

Definition is_absolute (p : jsstring) : bool :=
  match p with c :: _ => c =? slash | [] => false end.

Definition ends_with_slash (p : jsstring) : bool :=
  match rev p with c :: _ => c =? slash | [] => false end.

(** [path.normalize]. *)
Definition normalize (p : jsstring) : jsstring :=
  match p with
  | [] => js "."
  | _ =>
      let abs := is_absolute p in
      let trail := ends_with_slash p in
      let segs := normalize_segments (negb abs) (split p []) [] in
      match segs with
      | [] => if abs then js "/" else if trail then js "./" else js "."
      | _ =>
          (if abs then js "/" else [])
          ++ JSON.join_with (js "/") segs
          ++ (if trail then js "/" else [])
      end
  end.

(** [path.join]: the non-empty arguments separated by slashes, normalised. *)
Definition join (parts : list jsstring) : jsstring :=
  match List.filter (fun a => negb (str_eqb a [])) parts with
  | [] => js "."
  | ps => normalize (JSON.join_with (js "/") ps)
  end.

Fixpoint drop_while (f : Z -> bool) (s : jsstring) : jsstring :=
  match s with
  | [] => []
  | c :: rest => if f c then drop_while f rest else s
  end.

(** [path.dirname]: scanning from the end and never looking at the first
    character, skip the slashes, then the last segment; what precedes
    the slash found there is the result. *)
Definition dirname (p : jsstring) : jsstring :=
  match p with
  | [] => js "."
  | c0 :: tl =>
      let root := c0 =? slash in
      let r := drop_while (fun c => negb (c =? slash))
                 (drop_while (fun c => c =? slash) (rev tl)) in
      match r with
      | [] => if root then js "/" else js "."
      | _ :: before =>
          if root && Nat.eqb (length before) 0 then js "//"
          else c0 :: rev before
      end
  end.

End Path.

(** ** The file system

    A tree of directories and regular files, as a finite map from the
    list of segments below the root to the node found there; the root is
    always a directory, and a node is reachable when every proper prefix
    of its path is a directory. Permissions, quotas, name length limits
    and symbolic links are outside the model: a call fails only for the
    shape of the tree. *)

Inductive node : Type :=
| File (content : list byte)
| Dir.

Abbreviation tree := (gmap (list (list Z)) node) (only parsing).

Module FS.

(** Resolution of the segments of a path from a directory [acc] (last
    segment first); [..] at the root stays at the root. *)
Fixpoint walk (segs acc : list jsstring) : list jsstring :=
  match segs with
  | [] => rev acc
  | seg :: rest =>
      if str_eqb seg [] || str_eqb seg (js ".") then walk rest acc
      else if str_eqb seg (js "..") then walk rest (tail acc)
      else walk rest (seg :: acc)
  end.

(** Where a path leads, and whether it ends with a slash; a relative
    path starts from the working directory [cwd], itself an absolute
    path. The empty path leads nowhere. *)
Definition resolve (cwd p : jsstring) : option (list jsstring * bool) :=
  match p with
  | [] => None
  | _ =>
      let start :=
        if Path.is_absolute p then [] else rev (walk (Path.split cwd []) []) in
      Some (walk (Path.split p []) start, Path.ends_with_slash p)
  end.

Fixpoint lookup_from (t : tree) (pre segs : list jsstring) : option node :=
  match segs with
  | [] => Some Dir
  | [s] => t !! (pre ++ [s])
  | s :: rest =>
      match t !! (pre ++ [s]) with
      | Some Dir => lookup_from t (pre ++ [s]) rest
      | _ => None
      end
  end.

(** The node at the end of a path, if every directory on the way exists. *)
Definition lookup_path (t : tree) (segs : list jsstring) : option node :=
  lookup_from t [] segs.

(** What [stat] finds: a path that ends with a slash must lead to a
    directory. *)
Definition stat (cwd : jsstring) (t : tree) (p : jsstring) : option node :=
  match resolve cwd p with
  | None => None
  | Some (segs, trail) =>
      match lookup_path t segs with
      | Some (File c) => if trail then None else Some (File c)
      | r => r
      end
  end.

Definition has_nul (p : jsstring) : bool := existsb (Z.eqb 0) p.

Definition exists_path (cwd : jsstring) (t : tree) (p : jsstring) : bool :=
  if has_nul p then false
  else match stat cwd t p with Some _ => true | None => false end.

(** [mkdir -p] below the directory [pre]. *)
Fixpoint mkdir_from (t : tree) (pre segs : list jsstring) : result tree :=
  match segs with
  | [] => Return t
  | s :: rest =>
      match t !! (pre ++ [s]) with
      | Some Dir => mkdir_from t (pre ++ [s]) rest
      | Some (File _) =>
          Throw (SystemError (match rest with [] => "EEXIST" | _ => "ENOTDIR" end))
      | None => mkdir_from (<[pre ++ [s] := Dir]> t) (pre ++ [s]) rest
      end
  end.

Definition mkdir_p (cwd : jsstring) (t : tree) (p : jsstring) : result tree :=
  if has_nul p then Throw TypeError
  else
    match resolve cwd p with
    | None => Throw (SystemError "ENOENT")
    | Some (segs, _) => mkdir_from t [] segs
    end.

Definition read_file (cwd : jsstring) (t : tree) (p : jsstring)
  : result (list byte) :=
  if has_nul p then Throw TypeError
  else
    match resolve cwd p with
    | None => Throw (SystemError "ENOENT")
    | Some (segs, trail) =>
        match lookup_path t segs with
        | Some (File c) => if trail then Throw (SystemError "ENOTDIR") else Return c
        | Some Dir => Throw (SystemError "EISDIR")
        | None => Throw (SystemError "ENOENT")
        end
    end.

(** Creation or replacement of a regular file: the parent must be a
    directory, the path must not name a directory nor end with a slash. *)
Definition write_file (cwd : jsstring) (t : tree) (p : jsstring)
           (data : list byte) : result tree :=
  if has_nul p then Throw TypeError
  else
    match resolve cwd p with
    | None => Throw (SystemError "ENOENT")
    | Some (segs, trail) =>
        match segs with
        | [] => Throw (SystemError "EISDIR")
        | _ =>
            match lookup_path t (removelast segs) with
            | Some Dir =>
                match t !! segs with
                | Some Dir => Throw (SystemError "EISDIR")
                | Some (File _) =>
                    if trail then Throw (SystemError "ENOTDIR")
                    else Return (<[segs := File data]> t)
                | None =>
                    if trail then Throw (SystemError "EISDIR")
                    else Return (<[segs := File data]> t)
                end
            | Some (File _) => Throw (SystemError "ENOTDIR")
            | None => Throw (SystemError "ENOENT")
            end
        end
    end.

End FS.

(** ** Effects *)

(** What the network answers to a request: no answer at all, or a status
    line followed by a body; [None] is a body whose transfer breaks
    off. *)
Inductive fetch_result : Type :=
| NetworkError
| Response (status : Z) (body : option (list byte)).

(** The effects a run performs, in order. *)
Inductive event : Type :=
| EvFetch (url : list Z)
| EvMkdir (path : list Z)
| EvWrite (path : list Z) (data : list byte).

(** The surroundings of a run, fixed for its duration: the working
    directory of the process, an absolute path; the network; and the
    order in which the network answers the requests that are pending at
    the same time. At each step [order] names the call that goes on next
    by its position among the calls in flight, the oldest being at 0,
    counted round; once the list is used up the oldest goes on. *)
Record env : Type := Env {
  cwd : list Z;
  net : list Z -> fetch_result;
  order : list nat
}.

Record state : Type := State {
  fs : gmap (list (list Z)) node;
  trace : list event
}.

(** A computation returns or throws, and leaves a state either way. *)
Definition M (A : Type) : Type := state -> result A * state.

#[global] Instance M_ret : MRet M := fun A a st => (Return a, st).

#[global] Instance M_bind : MBind M := fun A B f m st =>
  match m st with
  | (Return a, st') => f a st'
  | (Throw e, st') => (Throw e, st')
  end.

Definition throw {A : Type} (e : exn) : M A := fun st => (Throw e, st).

Definition lift {A : Type} (r : result A) : M A := fun st => (r, st).

(** [try { body } catch { handler }]. *)
Definition try_catch {A : Type} (body : M A) (handler : exn -> M A) : M A :=
  fun st =>
    match body st with
    | (Return a, st') => (Return a, st')
    | (Throw e, st') => handler e st'
    end.

Definition log (ev : event) : M unit :=
  fun st => (Return tt, State (fs st) (trace st ++ [ev])).

Section Platform.

Context (E : env).

(** [process.cwd()]. *)
Definition process_cwd : list Z := cwd E.

Definition existsSync (p : jsstring) : M bool :=
  fun st => (Return (FS.exists_path (cwd E) (fs st) p), st).

(** [mkdirSync(p, { recursive: true })]. *)
Definition mkdirSync (p : jsstring) : M unit :=
  fun st =>
    match FS.mkdir_p (cwd E) (fs st) p with
    | Return t => (Return tt, State t (trace st ++ [EvMkdir p]))
    | Throw e => (Throw e, st)
    end.

(** [readFileSync(p, "utf-8")]. *)
Definition readFileSync (p : jsstring) : M (list Z) :=
  fun st =>
    match FS.read_file (cwd E) (fs st) p with
    | Return c => (Return (utf8_decode c), st)
    | Throw e => (Throw e, st)
    end.

(** [writeFileSync(p, data, "utf-8")]. *)
Definition writeFileSync (p data : jsstring) : M unit :=
  fun st =>
    let bytes := utf8_encode data in
    match FS.write_file (cwd E) (fs st) p bytes with
    | Return t => (Return tt, State t (trace st ++ [EvWrite p bytes]))
    | Throw e => (Throw e, st)
    end.

(** What the promise of [fetch(url)] settles with: it rejects with a
    [TypeError] when the network gives no answer. *)
Definition reply (url : jsstring) : M (Z * option (list byte)) :=
  match net E url with
  | NetworkError => throw TypeError
  | Response status body => mret (status, body)
  end.

(** [await fetch(url)] with nothing else going on: the request is sent,
    and the call goes on with the answer. *)
Definition fetch (url : jsstring) : M (Z * option (list byte)) :=
  _ ← log (EvFetch url);
  reply url.

(** [res.ok]. *)
Definition ok (res : Z * option (list byte)) : bool :=
  (200 <=? fst res) && (fst res <=? 299).

(** [await res.text()]. *)
Definition text (res : Z * option (list byte)) : M (list Z) :=
  match snd res with
  | Some body => mret (utf8_decode_bom body)
  | None => throw TypeError
  end.

(** [await res.json()]. *)
Definition json (res : Z * option (list byte)) : M JSValue :=
  t ← text res; lift (JSON.parse t).

(** [path.join(a, b)] where [b] is any value: only strings are accepted. *)
Definition join_value (a : jsstring) (b : JSValue) : M (list Z) :=
  match b with
  | JString s => mret (Path.join [a; s])
  | _ => throw TypeError
  end.

End Platform.

(** ** The program ([src/cli.ts]) *)

Definition REPO : list Z := js "first-fluke/oh-my-antigravity".

(** What [downloadFile] resolves to: [{ path, success, error? }]. The
    path is the [path] property of the manifest entry, whatever it is. *)
Record outcome : Type := Outcome {
  o_path : JSValue;
  o_success : bool;
  o_error : option (list Z)
}.

(** How a run of [update] ends: nothing to do, a transfer pass with its
    outcomes, or the [catch] branch ([Update failed], exit status 1),
    which ends the process: the calls that are in flight when [pMap] is
    rejected go no further. *)
Inductive report : Type :=
| UpToDate (version : JSValue)
| Updated (results : list outcome)
| Failed (e : exn).

(** The values a [for ... of] loop draws from a string: its code points,
    each as a string. *)
Fixpoint string_iter (s : jsstring) : list (list Z) :=
  match s with
  | [] => []
  | c :: rest =>
      if is_high c then
        match rest with
        | d :: rest' =>
            if is_low d then [c; d] :: string_iter rest' else [c] :: string_iter rest
        | [] => [[c]]
        end
      else [c] :: string_iter rest
  end.

(** The items [pMap] draws from its first argument: arrays and strings
    are iterable, nothing else that [JSON.parse] builds is. *)
Definition iterate (v : JSValue) : result (list JSValue) :=
  match v with
  | JArray elems => Return elems
  | JString s => Return (map JString (string_iter s))
  | _ => Throw TypeError
  end.

(** [items.map(callback)] for a callback that can throw: the results in
    the order of the items. *)
Fixpoint array_map {A B : Type} (callback : A -> M B) (items : list A)
  : M (list B) :=
  match items with
  | [] => mret []
  | x :: rest =>
      y ← callback x;
      ys ← array_map callback rest;
      mret (y :: ys)
  end.

(** ** Asynchronous calls

    A call of an [async] function runs until its first [await] and is
    suspended there; it goes on when the promise it awaits settles, and
    the code of other calls may have run in between. *)

(** A call that awaits at most [n] times more: it has returned a value,
    or it is suspended with what it does when it goes on. *)
Fixpoint task (n : nat) (B : Type) : Type :=
  match n with
  | O => B
  | S m => (B + M (task m B))%type
  end.

(** A suspended call, with the number of times it may still await once
    it has gone on. *)
Definition suspended (B : Type) : Type := {m : nat & M (task m B)}.

(** What a call has come to: its value or its suspension. *)
Definition view {B : Type} (n : nat) : task n B -> B + suspended B :=
  match n with
  | O => fun b => inl b
  | S m => fun t =>
      match t with
      | inl b => inl b
      | inr resume => inr (existT m resume)
      end
  end.

(** [await f(x)] with nothing else going on: the call is run to its
    end. *)
Fixpoint complete {B : Type} (n : nat) : task n B -> M B :=
  match n with
  | O => fun b => mret b
  | S m => fun t =>
      match t with
      | inl b => mret b
      | inr resume => t' ← resume; complete m t'
      end
  end.

(** ** [p-map]

    [pMap(items, mapper, { concurrency })] calls the mapper on the items
    in their order, with no more calls in flight than [concurrency]. The
    value a call returns is stored at the index of its item. The promise
    of [pMap] resolves with the values once every call has returned, and
    is rejected with the exception of the first call found to have
    thrown; the calls in flight at that moment are not waited for, and
    no further call is made.

    When the next call is made and which of the calls in flight goes on
    next depends on the library and on the time the answers take. Every
    order is represented: a run follows a list of choices, each between
    making the next call, if there is room for one, and letting one of
    the calls in flight go on. *)

(** The state of a call of [pMap]: the items whose call is still to be
    made, with their indices; the calls in flight, oldest first, each
    with the index of its item; and the array of the values returned. *)
Record pool (A B : Type) : Type := Pool {
  remaining : list (nat * A);
  resolving : list (nat * suspended B);
  collected : list (option B)
}.

Arguments Pool {A B} _ _ _.
Arguments remaining {A B} _.
Arguments resolving {A B} _.
Arguments collected {A B} _.

Section PMap.

Context {A B : Type} {n : nat}.
Context (concurrency : nat) (mapper : A -> M (task n B)).

(** Whether a call can be made: an item is left, and fewer calls than
    [concurrency] are in flight. *)
Definition has_room (p : pool A B) : bool :=
  match remaining p with
  | [] => false
  | _ :: _ => (length (resolving p) <? concurrency)%nat
  end.

(** The mapper is called on the next item, and the call runs as far as
    its first [await]. A value returned before that is stored. An
    exception thrown before that rejects the promise of the call, which
    [pMap] finds out later: until then the call is in flight. *)
Definition call_next (p : pool A B) : M (pool A B) :=
  match remaining p with
  | [] => mret p
  | (i, x) :: rest =>
      try_catch
        (t ← mapper x;
         mret match view n t with
              | inl b => Pool rest (resolving p) (<[i := Some b]> (collected p))
              | inr call => Pool rest (resolving p ++ [(i, call)]) (collected p)
              end)
        (fun e =>
           mret (Pool rest (resolving p ++ [(i, existT O (throw e))]) (collected p)))
  end.

(** The call at position [j] among those in flight goes on, up to its
    next [await] or to its end, where its value is stored. *)
Definition go_on (j : nat) (p : pool A B) : M (pool A B) :=
  match resolving p !! j with
  | None => mret p
  | Some (i, existT m resume) =>
      t ← resume;
      mret match view m t with
           | inl b =>
               Pool (remaining p) (delete j (resolving p))
                    (<[i := Some b]> (collected p))
           | inr call =>
               Pool (remaining p) (<[j := (i, call)]> (resolving p)) (collected p)
           end
  end.

(** One step, by choice [c]: where a call can be made, 0 makes it and
    [S j] lets the call at [j] go on; where none can, [j] lets the call
    at [j] go on. Positions are counted round. *)
Definition step (c : nat) (p : pool A B) : M (pool A B) :=
  if has_room p then
    match (c mod S (length (resolving p)))%nat with
    | O => call_next p
    | S j => go_on j p
    end
  else go_on (c mod length (resolving p))%nat p.

(** Steps are taken until no call is in flight and none can be made, or
    until one throws. Making a call is one step, and the call then takes
    [n] steps at most, or one if it has thrown before its first [await]:
    [fuel], which is [n + 2] for each item, is never used up before the
    end. Once the choices are used up the choice is 0. *)
Fixpoint run (fuel : nat) (choices : list nat) (p : pool A B)
  : M (list (option B)) :=
  match fuel with
  | O => mret (collected p)
  | S fuel' =>
      if has_room p || negb (bool_decide (length (resolving p) = O)) then
        p' ← step (hd O choices) p;
        run fuel' (tl choices) p'
      else mret (collected p)
  end.

(** The library refuses a [concurrency] that is not at least 1. *)
Definition pMap (choices : list nat) (items : list A) : M (list B) :=
  if (concurrency =? 0)%nat then throw TypeError
  else
    values ← run ((n + 2) * length items) choices
                 (Pool (zip (seq 0 (length items)) items) []
                       (replicate (length items) None));
    mret (omap id values).

End PMap.

Section Program.

Context (E : env).

Definition version_file (targetDir : jsstring) : list Z :=
  Path.join [targetDir; js ".agent"; js "skills"; js "_version.json"].

Definition getLocalVersion (targetDir : jsstring) : M JSValue :=
  let versionFile := version_file targetDir in
  present ← existsSync E versionFile;
  if negb present then mret JNull
  else
    try_catch
      (content ← readFileSync E versionFile;
       json ← lift (JSON.parse content);
       version ← lift (get_prop json (js "version"));
       mret (if truthy version then version else JNull))
      (fun _ => mret JNull).

(** The parameter is declared a [string]; at run time it is whatever the
    manifest holds as [version]. *)
Definition saveLocalVersion (targetDir : jsstring) (version : JSValue) : M unit :=
  let versionFile := version_file targetDir in
  let versionDir := Path.dirname versionFile in
  present ← existsSync E versionDir;
  _ ← (if negb present then mkdirSync E versionDir else mret tt);
  writeFileSync E versionFile
    (JSON.stringify (JObject [(js "version", version)])).

Definition manifest_url : list Z :=
  js "https://raw.githubusercontent.com/" ++ REPO ++ js "/main/prompt-manifest.json".

(** The result is cast to [Manifest] without any check. *)
Definition fetchRemoteManifest : M JSValue :=
  res ← fetch E manifest_url;
  if negb (ok res) then throw (Error "Failed to fetch remote manifest")
  else json res.

Definition file_url (path : jsstring) : list Z :=
  js "https://raw.githubusercontent.com/" ++ REPO ++ js "/main/" ++ path.

Definition downloadFile (manifestFile : JSValue) : M outcome :=
  path ← lift (get_prop manifestFile (js "path"));
  pathText ← lift (to_string path);
  res ← fetch E (file_url pathText);
  if negb (ok res) then
    mret (Outcome path false (Some (js "HTTP " ++ dec_digits (fst res))))
  else
    content ← text res;
    let actualSHA256 := calculateSHA256 content in
    sha256 ← lift (get_prop manifestFile (js "sha256"));
    if negb (strict_eq (JString actualSHA256) sha256) then
      mret (Outcome path false (Some (js "SHA256 mismatch")))
    else
      targetPath ← join_value (process_cwd E) path;
      let targetDir := Path.dirname targetPath in
      present ← existsSync E targetDir;
      _ ← (if negb present then mkdirSync E targetDir else mret tt);
      _ ← writeFileSync E targetPath content;
      mret (Outcome path true None).

(** The same function as a call that can be suspended: it awaits the
    answer to its request, and then the body of the response. Between
    the two, and before the first, other calls may go on. *)
Definition downloadFile_async (manifestFile : JSValue) : M (task 2 outcome) :=
  path ← lift (get_prop manifestFile (js "path"));
  pathText ← lift (to_string path);
  _ ← log (EvFetch (file_url pathText));
  mret (inr (
    res ← reply E (file_url pathText);
    if negb (ok res) then
      mret (inl (Outcome path false (Some (js "HTTP " ++ dec_digits (fst res)))))
    else
      mret (inr (
        content ← text res;
        let actualSHA256 := calculateSHA256 content in
        sha256 ← lift (get_prop manifestFile (js "sha256"));
        if negb (strict_eq (JString actualSHA256) sha256) then
          mret (Outcome path false (Some (js "SHA256 mismatch")))
        else
          targetPath ← join_value (process_cwd E) path;
          let targetDir := Path.dirname targetPath in
          present ← existsSync E targetDir;
          _ ← (if negb present then mkdirSync E targetDir else mret tt);
          _ ← writeFileSync E targetPath content;
          mret (Outcome path true None))))).

Definition failures (results : list outcome) : list outcome :=
  List.filter (fun r => negb (o_success r)) results.

(** The body of the [try] block of [update]. Of the calls that only
    print, the conversions of values to text are kept, since they can
    throw. *)
Definition update_try : M report :=
  remoteManifest ← fetchRemoteManifest;
  localVersion ← getLocalVersion (process_cwd E);
  version ← lift (get_prop remoteManifest (js "version"));
  if strict_eq localVersion version then
    _ ← lift (to_string localVersion);
    mret (UpToDate localVersion)
  else
    _ ← lift (to_string (if truthy localVersion then localVersion
                         else JString (js "not installed")));
    _ ← lift (to_string version);
    files ← lift (get_prop remoteManifest (js "files"));
    items ← lift (iterate files);
    results ← pMap 10 downloadFile_async (order E) items;
    _ ← array_map (fun f => lift (to_string (o_path f))) (failures results);
    _ ← saveLocalVersion (process_cwd E) version;
    mret (Updated results).

Definition update : state -> report * state :=
  fun st =>
    match update_try st with
    | (Return r, st') => (r, st')
    | (Throw e, st') => (Failed e, st')
    end.

End Program.

(** ** The installer ([main]) *)

Definition GITHUB_RAW : list Z :=
  js "https://raw.githubusercontent.com/" ++ REPO ++ js "/main/.agent/skills".

Record skill : Type := Skill {
  skill_name : list Z;
  skill_desc : list Z
}.

Module SKILLS.

Definition domain : list skill :=
  [Skill (js "frontend-agent") (js "React/Next.js UI specialist");
   Skill (js "backend-agent") (js "FastAPI/SQLAlchemy API specialist");
   Skill (js "mobile-agent") (js "Flutter/Dart mobile specialist")].

Definition coordination : list skill :=
  [Skill (js "pm-agent") (js "Product manager - task decomposition");
   Skill (js "qa-agent") (js "QA - OWASP, Lighthouse, WCAG");
   Skill (js "workflow-guide") (js "Manual multi-agent orchestration");
   Skill (js "orchestrator") (js "Automated parallel CLI execution")].

Definition utility : list skill :=
  [Skill (js "debug-agent") (js "Bug fixing specialist");
   Skill (js "commit") (js "Conventional Commits helper")].

End SKILLS.

(** [[...SKILLS.domain, ...SKILLS.coordination, ...SKILLS.utility]]. *)
Definition allSkills : list skill :=
  SKILLS.domain ++ SKILLS.coordination ++ SKILLS.utility.

Definition PRESETS : list (list Z * list (list Z)) :=
  [(js "fullstack",
    [js "frontend-agent"; js "backend-agent"; js "pm-agent"; js "qa-agent";
     js "debug-agent"; js "commit"]);
   (js "frontend",
    [js "frontend-agent"; js "pm-agent"; js "qa-agent"; js "debug-agent";
     js "commit"]);
   (js "backend",
    [js "backend-agent"; js "pm-agent"; js "qa-agent"; js "debug-agent";
     js "commit"]);
   (js "mobile",
    [js "mobile-agent"; js "pm-agent"; js "qa-agent"; js "debug-agent";
     js "commit"]);
   (js "all", map skill_name allSkills)].

(** The value of a key in an object literal of the program whose keys
    are all strings of this file. *)
Fixpoint assoc {A : Type} (key : list Z) (entries : list (list Z * A)) : option A :=
  match entries with
  | [] => None
  | (k, v) :: rest => if str_eqb key k then Some v else assoc key rest
  end.

(** [for (const x of items) body]; a [continue] is a body that returns
    early. *)
Fixpoint for_of {A : Type} (items : list A) (body : A -> M unit) : M unit :=
  match items with
  | [] => mret tt
  | x :: rest => _ ← body x; for_of rest body
  end.

(** What the user answers to a prompt: a value, or the cancellation of
    the prompt. *)
Inductive answer (A : Type) : Type :=
| Cancelled
| Answered (a : A).
Arguments Cancelled {A}.
Arguments Answered {A} a.

(** How a run of [main] ends: a prompt was cancelled (exit status 0), the
    skills selected were gone through, or the [catch] branch
    ([Installation failed], exit status 1). *)
Inductive installation : Type :=
| NotInstalled
| Installed (selectedSkills : list (list Z))
| InstallationFailed (e : exn).

Section Installer.

(** [head] is what the network answers to a request of method [HEAD]. *)
Context (E : env) (head : list Z -> fetch_result).

(** [await fetch(url, { method: "HEAD" })]. *)
Definition fetch_head (url : jsstring) : M (Z * option (list byte)) :=
  _ ← log (EvFetch url);
  match head url with
  | NetworkError => throw TypeError
  | Response status body => mret (status, body)
  end.

Definition skill_url (skillName file : jsstring) : list Z :=
  GITHUB_RAW ++ js "/" ++ skillName ++ js "/" ++ file.

Definition resourceFiles : list (list Z) :=
  [js "resources/execution-protocol.md";
   js "resources/tech-stack.md";
   js "resources/checklist.md";
   js "resources/templates.md";
   js "resources/error-playbook.md"].

(** The loop of [fetchSkillFiles] over what is left of [resourceFiles],
    [files] being the array built so far. *)
Fixpoint probe (skillName : jsstring) (candidates files : list (list Z))
  : M (list (list Z)) :=
  match candidates with
  | [] => mret files
  | file :: rest =>
      res ← fetch_head (skill_url skillName file);
      probe skillName rest (if ok res then files ++ [file] else files)
  end.

Definition fetchSkillFiles (skillName : jsstring) : M (list (list Z)) :=
  probe skillName resourceFiles [js "SKILL.md"].

(** The body of the loop of [installSkill]. *)
Definition installSkillFile (skillName skillDir file : jsstring) : M unit :=
  res ← fetch E (skill_url skillName file);
  if negb (ok res) then mret tt
  else
    content ← text res;
    let filePath := Path.join [skillDir; file] in
    let fileDir := Path.dirname filePath in
    present ← existsSync E fileDir;
    _ ← (if negb present then mkdirSync E fileDir else mret tt);
    writeFileSync E filePath content.

Definition installSkill (skillName targetDir : jsstring) : M bool :=
  let skillDir := Path.join [targetDir; js ".agent"; js "skills"; skillName] in
  files ← fetchSkillFiles skillName;
  _ ← for_of files (installSkillFile skillName skillDir);
  mret true.

Definition sharedFiles : list (list Z) :=
  [js "reasoning-templates.md";
   js "clarification-protocol.md";
   js "context-loading.md";
   js "skill-routing.md"].

Definition shared_url (file : jsstring) : list Z :=
  GITHUB_RAW ++ js "/_shared/" ++ file.

(** The body of the loop of [installShared]. *)
Definition installSharedFile (sharedDir file : jsstring) : M unit :=
  res ← fetch E (shared_url file);
  if negb (ok res) then mret tt
  else
    content ← text res;
    writeFileSync E (Path.join [sharedDir; file]) content.

Definition installShared (targetDir : jsstring) : M unit :=
  let sharedDir := Path.join [targetDir; js ".agent"; js "skills"; js "_shared"] in
  present ← existsSync E sharedDir;
  _ ← (if negb present then mkdirSync E sharedDir else mret tt);
  for_of sharedFiles (installSharedFile sharedDir).

(** The skills [main] installs for the answers to its two prompts, when
    none is cancelled. [p.select] returns the value of one of its
    options, so [projectType] is one of [all], [fullstack], [frontend],
    [backend], [mobile] and [custom]; the second prompt is shown for
    [custom] only. *)
Definition selection (projectType : answer (list Z))
           (selected : answer (list (list Z))) : option (list (list Z)) :=
  match projectType with
  | Cancelled => None
  | Answered value =>
      if str_eqb value (js "custom") then
        match selected with
        | Cancelled => None
        | Answered names => Some names
        end
      else Some (match assoc value PRESETS with Some names => names | None => [] end)
  end.

(** The body of the [try] block of [main]. *)
Definition main_try (selectedSkills : list (list Z)) : M unit :=
  _ ← installShared (process_cwd E);
  for_of selectedSkills
    (fun skillName => _ ← installSkill skillName (process_cwd E); mret tt).

Definition main (projectType : answer (list Z))
           (selected : answer (list (list Z))) : state -> installation * state :=
  fun st =>
    match selection projectType selected with
    | None => (NotInstalled, st)
    | Some selectedSkills =>
        match main_try selectedSkills st with
        | (Return _, st') => (Installed selectedSkills, st')
        | (Throw e, st') => (InstallationFailed e, st')
        end
    end.

End Installer.

(** ** The digest of a local file *)

Section Digest.

Context (E : env).

(** [getFileSHA256]: the digest of a file read as text, [null] when the
    file cannot be read. *)
Definition getFileSHA256 (filePath : jsstring) : M (option (list Z)) :=
  try_catch
    (content ← readFileSync E filePath;
     mret (Some (calculateSHA256 content)))
    (fun _ => mret None).

End Digest.

(** ** The diagnosis ([doctor]) *)

Record CLICheck : Type := {
  cli_name : list Z;
  cli_installed : bool;
  cli_version : option (list Z);
  cli_installCmd : list Z
}.

(** What [checkMCPConfig] resolves to: [{ configured, path? }]. *)
Record MCPCheck : Type := {
  mcp_configured : bool;
  mcp_path : option (list Z)
}.

Inductive dashboard_type : Type := terminal | web.

Record DashboardCheck : Type := {
  dashboard_name : list Z;
  dashboard_available : bool;
  dashboard_kind : dashboard_type;
  dashboard_installCmd : option (list Z)
}.

Record SkillCheck : Type := {
  check_name : list Z;
  check_installed : bool;
  check_hasSkillMd : bool
}.

(** What [doctor] finds about the directory of memories: the number of
    its entries, that it cannot be listed, or that it is not there. *)
Inductive serena_check : Type :=
| SerenaFiles (count : nat)
| SerenaUnreadable
| SerenaMissing.

(** What a run of [doctor] has collected when it reaches its last
    message. *)
Record diagnosis : Type := {
  clis : list CLICheck;
  mcpChecks : list (CLICheck * MCPCheck);
  dashboardChecks : list DashboardCheck;
  skillChecks : list SkillCheck;
  serena : serena_check;
  totalIssues : Z
}.

(** How a run of [doctor] ends: with its last message, or in the [catch]
    branch ([Check failed], exit status 1). *)
Inductive checkup : Type :=
| Diagnosed (d : diagnosis)
| CheckFailed (e : exn).

Inductive config_type : Type := json_config | yaml_config | toml_config.

(** The white space and the line terminators of ECMAScript, which
    [String.prototype.trim] removes. *)
Definition is_white_space (c : Z) : bool :=
  (c =? 9) || (c =? 10) || (c =? 11) || (c =? 12) || (c =? 13) || (c =? 32) ||
  (c =? 0xA0) || (c =? 0x1680) || ((0x2000 <=? c) && (c <=? 0x200A)) ||
  (c =? 0x2028) || (c =? 0x2029) || (c =? 0x202F) || (c =? 0x205F) ||
  (c =? 0x3000) || (c =? 0xFEFF).

(** [s.trim()]. *)
Definition trim (s : jsstring) : jsstring :=
  rev (Path.drop_while is_white_space (rev (Path.drop_while is_white_space s))).

(** [a || b] for a string or [undefined] on the left. *)
Definition or_else (a : option (list Z)) (b : list Z) : list Z :=
  match a with
  | Some (c :: s) => c :: s
  | _ => b
  end.

(** The names of the entries of the directory at [segs]. *)
Definition children (t : gmap (list (list Z)) node) (segs : list (list Z))
  : list (list Z) :=
  omap (fun entry : list (list Z) * node =>
          match rev (fst entry) with
          | name :: parent => if bool_decide (rev parent = segs) then Some name else None
          | [] => None
          end)
       (map_to_list t).

(** [for (const x of items) checks.push(body(x))], and
    [Promise.all(items.map(body))] for a body that runs to its end
    without waiting: the results of the body, in order. *)
Definition collect {A B : Type} (items : list A) (body : A -> M B) : M (list B) :=
  array_map body items.

(** The default of the option [maxBuffer] of [execSync]: the largest
    number of bytes a child may print to a pipe. *)
Definition maxBuffer : Z := 1024 * 1024.

Section Doctor.

(** [exec] is what a command run by the shell prints on its standard
    output when it is left to run and exits with status 0, a child
    process being taken to leave the tree as it is; [getenv] is the
    environment of the process. *)
Context (E : env) (exec : list Z -> option (list byte))
        (getenv : list Z -> option (list Z)).

(** [execSync(command, { encoding: "utf-8", stdio: ["pipe", "pipe",
    "ignore"] })]: the output of the command as text. It throws when the
    command fails and when the command prints more than [maxBuffer]
    bytes, in which case the child is killed. *)
Definition execSync (command : jsstring) : M (list Z) :=
  match exec command with
  | Some out =>
      if Z.of_nat (length out) <=? maxBuffer then mret (utf8_decode out)
      else throw (SystemError "ENOBUFS")
  | None => throw (Error "Command failed")
  end.

(** [execSync(command, { stdio: "ignore" })]: nothing is read from the
    child, and the call throws when the command fails. *)
Definition execSync_ignore (command : jsstring) : M unit :=
  match exec command with
  | Some _ => mret tt
  | None => throw (Error "Command failed")
  end.

(** [readdirSync(p)], in the order of the map. *)
Definition readdirSync (p : jsstring) : M (list (list Z)) :=
  fun st =>
    if FS.has_nul p then (Throw TypeError, st)
    else
      match FS.resolve (cwd E) p with
      | None => (Throw (SystemError "ENOENT"), st)
      | Some (segs, _) =>
          match FS.lookup_path (fs st) segs with
          | Some Dir => (Return (children (fs st) segs), st)
          | Some (File _) => (Throw (SystemError "ENOTDIR"), st)
          | None => (Throw (SystemError "ENOENT"), st)
          end
      end.

Definition checkCLI (name command installCmd : jsstring) : M CLICheck :=
  try_catch
    (out ← execSync (command ++ js " --version");
     mret {| cli_name := name; cli_installed := true;
             cli_version := Some (trim out); cli_installCmd := installCmd |})
    (fun _ =>
       mret {| cli_name := name; cli_installed := false;
               cli_version := None; cli_installCmd := installCmd |}).

(** [process.env.HOME || process.env.USERPROFILE || ""]. *)
Definition homeDir : list Z :=
  or_else (getenv (js "HOME")) (or_else (getenv (js "USERPROFILE")) []).

Definition configs : list (list Z * (list Z * config_type)) :=
  [(js "gemini", (homeDir ++ js "/.gemini/settings.json", json_config));
   (js "claude", (homeDir ++ js "/.claude.json", json_config));
   (js "codex", (homeDir ++ js "/.codex/config.toml", toml_config))].

Definition not_configured : MCPCheck :=
  {| mcp_configured := false; mcp_path := None |}.

(** A name that is no key of [configs] gives [undefined], or a member of
    [Object.prototype] whose [path] is [undefined], for which
    [existsSync] is false: the result is the same. *)
Definition checkMCPConfig (cliName : jsstring) : M MCPCheck :=
  match assoc cliName configs return M MCPCheck with
  | None => mret not_configured
  | Some (path, type) =>
      present ← existsSync E path;
      if (present : bool) then
        try_catch
          (content ← readFileSync E path;
           match type with
           | json_config =>
               json ← lift (JSON.parse content);
               mcpServers ← lift (get_prop json (js "mcpServers"));
               hasMCP ← (if truthy mcpServers then mret mcpServers
                         else lift (get_prop json (js "mcp")));
               mret {| mcp_configured := truthy hasMCP; mcp_path := Some path |}
           | _ => mret {| mcp_configured := true; mcp_path := Some path |}
           end)
          (fun _ => mret not_configured)
      else mret not_configured
  end.

Definition web_check (available : bool) : DashboardCheck :=
  {| dashboard_name := js "chokidar + ws"; dashboard_available := available;
     dashboard_kind := web;
     dashboard_installCmd := if available then None else Some (js "npm install") |}.

Definition checkDashboardDependencies : M (list DashboardCheck) :=
  fswatch ← try_catch
    (_ ← execSync_ignore (js "which fswatch");
     mret {| dashboard_name := js "fswatch"; dashboard_available := true;
             dashboard_kind := terminal; dashboard_installCmd := None |})
    (fun _ =>
       mret {| dashboard_name := js "fswatch"; dashboard_available := false;
               dashboard_kind := terminal;
               dashboard_installCmd :=
                 Some (js "brew install fswatch (macOS) or apt install inotify-tools (Linux)") |});
  let webDashboardPath :=
    Path.join [process_cwd E; js "scripts"; js "dashboard-web"; js "server.js"] in
  present ← existsSync E webDashboardPath;
  if (present : bool) then
    chokidar ← try_catch
      (let nodeModulesPath := Path.join [process_cwd E; js "node_modules"] in
       hasChokidar ← existsSync E (Path.join [nodeModulesPath; js "chokidar"]);
       hasWs ← existsSync E (Path.join [nodeModulesPath; js "ws"]);
       mret (web_check (hasChokidar && hasWs)))
      (fun _ => mret (web_check false));
    mret [fswatch; chokidar]
  else mret [fswatch].

Definition checkSkill (skillsDir : jsstring) (s : skill) : M SkillCheck :=
  let skillPath := Path.join [skillsDir; skill_name s] in
  let skillMdPath := Path.join [skillPath; js "SKILL.md"] in
  installed ← existsSync E skillPath;
  hasSkillMd ← existsSync E skillMdPath;
  mret {| check_name := skill_name s; check_installed := installed;
          check_hasSkillMd := hasSkillMd |}.

Definition checkSkills : M (list SkillCheck) :=
  let skillsDir := Path.join [process_cwd E; js ".agent"; js "skills"] in
  present ← existsSync E skillsDir;
  if negb present then mret []
  else collect allSkills (checkSkill skillsDir).

Definition count {A : Type} (f : A -> bool) (l : list A) : Z :=
  Z.of_nat (length (List.filter f l)).

(** The body of the [try] block of [doctor]; the tables it prints are
    made of strings and cannot throw. *)
Definition doctor_try : M diagnosis :=
  gemini ← checkCLI (js "gemini") (js "gemini")
             (js "npm install -g @anthropic-ai/gemini-cli");
  claude ← checkCLI (js "claude") (js "claude")
             (js "npm install -g @anthropic-ai/claude-code");
  codex ← checkCLI (js "codex") (js "codex") (js "npm install -g @openai/codex");
  qwen ← checkCLI (js "qwen") (js "qwen") (js "pip install qwen-cli");
  let clis := [gemini; claude; codex; qwen] in
  let missingCLIs := List.filter (fun c => negb (cli_installed c)) clis in
  mcpChecks ← collect (List.filter cli_installed clis)
                (fun cli => mcp ← checkMCPConfig (cli_name cli); mret (cli, mcp));
  dashboardChecks ← checkDashboardDependencies;
  skillChecks ← checkSkills;
  let serenaDir := Path.join [process_cwd E; js ".serena"; js "memories"] in
  hasSerena ← existsSync E serenaDir;
  serena ← (if (hasSerena : bool) then
              try_catch (files ← readdirSync serenaDir;
                         mret (SerenaFiles (length files)))
                        (fun _ => mret SerenaUnreadable)
            else mret SerenaMissing);
  let totalIssues :=
    Z.of_nat (length missingCLIs)
    + count (fun c => negb (mcp_configured (snd c))) mcpChecks
    + count (fun d => negb (dashboard_available d)) dashboardChecks
    + (if Nat.eqb (length skillChecks) 0 then 1 else 0) in
  mret {| clis := clis; mcpChecks := mcpChecks;
          dashboardChecks := dashboardChecks; skillChecks := skillChecks;
          serena := serena; totalIssues := totalIssues |}.

Definition doctor : state -> checkup * state :=
  fun st =>
    match doctor_try st with
    | (Return d, st') => (Diagnosed d, st')
    | (Throw e, st') => (CheckFailed e, st')
    end.

End Doctor.

(** * Vocabulary of the statements *)

(** A Unicode scalar value: a code point that is no surrogate. *)
Definition scalar (cp : Z) : Prop :=
  (0 <= cp < 0xD800) \/ (0xE000 <= cp < 0x110000).

(** Well-formed UTF-16: every surrogate is half of a pair. *)
Fixpoint paired (s : list Z) : bool :=
  match s with
  | [] => true
  | c :: rest =>
      if is_high c then
        match rest with
        | d :: rest' => is_low d && paired rest'
        | [] => false
        end
      else negb (is_low c) && paired rest
  end.

(** The decoder is between two bytes of a sequence that can only end on
    a code point below 0x110000. *)
Definition utf8_state_ok (st : option utf8_state) : Prop :=
  match st with
  | None => True
  | Some s =>
      0 <= u8_cp s /\ 0x80 <= u8_lower s /\ u8_upper s <= 0xBF /\
      ((u8_need s = 1 /\ u8_cp s * 64 + 63 < 0x110000) \/
       (u8_need s = 2 /\ (u8_cp s * 64 + (u8_upper s - 0x80)) * 64 + 63 < 0x110000) \/
       (u8_need s = 3 /\
        ((u8_cp s * 64 + (u8_upper s - 0x80)) * 64 + 63) * 64 + 63 < 0x110000))
  end.

(** A token whose string, if it is one, is well formed. *)
Definition token_wf (t : JSON.token) : Prop :=
  match t with
  | JSON.TStr s => wf_str s
  | _ => True
  end.

(** The string under construction is well formed, and so will be the
    code unit of the escape being read. *)
Definition lex_state_ok (st : JSON.lex_state) : Prop :=
  match st with
  | JSON.LStr sacc | JSON.LEsc sacc => wf_str sacc
  | JSON.LHex sacc n v =>
      wf_str sacc /\ 0 <= v /\
      ((n = 1%nat /\ v < 4096) \/ (n = 2%nat /\ v < 256) \/
       (n = 3%nat /\ v < 16) \/ (n = 4%nat /\ v < 1))
  | JSON.LLit _ t => token_wf t
  | _ => True
  end.

(** Every string of a value, keys included, is well formed. *)
Fixpoint wf_value (v : JSValue) : Prop :=
  match v with
  | JString s => wf_str s
  | JArray elems =>
      (fix all (l : list JSValue) : Prop :=
         match l with
         | [] => True
         | x :: l' => wf_value x /\ all l'
         end) elems
  | JObject fields =>
      (fix all (l : list (list Z * JSValue)) : Prop :=
         match l with
         | [] => True
         | (k, x) :: l' => wf_str k /\ wf_value x /\ all l'
         end) fields
  | _ => True
  end.

(** The same for a field, a frame of the parser and its expectation. *)
Definition wf_field (f : list Z * JSValue) : Prop :=
  wf_str (fst f) /\ wf_value (snd f).

Definition frame_wf (f : JSON.frame) : Prop :=
  match f with
  | JSON.FArr acc => Forall wf_value acc
  | JSON.FObj fields => Forall wf_field fields
  | JSON.FKey fields k => Forall wf_field fields /\ wf_str k
  end.

Definition expect_wf (e : JSON.expect) : Prop :=
  match e with
  | JSON.EDone v => wf_value v
  | _ => True
  end.

(** The text [saveLocalVersion] writes for a version. *)
Definition marker (version : JSValue) : list Z :=
  JSON.stringify (JObject [(js "version", version)]).

(** What stands before and after the characters of a version string in
    that text: an opening brace, a line feed, two spaces, the quoted key,
    a colon, a space and a quote; a quote, a line feed and a closing
    brace. *)
Definition marker_open : list Z :=
  [123; 10; 32; 32; 34; 118; 101; 114; 115; 105; 111; 110; 34; 58; 32; 34].

Definition marker_close : list Z := [34; 10; 125].

(** The state a fetch leaves. *)
Definition fetched (url : list Z) (st : state) : state :=
  State (fs st) (trace st ++ [EvFetch url]).

(** The pass is past the comparison of versions and about to transfer
    [items], in state [st1]: the manifest was fetched and holds [version],
    the local version differs from it, and the manifest lists [items]. *)
Definition reaches_transfer (E : env) (st : state) (version : JSValue)
           (items : list JSValue) (st1 : state) : Prop :=
  exists manifest localVersion files text1 text2,
    fetchRemoteManifest E st = (Return manifest, st1) /\
    getLocalVersion E (process_cwd E) st1 = (Return localVersion, st1) /\
    get_prop manifest (js "version") = Return version /\
    strict_eq localVersion version = false /\
    to_string (if truthy localVersion then localVersion
               else JString (js "not installed")) = Return text1 /\
    to_string version = Return text2 /\
    get_prop manifest (js "files") = Return files /\
    iterate files = Return items.

(** The steps the calls of a pool can still take: one more than the
    number of times it may await for a call in flight, [n + 2] for a call
    still to be made. *)
Definition weight {A B : Type} (n : nat) (p : pool A B) : nat :=
  (list_sum (map (fun call => S (projT1 (snd call))) (resolving p))
   + (n + 2) * length (remaining p))%nat.

(** A call each step of which keeps [R] between the tree before and the
    tree after, and whose value, if it returns one, satisfies [P]. *)
Fixpoint lawful (R : gmap (list (list Z)) node -> gmap (list (list Z)) node -> Prop)
         {B : Type} (P : B -> Prop) (n : nat) : task n B -> Prop :=
  match n with
  | O => fun b => P b
  | S m => fun t =>
      match t with
      | inl b => P b
      | inr resume =>
          forall st r st', resume st = (r, st') ->
            R (fs st) (fs st') /\
            match r with Return t' => lawful R P m t' | Throw _ => True end
      end
  end.

Definition lawful_call (R : gmap (list (list Z)) node -> gmap (list (list Z)) node -> Prop)
           {B : Type} (P : B -> Prop) (call : suspended B) : Prop :=
  forall st r st', projT2 call st = (r, st') ->
    R (fs st) (fs st') /\
    match r with Return t => lawful R P (projT1 call) t | Throw _ => True end.

(** A call that cannot return: it throws at its next step or at a later
    one, whatever the state it goes on in. *)
Fixpoint doomed {B : Type} (n : nat) : task n B -> Prop :=
  match n with
  | O => fun _ => False
  | S m => fun t =>
      match t with
      | inl _ => False
      | inr resume =>
          forall st, match resume st with
                     | (Return t', _) => doomed m t'
                     | (Throw _, _) => True
                     end
      end
  end.

Definition doomed_call {B : Type} (call : suspended B) : Prop :=
  forall st, match projT2 call st with
             | (Return t, _) => doomed (projT1 call) t
             | (Throw _, _) => True
             end.

(** A call that can throw [e], at its next step or at a later one. *)
Fixpoint raises {B : Type} (e : exn) (n : nat) : task n B -> Prop :=
  match n with
  | O => fun _ => False
  | S m => fun t =>
      match t with
      | inl _ => False
      | inr resume =>
          exists st, match resume st with
                     | (Return t', _) => raises e m t'
                     | (Throw e', _) => e' = e
                     end
      end
  end.

Definition raises_call {B : Type} (e : exn) (call : suspended B) : Prop :=
  exists st, match projT2 call st with
             | (Return t, _) => raises e (projT1 call) t
             | (Throw e', _) => e' = e
             end.

(** The transfer units of a pass: [pMap(remoteManifest.files, async
    (file) => downloadFile(file), { concurrency: 10 })]. *)
Definition units (E : env) (items : list JSValue) : M (list outcome) :=
  pMap 10 (downloadFile_async E) (order E) items.

(** The rest of [update_try] from there. *)
Definition transfer (E : env) (version : JSValue) (items : list JSValue)
  : M report :=
  results ← units E items;
  _ ← array_map (fun f => lift (to_string (o_path f))) (failures results);
  _ ← saveLocalVersion E (process_cwd E) version;
  mret (Updated results).

(** The outcome of a unit whose digests differ. *)
Definition mismatch (path : JSValue) : outcome :=
  Outcome path false (Some (js "SHA256 mismatch")).

(** An outcome that belongs to a file of the manifest: [downloadFile]
    returns it for the file, from some state; it carries the [path] of
    the file, which prints; the request for the file was answered; and
    the outcome is the failure [HTTP] and the status when the status is
    no success, a success or a mismatch when it is. *)
Definition outcome_of (E : env) (file : JSValue) (o : outcome) : Prop :=
  (exists st st', downloadFile E file st = (Return o, st')) /\
  get_prop file (js "path") = Return (o_path o) /\
  exists ptext,
    to_string (o_path o) = Return ptext /\
    match net E (file_url ptext) with
    | NetworkError => False
    | Response status body =>
        if ok (status, body) then
          o = Outcome (o_path o) true None \/ o = mismatch (o_path o)
        else o = Outcome (o_path o) false (Some (js "HTTP " ++ dec_digits status))
    end.

(** The last part of [downloadFile], after the digests were found equal. *)
Definition install (E : env) (path : JSValue) (content : list Z) : M outcome :=
  targetPath ← join_value (process_cwd E) path;
  present ← existsSync E (Path.dirname targetPath);
  _ ← (if negb present then mkdirSync E (Path.dirname targetPath) else mret tt);
  _ ← writeFileSync E targetPath content;
  mret (Outcome path true None).

(** Upper case of a hexadecimal string. *)
Definition upper (s : list Z) : list Z :=
  map (fun c => if (97 <=? c) && (c <=? 102) then c - 32 else c) s.

(** The test [actualSHA256 !== manifestFile.sha256] of [downloadFile],
    negated: the digest of the response text against the declared hash. *)
Definition verify (body : list byte) (expected : JSValue) : bool :=
  strict_eq (JString (calculateSHA256 (utf8_decode_bom body))) expected.

(** Equality of two hexadecimal strings up to the case of their letters. *)
Definition same_hex (a b : list Z) : Prop := upper a = upper b.

(** What [fetchRemoteManifest] makes of the answer of the network. *)
Definition manifest_answer (E : env) : result JSValue :=
  match net E manifest_url with
  | NetworkError => Throw TypeError
  | Response status body =>
      if ok (status, body) then
        match body with
        | Some b => JSON.parse (utf8_decode_bom b)
        | None => Throw TypeError
        end
      else Throw (Error "Failed to fetch remote manifest")
  end.

(** The [version] field of the marker file, when the file is there, can
    be read and holds a JSON object with such a field. *)
Definition stored_version (E : env) (dir : list Z) (st : state)
  : option JSValue :=
  if FS.exists_path (cwd E) (fs st) (version_file dir) then
    match FS.read_file (cwd E) (fs st) (version_file dir) with
    | Return c =>
        match JSON.parse (utf8_decode c) with
        | Return (JObject fields) => lookup_field (js "version") fields
        | _ => None
        end
    | Throw _ => None
    end
  else None.

(** A digit of lower-case hexadecimal: [0] to [9] or [a] to [f]. *)
Definition lower_hex (c : Z) : Prop := 48 <= c <= 57 \/ 97 <= c <= 102.

(** Nothing was removed between two trees: a directory is still a
    directory, and a regular file is still a regular file, whatever it
    holds. *)
Definition grows (t t' : gmap (list (list Z)) node) : Prop :=
  forall k,
    match t !! k with
    | Some Dir => t' !! k = Some Dir
    | Some (File _) => exists c, t' !! k = Some (File c)
    | None => True
    end.

(** A computation that does not look at the trace: from two states with
    the same tree it ends in the same way and leaves the same tree. *)
Definition traceless {A : Type} (m : M A) : Prop :=
  forall st st', fs st = fs st' ->
    fst (m st) = fst (m st') /\ fs (snd (m st)) = fs (snd (m st')).

(** The relation that holds between any two trees. *)
Definition any (t t' : gmap (list (list Z)) node) : Prop := True.

(** However a computation ends, the tree it leaves is related by [R] to
    the tree it started from. *)
Definition preserves (R : gmap (list (list Z)) node -> gmap (list (list Z)) node -> Prop)
           {A : Type} (m : M A) : Prop :=
  forall st r st', m st = (r, st') -> R (fs st) (fs st').

(** Whether the network answers a request with a success status. *)
Definition answered_ok (network : list Z -> fetch_result) (url : list Z) : bool :=
  match network url with
  | NetworkError => false
  | Response status body => ok (status, body)
  end.

(** A segment that names an entry of a directory: it is not empty, is
    neither [.] nor [..], and holds no slash. *)
Definition is_plain (seg : list Z) : bool :=
  negb (str_eqb seg []) && negb (str_eqb seg (js ".")) &&
  negb (str_eqb seg (js "..")) && forallb (fun c => negb (c =? Path.slash)) seg.

(** The segments of the parts of a path, one part after the other. *)
Definition segments (parts : list (list Z)) : list (list Z) :=
  flat_map (fun part => Path.split part []) parts.

(** A segment that normalisation keeps: it is not empty, is not [.],
    holds no slash and, in an absolute path, is not [..]. *)
Definition kept (above : bool) (seg : list Z) : Prop :=
  str_eqb seg [] || str_eqb seg (js ".") = false /\
  Forall (fun c => c <> Path.slash) seg /\
  (above = false -> str_eqb seg (js "..") = false).

(** The segments from which a relative path is resolved. *)
Definition start_of (wd p : list Z) : list (list Z) :=
  if Path.is_absolute p then [] else rev (FS.walk (Path.split wd []) []).

(** A computation that leaves the state as it is, however it ends. *)
Definition inert {A : Type} (m : M A) : Prop :=
  forall st, exists r, m st = (r, st).

(** A computation that returns and leaves the state as it is. *)
Definition reads {A : Type} (m : M A) : Prop :=
  forall st, exists a, m st = (Return a, st).

(** What the registry has for a file the installer asks for: [Some] of
    the bytes to install, which are the text of an answer with a success
    status, or [None] for an answer with another status. *)
Definition served (E : env) (url : list Z) (found : option (list byte)) : Prop :=
  exists status body,
    net E url = Response status body /\
    match found with
    | Some c =>
        ok (status, body) = true /\
        exists b, body = Some b /\ c = utf8_encode (utf8_decode_bom b)
    | None => ok (status, body) = false
    end.

(** A relative path made of names of entries, such as
    [resources/checklist.md]. *)
Definition names_entries (file : list Z) : bool :=
  negb (str_eqb file []) && forallb is_plain (segments [file]).

(** Between two trees, nothing has changed outside the directory at
    [pre], but for directories that were created there. *)
Definition confined (pre : list (list Z)) (t t' : gmap (list (list Z)) node) : Prop :=
  forall k, ~ (pre `prefix_of` k) ->
            t' !! k = t !! k \/ (t !! k = None /\ t' !! k = Some Dir).

(** The path at which the installer puts a file of a skill, or of the
    shared files, whose directory is then [_shared]. *)
Definition target (E : env) (name file : list Z) : list Z :=
  Path.join [Path.join [process_cwd E; js ".agent"; js "skills"; name]; file].

(** A file that the registry answers for with a success status holds the
    text of that answer. *)
Definition in_place (E : env) (st : state) (name file : list Z) : Prop :=
  forall c, served E (skill_url name file) (Some c) ->
            FS.read_file (cwd E) (fs st) (target E name file) = Return c.

(** * Concrete worlds *)

Module World.

(** A network that answers from a table of URLs, and 404 elsewhere. *)
Definition serve (table : list (list Z * fetch_result)) (url : list Z)
  : fetch_result :=
  match List.find (fun entry => str_eqb (fst entry) url) table with
  | Some entry => snd entry
  | None => Response 404 (Some [])
  end.

Definition home : list Z := js "/home/dev".

(** A file system with the working directory and nothing in it. *)
Definition fresh : state :=
  State (list_to_map [([js "home"], Dir); ([js "home"; js "dev"], Dir)]) [].

Definition entry (path sha256 : list Z) : JSValue :=
  JObject [(js "path", JString path); (js "sha256", JString sha256);
           (js "size", JNumber (double_of_decimal false 2 0))].

Definition manifest (version : list Z) (files : list JSValue) : JSValue :=
  JObject [(js "name", JString (js "oh-my-antigravity"));
           (js "version", JString version);
           (js "files", JArray files)].

Definition body_of (v : JSValue) : fetch_result :=
  Response 200 (Some (utf8_encode (JSON.stringify v))).

Definition hi : list byte := utf8_encode (js "hi").

Definition sha_hi : list Z :=
  js "8f434346648f6b96df89dda901c5176b10a6d83961dd3c1ac88b59b2dc327aa4".

End World.

(** A file served with a byte order mark before its content. *)
Module Bom.

Definition network : list Z -> fetch_result :=
  World.serve [(file_url (js "a.md"),
                Response 200 (Some (xef :: xbb :: xbf :: World.hi)))].

Definition E : env := Env World.home network [].

Definition file : JSValue := World.entry (js "a.md") World.sha_hi.

End Bom.

(** A file served as it is, and declared with another hash. *)
Module Plain.

Definition network : list Z -> fetch_result :=
  World.serve [(file_url (js "a.md"), Response 200 (Some World.hi))].

Definition E : env := Env World.home network [].

Definition file : JSValue := World.entry (js "a.md") (js "00").

End Plain.

(** A file served as it is, and declared with its hash in upper case. *)
Module Upper.

Definition network : list Z -> fetch_result :=
  World.serve [(file_url (js "a.md"), Response 200 (Some World.hi))].

Definition E : env := Env World.home network [].

Definition declared : list Z := upper World.sha_hi.

Definition file : JSValue := World.entry (js "a.md") declared.

End Upper.

(** A file whose content is one byte that is not UTF-8. *)
Module Invalid.

Definition network : list Z -> fetch_result :=
  World.serve [(file_url (js "a.md"), Response 200 (Some [xff]))].

Definition E : env := Env World.home network [].

(** The UTF-8 encoding of U+FFFD, and its digest. *)
Definition replacement : list byte := [xef; xbf; xbd].

Definition declared : list Z := hex (SHA256.digest replacement).

Definition file : JSValue := World.entry (js "a.md") declared.

End Invalid.

(** A registry whose manifest is the empty object. *)
Module EmptyObject.

Definition network : list Z -> fetch_result :=
  World.serve [(manifest_url, Response 200 (Some (utf8_encode (js "{}"))))].

Definition E : env := Env World.home network [].

End EmptyObject.

(** A working directory whose marker file holds an empty version. *)
Module Stored.

Definition E : env := Env World.home (World.serve []) [].

(** A tree whose marker file holds an empty version string. *)
Definition tree : gmap (list (list Z)) node :=
  list_to_map
    [([js "home"], Dir);
     ([js "home"; js "dev"], Dir);
     ([js "home"; js "dev"; js ".agent"], Dir);
     ([js "home"; js "dev"; js ".agent"; js "skills"], Dir);
     ([js "home"; js "dev"; js ".agent"; js "skills"; js "_version.json"],
      File (utf8_encode (marker (JString []))))].

Definition st : state := State tree [].

End Stored.

(** A manifest whose version is the empty string, with one file that the
    registry does not have. *)
Module EmptyVersion.

Definition network : list Z -> fetch_result :=
  World.serve [(manifest_url,
                World.body_of (World.manifest [] [World.entry (js "a.md") World.sha_hi]))].

Definition E : env := Env World.home network [].

Definition missing : outcome :=
  Outcome (JString (js "a.md")) false (Some (js "HTTP 404")).

End EmptyVersion.

(** Release 1.2.0 with three files: the first is served as declared, the
    second is served with other content than declared, the third is not
    served. *)
Module Release.

Definition items : list JSValue :=
  [World.entry (js "docs/a.md") World.sha_hi;
   World.entry (js "b.md") (js "00");
   World.entry (js "c.md") World.sha_hi].

Definition manifest : JSValue := World.manifest (js "1.2.0") items.

Definition network : list Z -> fetch_result :=
  World.serve
    [(manifest_url, World.body_of manifest);
     (file_url (js "docs/a.md"), Response 200 (Some World.hi));
     (file_url (js "b.md"), Response 200 (Some World.hi))].

Definition E : env := Env World.home network [].

Definition results : list outcome :=
  [Outcome (JString (js "docs/a.md")) true None;
   Outcome (JString (js "b.md")) false (Some (js "SHA256 mismatch"));
   Outcome (JString (js "c.md")) false (Some (js "HTTP 404"))].

(** The states of a first run: after the fetch of the manifest, after
    the three units, and at its end. *)
Definition started : state := fetched manifest_url World.fresh.


Definition after : state := snd (update E World.fresh).

End Release.

(** A registry that serves the manifest and is out of reach for its only
    file. *)
Module Outage.

Definition items : list JSValue := [World.entry (js "a.md") World.sha_hi].

Definition network : list Z -> fetch_result :=
  World.serve
    [(manifest_url, World.body_of (World.manifest (js "1.2.0") items));
     (file_url (js "a.md"), NetworkError)].

Definition E : env := Env World.home network [].

Definition started : state := fetched manifest_url World.fresh.

Definition ended : state := snd (update E World.fresh).

End Outage.

(** Release 1.2.0 with one file, to be written below [d], which is a
    regular file of the working directory. *)
Module Blocked.

Definition items : list JSValue := [World.entry (js "d/x.md") World.sha_hi].

Definition network : list Z -> fetch_result :=
  World.serve
    [(manifest_url, World.body_of (World.manifest (js "1.2.0") items));
     (file_url (js "d/x.md"), Response 200 (Some World.hi))].

Definition E : env := Env World.home network [].

Definition st : state :=
  State (list_to_map [([js "home"], Dir); ([js "home"; js "dev"], Dir);
                      ([js "home"; js "dev"; js "d"], File [])]) [].

Definition started : state := fetched manifest_url st.

End Blocked.

(** Release 1.2.0 with two files: the registry is out of reach for the
    first and serves the second, whose answers come first. *)
Module Race.

Definition items : list JSValue :=
  [World.entry (js "a.md") World.sha_hi; World.entry (js "b.md") World.sha_hi].

Definition network : list Z -> fetch_result :=
  World.serve
    [(manifest_url, World.body_of (World.manifest (js "1.2.0") items));
     (file_url (js "a.md"), NetworkError);
     (file_url (js "b.md"), Response 200 (Some World.hi))].

Definition E : env := Env World.home network [0; 0; 1; 1; 0]%nat.

Definition started : state := fetched manifest_url World.fresh.

Definition ended : state := snd (units E items started).

End Race.

(** A registry that has one shared file and, of the skill [commit], its
    [SKILL.md] and one resource file. *)
Module Registry.

Definition network : list Z -> fetch_result :=
  World.serve
    [(shared_url (js "context-loading.md"), Response 200 (Some World.hi));
     (skill_url (js "commit") (js "SKILL.md"), Response 200 (Some World.hi));
     (skill_url (js "commit") (js "resources/checklist.md"),
      Response 200 (Some World.hi))].

Definition head : list Z -> fetch_result :=
  World.serve
    [(skill_url (js "commit") (js "resources/checklist.md"), Response 200 (Some []))].

Definition E : env := Env World.home network [].

(** The state after the skill [commit] was installed in an empty working
    directory. *)
Definition installed : state :=
  snd (installSkill E head (js "commit") World.home World.fresh).

End Registry.

(** A working directory with a skill that has its [SKILL.md] and a skill
    that has not. *)
Module Skilled.

Definition tree : gmap (list (list Z)) node :=
  list_to_map
    [([js "home"], Dir);
     ([js "home"; js "dev"], Dir);
     ([js "home"; js "dev"; js ".agent"], Dir);
     ([js "home"; js "dev"; js ".agent"; js "skills"], Dir);
     ([js "home"; js "dev"; js ".agent"; js "skills"; js "commit"], Dir);
     ([js "home"; js "dev"; js ".agent"; js "skills"; js "commit"; js "SKILL.md"],
      File World.hi);
     ([js "home"; js "dev"; js ".agent"; js "skills"; js "qa-agent"], Dir)].

Definition st : state := State tree [].

End Skilled.

(** A machine on which only [gemini] is installed, with a configuration
    of its servers. *)
Module Machine.

Definition exec (command : list Z) : option (list byte) :=
  if str_eqb command (js "gemini --version")
  then Some (utf8_encode (js " 0.1.5" ++ [10]))
  else None.

Definition getenv (name : list Z) : option (list Z) :=
  if str_eqb name (js "HOME") then Some (js "/home/dev") else None.

Definition tree : gmap (list (list Z)) node :=
  list_to_map
    [([js "home"], Dir);
     ([js "home"; js "dev"], Dir);
     ([js "home"; js "dev"; js ".gemini"], Dir);
     ([js "home"; js "dev"; js ".gemini"; js "settings.json"],
      File (utf8_encode (JSON.stringify (JObject [(js "mcpServers", JObject [])]))))].

Definition st : state := State tree [].

End Machine.

(** * Properties *)

(** ** Bytes *)

Lemma b2z_range (b : byte) : 0 <= b2z b < 256.
Proof.
  unfold b2z. pose proof (Byte.to_N_bounded b) as H. lia.
Qed.

Lemma b2z_z2b (z : Z) : 0 <= z < 256 -> b2z (z2b z) = z.
Proof.
  intros Hz. unfold b2z, z2b. rewrite Z.mod_small by lia.
  destruct (Byte.of_N (Z.to_N z)) as [b|] eqn:Hb.
  - apply Byte.to_of_N in Hb. rewrite Hb. lia.
  - apply Byte.of_N_None_iff in Hb. lia.
Qed.

(** Decides the comparisons of a goal from the linear facts at hand. *)
Ltac decide_cmp :=
  repeat match goal with
  | |- context [?a <=? ?b] =>
      first [ rewrite (proj2 (Z.leb_le a b)) by (Z.div_mod_to_equations; lia)
            | rewrite (proj2 (Z.leb_gt a b)) by (Z.div_mod_to_equations; lia) ]
  | |- context [?a <? ?b] =>
      first [ rewrite (proj2 (Z.ltb_lt a b)) by (Z.div_mod_to_equations; lia)
            | rewrite (proj2 (Z.ltb_ge a b)) by (Z.div_mod_to_equations; lia) ]
  | |- context [?a =? ?b] =>
      first [ rewrite (proj2 (Z.eqb_eq a b)) by (Z.div_mod_to_equations; lia)
            | rewrite (proj2 (Z.eqb_neq a b)) by (Z.div_mod_to_equations; lia) ]
  end.

(** ** UTF-8 *)

Lemma utf8_run_cp (cp : Z) (rest : list byte) :
  scalar cp -> utf8_run None (utf8_of_cp cp ++ rest) = cp :: utf8_run None rest.
Proof.
  intros Hcp. unfold scalar in Hcp. unfold utf8_of_cp.
  destruct (Z.ltb_spec cp 0x80); [|destruct (Z.ltb_spec cp 0x800);
    [|destruct (Z.ltb_spec cp 0x10000)]].
  - cbn [app utf8_run]. rewrite b2z_z2b by (destruct Hcp; lia).
    unfold utf8_lead. decide_cmp. reflexivity.
  - cbn [app utf8_run].
    rewrite !b2z_z2b by (Z.div_mod_to_equations; lia).
    unfold utf8_lead. decide_cmp. cbn [andb app u8_lower u8_upper u8_need u8_cp].
    decide_cmp. cbn [andb]. f_equal. Z.div_mod_to_equations; lia.
  - cbn [app utf8_run].
    rewrite !b2z_z2b by (Z.div_mod_to_equations; lia).
    unfold utf8_lead. decide_cmp. cbn [andb app u8_lower u8_upper u8_need u8_cp].
    destruct (Z.eqb_spec (224 + cp / 4096) 224);
      destruct (Z.eqb_spec (224 + cp / 4096) 237);
      decide_cmp; cbn [andb app u8_lower u8_upper u8_need u8_cp]; decide_cmp;
      cbn [andb]; try (f_equal; Z.div_mod_to_equations; lia).
      all: exfalso; Z.div_mod_to_equations; lia.
  - cbn [app utf8_run].
    rewrite !b2z_z2b by (destruct Hcp; Z.div_mod_to_equations; lia).
    unfold utf8_lead.
    assert (0x10000 <= cp < 0x110000) by (destruct Hcp; lia).
    decide_cmp. cbn [andb app u8_lower u8_upper u8_need u8_cp].
    destruct (Z.eqb_spec (240 + cp / 262144) 240);
      destruct (Z.eqb_spec (240 + cp / 262144) 244);
      decide_cmp; cbn [andb app u8_lower u8_upper u8_need u8_cp]; decide_cmp;
      cbn [andb app u8_lower u8_upper u8_need u8_cp]; decide_cmp; cbn [andb];
      try (f_equal; Z.div_mod_to_equations; lia);
      exfalso; Z.div_mod_to_equations; lia.
Qed.

Lemma utf8_run_encode (cps : list Z) :
  Forall scalar cps -> utf8_run None (flat_map utf8_of_cp cps) = cps.
Proof.
  induction 1 as [|cp cps Hcp _ IH]; [reflexivity|].
  cbn [flat_map]. rewrite utf8_run_cp by assumption. by rewrite IH.
Qed.

(** Induction over a string one or two code units at a time, as the
    functions that pair surrogates recurse. *)
Lemma pair_ind (P : list Z -> Prop) :
  P [] ->
  (forall c rest, P rest -> (forall d rest', rest = d :: rest' -> P rest') ->
                  P (c :: rest)) ->
  forall s, P s.
Proof.
  intros Hnil Hcons s.
  enough (P s /\ (forall d r, s = d :: r -> P r)) by tauto.
  induction s as [|c rest [IH1 IH2]].
  - split; [assumption | discriminate].
  - split; [by apply Hcons|]. intros d r [= _ <-]. assumption.
Qed.

Lemma is_high_spec (c : Z) : is_high c = true <-> 0xD800 <= c <= 0xDBFF.
Proof. unfold is_high. lia. Qed.

Lemma is_low_spec (c : Z) : is_low c = true <-> 0xDC00 <= c <= 0xDFFF.
Proof. unfold is_low. lia. Qed.

Lemma code_points_scalar (s : list Z) : wf_str s -> Forall scalar (code_points s).
Proof.
  induction s as [|c rest IH IH2] using pair_ind; intros Hwf; [constructor|].
  apply Forall_cons in Hwf as [Hc Hrest]. unfold wf_unit in Hc.
  cbn [code_points].
  destruct (is_high c) eqn:Hh.
  - apply is_high_spec in Hh. destruct rest as [|d rest'].
    + constructor; [unfold scalar; lia | constructor].
    + destruct (is_low d) eqn:Hl.
      * apply is_low_spec in Hl. constructor; [unfold scalar; lia|].
        apply (IH2 d rest' eq_refl). by apply Forall_cons in Hrest as [_ ?].
      * constructor; [unfold scalar; lia | by apply IH].
  - assert (~ 0xD800 <= c <= 0xDBFF) by (rewrite <- is_high_spec; congruence).
    destruct (is_low c) eqn:Hl.
    + constructor; [unfold scalar; lia | by apply IH].
    + assert (~ 0xDC00 <= c <= 0xDFFF) by (rewrite <- is_low_spec; congruence).
      constructor; [unfold scalar; lia | by apply IH].
Qed.

Lemma utf16_code_points (s : list Z) :
  wf_str s -> paired s = true -> flat_map utf16_of_cp (code_points s) = s.
Proof.
  induction s as [|c rest IH IH2] using pair_ind; intros Hwf Hp; [reflexivity|].
  apply Forall_cons in Hwf as [Hc Hrest]. unfold wf_unit in Hc.
  cbn [code_points paired] in *.
  destruct (is_high c) eqn:Hh.
  - apply is_high_spec in Hh. destruct rest as [|d rest']; [discriminate|].
    apply andb_true_iff in Hp as [Hl Hp]. rewrite Hl.
    apply is_low_spec in Hl. apply Forall_cons in Hrest as [_ Hrest].
    cbn [flat_map]. rewrite (IH2 d rest' eq_refl) by assumption.
    unfold utf16_of_cp. decide_cmp. cbn [app].
    f_equal; [|f_equal]; Z.div_mod_to_equations; lia.
  - apply andb_true_iff in Hp as [Hl Hp]. apply negb_true_iff in Hl. rewrite Hl.
    cbn [flat_map]. rewrite IH by assumption.
    unfold utf16_of_cp. decide_cmp. reflexivity.
Qed.

(** Encoding a well-formed string as UTF-8 and decoding it gives the
    string back. *)
Lemma utf8_roundtrip (s : list Z) :
  wf_str s -> paired s = true -> utf8_decode (utf8_encode s) = s.
Proof.
  intros Hwf Hp. unfold utf8_decode, utf8_encode.
  rewrite utf8_run_encode by by apply code_points_scalar.
  by apply utf16_code_points.
Qed.

Lemma paired_app (a b : list Z) :
  paired a = true -> paired b = true -> paired (a ++ b) = true.
Proof.
  induction a as [|c rest IH IH2] using pair_ind; intros Ha Hb; [assumption|].
  cbn [paired app] in *. destruct (is_high c).
  - destruct rest as [|d rest']; [discriminate|]. cbn [app].
    apply andb_true_iff in Ha as [-> Ha]. cbn [andb].
    by apply (IH2 d rest' eq_refl).
  - apply andb_true_iff in Ha as [-> Ha]. cbn [andb]. by apply IH.
Qed.

(** ** JSON strings *)

Lemma hex_val_hex_digit (d : Z) :
  0 <= d < 16 -> JSON.hex_val (hex_digit d) = Some d.
Proof.
  intros Hd. unfold JSON.hex_val, JSON.is_digit, hex_digit.
  destruct (Z.ltb_spec d 10); decide_cmp; cbn [andb]; f_equal; lia.
Qed.

Lemma rev_cons_app (c : Z) (sacc r : list Z) :
  rev (c :: sacc) ++ r = rev sacc ++ c :: r.
Proof. cbn [rev]. by rewrite <- app_assoc. Qed.

Lemma lex_unicode_escape (c : Z) sacc acc rest :
  wf_unit c ->
  JSON.lex (JSON.LStr sacc) acc (JSON.unicode_escape c ++ rest)
  = JSON.lex (JSON.LStr (c :: sacc)) acc rest.
Proof.
  unfold wf_unit. intros Hc. unfold JSON.unicode_escape, JSON.hex4.
  cbn [js list_ascii_of_string map app JSON.lex N_of_ascii N.add N.mul Z.of_N
       Pos.add Pos.mul Pos.succ].
  change (92 =? 34) with false. change (92 =? 92) with true.
  change (117 =? 117) with true. cbv iota.
  rewrite !hex_val_hex_digit by (Z.div_mod_to_equations; lia).
  do 2 f_equal. f_equal. Z.div_mod_to_equations; lia.
Qed.

Lemma lex_quote_body (v : list Z) :
  wf_str v ->
  forall sacc acc rest,
    JSON.lex (JSON.LStr sacc) acc (JSON.quote_body v ++ 34 :: rest)
    = JSON.lex JSON.LStart (JSON.TStr (rev sacc ++ v) :: acc) rest.
Proof.
  induction v as [|c v IH IH2] using pair_ind; intros Hwf sacc acc rest.
  { cbn. by rewrite app_nil_r. }
  apply Forall_cons in Hwf as [Hc Hv].
  assert (Hstep : forall r,
    JSON.lex (JSON.LStr (c :: sacc)) acc (JSON.quote_body v ++ 34 :: r)
    = JSON.lex JSON.LStart (JSON.TStr (rev sacc ++ c :: v) :: acc) r).
  { intros r. rewrite IH by assumption. by rewrite rev_cons_app. }
  cbn [JSON.quote_body].
  destruct (Z.eqb_spec c 8) as [->|]; [apply Hstep|].
  destruct (Z.eqb_spec c 9) as [->|]; [apply Hstep|].
  destruct (Z.eqb_spec c 10) as [->|]; [apply Hstep|].
  destruct (Z.eqb_spec c 12) as [->|]; [apply Hstep|].
  destruct (Z.eqb_spec c 13) as [->|]; [apply Hstep|].
  destruct (Z.eqb_spec c 34) as [->|]; [apply Hstep|].
  destruct (Z.eqb_spec c 92) as [->|]; [apply Hstep|].
  destruct (Z.ltb_spec c 32).
  { rewrite <- app_assoc, lex_unicode_escape by assumption. apply Hstep. }
  assert (Hraw : forall s a r, JSON.lex (JSON.LStr s) a (c :: r)
                               = JSON.lex (JSON.LStr (c :: s)) a r).
  { intros s a r. cbn [JSON.lex]. by decide_cmp. }
  destruct (is_high c) eqn:Hh.
  - destruct v as [|d v'].
    + rewrite lex_unicode_escape by assumption. apply (Hstep rest).
    + destruct (is_low d) eqn:Hl.
      * cbn [app]. rewrite Hraw. apply is_low_spec in Hl.
        cbn [JSON.lex]. decide_cmp.
        apply Forall_cons in Hv as [_ Hv].
        rewrite (IH2 d v' eq_refl) by assumption.
        by rewrite !rev_cons_app.
      * rewrite <- app_assoc, lex_unicode_escape by assumption. apply Hstep.
  - destruct (is_low c) eqn:Hl.
    + rewrite <- app_assoc, lex_unicode_escape by assumption. apply Hstep.
    + cbn [app]. rewrite Hraw. apply Hstep.
Qed.

Lemma paired_cons (c : Z) (s : list Z) :
  0 <= c < 0xD800 -> paired (c :: s) = paired s.
Proof.
  intros Hc. cbn [paired]. unfold is_high, is_low. by decide_cmp.
Qed.

Lemma hex_digit_range (d : Z) : 0 <= d < 16 -> 48 <= hex_digit d <= 102.
Proof. intros Hd. unfold hex_digit. destruct (Z.ltb_spec d 10); lia. Qed.

Lemma unicode_escape_wf (c : Z) : wf_unit c -> wf_str (JSON.unicode_escape c).
Proof.
  unfold wf_unit. intros Hc. unfold JSON.unicode_escape, JSON.hex4, wf_str.
  repeat (apply Forall_cons; split); try apply Forall_nil; unfold wf_unit;
    try (cbn; lia);
    match goal with
    | |- _ <= hex_digit ?d < _ =>
        pose proof (hex_digit_range d ltac:(Z.div_mod_to_equations; lia)); lia
    end.
Qed.

Lemma unicode_escape_paired (c : Z) (s : list Z) :
  wf_unit c -> paired (JSON.unicode_escape c ++ s) = paired s.
Proof.
  unfold wf_unit. intros Hc. unfold JSON.unicode_escape, JSON.hex4.
  cbn [js list_ascii_of_string map app].
  rewrite !paired_cons; [reflexivity|..]; try (cbn; lia);
    match goal with
    | |- _ <= hex_digit ?d < _ =>
        pose proof (hex_digit_range d ltac:(Z.div_mod_to_equations; lia)); lia
    end.
Qed.

Lemma quote_body_wf (v : list Z) : wf_str v -> wf_str (JSON.quote_body v).
Proof.
  unfold wf_str.
  induction v as [|c v IH IH2] using pair_ind; intros Hwf; [constructor|].
  apply Forall_cons in Hwf as [Hc Hv]. specialize (IH Hv).
  assert (Hesc : Forall wf_unit (JSON.unicode_escape c ++ JSON.quote_body v))
    by (apply Forall_app; split; [by apply unicode_escape_wf | assumption]).
  assert (Hshort : forall e, 0 <= e < 128 ->
            Forall wf_unit (92 :: e :: JSON.quote_body v)).
  { intros e He. repeat (apply Forall_cons; split); try assumption;
      unfold wf_unit; lia. }
  cbn [JSON.quote_body].
  repeat match goal with
  | |- Forall _ (if ?c =? ?k then _ else _) =>
      destruct (Z.eqb_spec c k); [by apply Hshort|]
  end.
  destruct (c <? 32); [assumption|].
  destruct (is_high c).
  - destruct v as [|d v']; [by apply unicode_escape_wf|].
    destruct (is_low d); [|assumption].
    apply Forall_cons in Hv as [Hd Hv].
    repeat (apply Forall_cons; split); try assumption.
    by apply (IH2 d v' eq_refl).
  - destruct (is_low c); [assumption|]. by apply Forall_cons.
Qed.

Lemma quote_body_paired (v : list Z) :
  wf_str v -> paired (JSON.quote_body v) = true.
Proof.
  induction v as [|c v IH IH2] using pair_ind; intros Hwf; [reflexivity|].
  apply Forall_cons in Hwf as [Hc Hv]. specialize (IH Hv).
  assert (Hesc : paired (JSON.unicode_escape c ++ JSON.quote_body v) = true)
    by by rewrite unicode_escape_paired.
  cbn [JSON.quote_body].
  repeat match goal with
  | |- paired (if ?c =? ?k then _ else _) = true =>
      destruct (Z.eqb_spec c k); [assumption|]
  end.
  destruct (c <? 32); [assumption|].
  destruct (is_high c) eqn:Hh.
  - destruct v as [|d v'].
    + rewrite <- (app_nil_r (JSON.unicode_escape c)).
      by rewrite unicode_escape_paired.
    + destruct (is_low d) eqn:Hl; [|assumption].
      cbn [paired]. rewrite Hh, Hl. cbn [andb].
      apply Forall_cons in Hv as [_ Hv]. by apply (IH2 d v' eq_refl).
  - destruct (is_low c) eqn:Hl; [assumption|].
    cbn [paired]. by rewrite Hh, Hl.
Qed.

(** *** The text of the version marker *)

Lemma marker_string (v : list Z) :
  marker (JString v) = marker_open ++ JSON.quote_body v ++ marker_close.
Proof.
  transitivity (marker_open ++ (JSON.quote_body v ++ [34]) ++ [10; 125]).
  - reflexivity.
  - by rewrite <- app_assoc.
Qed.

Lemma marker_wf (v : list Z) : wf_str v -> wf_str (marker (JString v)).
Proof.
  intros Hv. rewrite marker_string. unfold wf_str.
  apply Forall_app; split; [|apply Forall_app; split].
  - unfold marker_open. repeat (apply Forall_cons; split);
      try apply Forall_nil; unfold wf_unit; lia.
  - by apply quote_body_wf.
  - unfold marker_close. repeat (apply Forall_cons; split);
      try apply Forall_nil; unfold wf_unit; lia.
Qed.

Lemma marker_paired (v : list Z) : wf_str v -> paired (marker (JString v)) = true.
Proof.
  intros Hv. rewrite marker_string.
  apply paired_app; [reflexivity|].
  apply paired_app; [by apply quote_body_paired | reflexivity].
Qed.

(** The marker written for a version string parses back to an object
    whose only field is that string. *)
Lemma parse_marker (v : list Z) :
  wf_str v ->
  JSON.parse (marker (JString v)) = Return (JObject [(js "version", JString v)]).
Proof.
  intros Hv. rewrite marker_string. unfold JSON.parse, marker_open, marker_close.
  cbn [app].
  change (JSON.lex JSON.LStart [] (123 :: 10 :: 32 :: 32 :: 34 :: 118 :: 101 ::
            114 :: 115 :: 105 :: 111 :: 110 :: 34 :: 58 :: 32 :: 34 ::
            JSON.quote_body v ++ [34; 10; 125]))
    with (JSON.lex (JSON.LStr [])
            [JSON.TColon; JSON.TStr (js "version"); JSON.TLBrace]
            (JSON.quote_body v ++ [34; 10; 125])).
  rewrite lex_quote_body by assumption. reflexivity.
Qed.

Lemma marker_utf8 (v : list Z) :
  wf_str v -> utf8_decode (utf8_encode (marker (JString v))) = marker (JString v).
Proof.
  intros Hv. apply utf8_roundtrip; [by apply marker_wf | by apply marker_paired].
Qed.

(** ** Strings that come out of the decoder and of the parser *)

Lemma utf8_lead_ok (b : byte) :
  Forall (fun cp => 0 <= cp < 0x110000) (fst (utf8_lead (b2z b))) /\
  utf8_state_ok (snd (utf8_lead (b2z b))).
Proof.
  pose proof (b2z_range b) as Hb. unfold utf8_lead.
  repeat match goal with
  | |- context [if ?c then _ else _] => destruct c eqn:?
  end; cbn [fst snd utf8_state_ok u8_cp u8_need u8_lower u8_upper];
    repeat split; try (repeat constructor; lia); try lia.
Qed.

Lemma utf8_run_range (bs : list byte) (st : option utf8_state) :
  utf8_state_ok st ->
  Forall (fun cp => 0 <= cp < 0x110000) (utf8_run st bs).
Proof.
  revert st. induction bs as [|b bs IH]; intros st Hst.
  - destruct st; repeat constructor; lia.
  - cbn [utf8_run]. pose proof (b2z_range b) as Hb.
    destruct (utf8_lead_ok b) as [Hout Hst'].
    destruct st as [s|].
    + destruct Hst as (Hcp & Hlo & Hup & Hneed).
      destruct ((u8_lower s <=? b2z b) && (b2z b <=? u8_upper s)) eqn:Hin.
      * apply andb_true_iff in Hin as [H1 H2].
        destruct (Z.eqb_spec (u8_need s) 1).
        -- constructor; [lia | by apply IH].
        -- apply IH. cbn [utf8_state_ok u8_cp u8_need u8_lower u8_upper]. lia.
      * destruct (utf8_lead (b2z b)) as [out st'].
        constructor; [lia|]. apply Forall_app. split; [assumption | by apply IH].
    + destruct (utf8_lead (b2z b)) as [out st'].
      apply Forall_app. split; [assumption | by apply IH].
Qed.

Lemma utf8_decode_wf (bs : list byte) : wf_str (utf8_decode bs).
Proof.
  unfold utf8_decode, wf_str.
  pose proof (utf8_run_range bs None I) as H.
  induction H as [|cp cps Hcp _ IH]; [constructor|].
  cbn [flat_map]. apply Forall_app. split; [|assumption].
  unfold utf16_of_cp. destruct (Z.ltb_spec cp 0x10000).
  - repeat constructor; lia.
  - repeat constructor; unfold wf_unit; Z.div_mod_to_equations; lia.
Qed.

Lemma text_decoder_wf (bs : list byte) : wf_str (text_decoder bs).
Proof.
  unfold text_decoder.
  destruct bs as [|b1 [|b2 [|b3 rest]]]; try apply utf8_decode_wf.
  - destruct b1; apply utf8_decode_wf.
  - destruct b1; try apply utf8_decode_wf; destruct b2; apply utf8_decode_wf.
  - destruct b1; try apply utf8_decode_wf; destruct b2; try apply utf8_decode_wf;
      destruct b3; apply utf8_decode_wf.
Qed.

Lemma utf8_decode_bom_wf (bs : list byte) : wf_str (utf8_decode_bom bs).
Proof.
  unfold utf8_decode_bom.
  destruct bs as [|b1 [|b2 [|b3 rest]]]; try apply text_decoder_wf.
  - destruct b1; apply text_decoder_wf.
  - destruct b1; try apply text_decoder_wf; destruct b2; apply text_decoder_wf.
  - destruct b1; try apply text_decoder_wf; destruct b2; try apply text_decoder_wf;
      destruct b3; apply text_decoder_wf.
Qed.

(** Of a body that starts with two byte order marks both are dropped;
    a third one is kept, as the character U+FEFF. *)
Lemma utf8_decode_bom_twice (rest : list byte) :
  utf8_decode_bom (xef :: xbb :: xbf :: xef :: xbb :: xbf :: rest)
  = utf8_decode rest.
Proof. reflexivity. Qed.

Lemma hex_val_range (c d : Z) : JSON.hex_val c = Some d -> 0 <= d < 16.
Proof.
  unfold JSON.hex_val, JSON.is_digit.
  repeat match goal with
  | |- context [if ?c then _ else _] => destruct c eqn:?
  end; intros [= <-]; lia.
Qed.

Lemma unescape_wf (c d : Z) : JSON.unescape c = Some d -> wf_unit d.
Proof.
  unfold JSON.unescape, wf_unit.
  repeat match goal with
  | |- context [if ?c then _ else _] => destruct c
  end; intros [= <-]; lia.
Qed.

Lemma lex_start_ok (c : Z) st ts :
  JSON.lex_start c = Some (st, ts) -> lex_state_ok st /\ Forall token_wf ts.
Proof.
  unfold JSON.lex_start.
  repeat match goal with
  | |- context [if ?c then _ else _] => destruct c
  end; intros [= <- <-]; cbn; repeat constructor.
Qed.

(** The strings among the tokens of a well-formed text are well formed. *)
Lemma lex_wf (s : list Z) :
  wf_str s ->
  forall st acc ts,
    lex_state_ok st -> Forall token_wf acc ->
    JSON.lex st acc s = Some ts -> Forall token_wf ts.
Proof.
  induction 1 as [|c s Hc Hs IH]; intros st acc ts Hst Hacc H.
  - cbn [JSON.lex] in H. destruct st; try discriminate.
    + injection H as <-. by apply Forall_rev.
    + destruct (JSON.num_complete stage); [|discriminate].
      injection H as <-. apply Forall_app.
      split; [by apply Forall_rev | by repeat constructor].
  - cbn [JSON.lex] in H. destruct st as [|sacc|sacc|sacc n v|expect t|stage a].
    + destruct (JSON.lex_start c) as [[st' ts']|] eqn:Hstart; [|discriminate].
      apply lex_start_ok in Hstart as [Hst' Hts'].
      apply (IH st' (ts' ++ acc) ts); [assumption | | assumption].
      by apply Forall_app.
    + cbn [lex_state_ok] in Hst.
      destruct (c =? 34).
      { apply (IH JSON.LStart _ ts I) in H; [assumption|].
        constructor; [|assumption]. by apply Forall_rev. }
      destruct (c =? 92); [by apply (IH (JSON.LEsc sacc) _ ts Hst Hacc) in H|].
      destruct (c <? 32); [discriminate|].
      apply (IH _ _ ts) in H; [assumption | | assumption].
      by constructor.
    + cbn [lex_state_ok] in Hst.
      destruct (c =? 117).
      { apply (IH _ _ ts) in H; [assumption | | assumption].
        cbn [lex_state_ok]. repeat split; [assumption | lia | lia]. }
      destruct (JSON.unescape c) as [d|] eqn:Hd; [|discriminate].
      apply unescape_wf in Hd.
      apply (IH _ _ ts) in H; [assumption | | assumption]. by constructor.
    + destruct Hst as (Hsacc & Hv & Hn).
      destruct (JSON.hex_val c) as [d|] eqn:Hd; [|discriminate].
      apply hex_val_range in Hd.
      destruct n as [|[|n']].
      * lia.
      * apply (IH _ _ ts) in H; [assumption | | assumption].
        constructor; [unfold wf_unit; lia | assumption].
      * apply (IH _ _ ts) in H; [assumption | | assumption].
        cbn [lex_state_ok]. repeat split; [assumption | lia | lia].
    + cbn [lex_state_ok] in Hst.
      destruct expect as [|e expect']; [discriminate|].
      destruct (c =? e); [|discriminate].
      destruct expect' as [|z expect'].
      * apply (IH JSON.LStart _ ts I) in H; [assumption | by constructor].
      * by apply (IH (JSON.LLit (z :: expect') t) _ ts Hst Hacc) in H.
    + destruct (JSON.num_step stage a c) as [[stage' a']|].
      * by apply (IH (JSON.LNum stage' a') _ ts I Hacc) in H.
      * destruct (JSON.num_complete stage); [|discriminate].
        destruct (JSON.lex_start c) as [[st' ts']|] eqn:Hstart; [|discriminate].
        apply lex_start_ok in Hstart as [Hst' Hts'].
        apply (IH st' _ ts) in H; [assumption | assumption |].
        apply Forall_app. split; [assumption | by constructor].
Qed.

Lemma wf_value_array (l : list JSValue) :
  wf_value (JArray l) <-> Forall wf_value l.
Proof.
  cbn [wf_value]. induction l as [|x l IH]; [by split; constructor|].
  rewrite Forall_cons. tauto.
Qed.

Lemma wf_value_object (l : list (list Z * JSValue)) :
  wf_value (JObject l) <-> Forall wf_field l.
Proof.
  cbn [wf_value]. induction l as [|[k x] l IH]; [by split; constructor|].
  rewrite Forall_cons. unfold wf_field at 1. cbn [fst snd]. tauto.
Qed.

Lemma lookup_field_wf (k : list Z) (fields : list (list Z * JSValue)) v :
  Forall wf_field fields -> lookup_field k fields = Some v -> wf_value v.
Proof.
  induction 1 as [|[k' x] l [_ Hx] _ IH]; [discriminate|].
  cbn [lookup_field]. destruct (str_eqb k k'); [by intros [= <-] | assumption].
Qed.

Lemma set_field_wf (k : list Z) (v : JSValue) (fields : list (list Z * JSValue)) :
  wf_str k -> wf_value v -> Forall wf_field fields ->
  Forall wf_field (JSON.set_field k v fields).
Proof.
  intros Hk Hv Hf. unfold JSON.set_field. destruct (lookup_field k fields).
  - induction Hf as [|[k' x] l [Hk' Hx] Hl IH]; [constructor|].
    cbn [JSON.replace_field]. destruct (str_eqb k k').
    + constructor; [by split | assumption].
    + constructor; [by split | assumption].
  - induction Hf as [|[k' x] l [Hk' Hx] Hl IH]; [by repeat constructor|].
    cbn [JSON.insert_field].
    destruct (JSON.array_index k) as [i|]; [destruct (JSON.array_index k') as [i'|];
      [destruct (i <? i')|]|];
      repeat (constructor; try by split); assumption.
Qed.

Lemma deliver_wf v stack e stack' :
  wf_value v -> Forall frame_wf stack ->
  JSON.deliver v stack = Some (e, stack') ->
  expect_wf e /\ Forall frame_wf stack'.
Proof.
  intros Hv Hs. unfold JSON.deliver.
  destruct Hs as [|[acc|fields|fields k] st Hf Hst]; intros [= <- <-].
  - split; [assumption | constructor].
  - split; [exact I|]. constructor; [|assumption]. by constructor.
  - destruct Hf as [Hf Hk]. split; [exact I|].
    constructor; [|assumption]. by apply set_field_wf.
Qed.

Lemma start_value_wf t stack e stack' :
  token_wf t -> Forall frame_wf stack ->
  JSON.start_value t stack = Some (e, stack') ->
  expect_wf e /\ Forall frame_wf stack'.
Proof.
  intros Ht Hs. unfold JSON.start_value.
  destruct t; try discriminate;
    try (apply deliver_wf; [done | assumption]);
    intros [= <- <-]; (split; [exact I|]); constructor; try assumption;
    constructor.
Qed.

Lemma parse_step_wf e stack t e' stack' :
  token_wf t -> Forall frame_wf stack ->
  JSON.parse_step e stack t = Some (e', stack') ->
  expect_wf e' /\ Forall frame_wf stack'.
Proof.
  intros Ht Hs H.
  destruct e; cbn [JSON.parse_step] in H;
    try (by eapply start_value_wf);
    try discriminate.
  - destruct t; try (by eapply start_value_wf).
    destruct stack as [|[]]; try discriminate; try (by eapply start_value_wf).
    apply Forall_cons in Hs as [_ Hs].
    eapply deliver_wf; [|exact Hs|exact H]. by apply wf_value_array.
  - destruct t; try discriminate; destruct stack as [|[]]; try discriminate.
    + apply Forall_cons in Hs as [_ Hs].
      eapply deliver_wf; [|exact Hs|exact H]. by apply wf_value_object.
    + injection H as <- <-. apply Forall_cons in Hs as [Hf Hs].
      split; [exact I|]. constructor; [by split | assumption].
  - destruct t; try discriminate; destruct stack as [|[]]; try discriminate.
    injection H as <- <-. apply Forall_cons in Hs as [Hf Hs].
    split; [exact I|]. constructor; [by split | assumption].
  - destruct t; try discriminate. injection H as <- <-. by split.
  - destruct t; try discriminate.
    + destruct stack as [|[]]; try discriminate.
      apply Forall_cons in Hs as [Hf Hs].
      eapply deliver_wf; [|exact Hs|exact H].
      apply wf_value_array. by apply Forall_rev.
    + injection H as <- <-. by split.
  - destruct t; try discriminate.
    + destruct stack as [|[]]; try discriminate.
      apply Forall_cons in Hs as [Hf Hs].
      eapply deliver_wf; [|exact Hs|exact H]. by apply wf_value_object.
    + injection H as <- <-. by split.
Qed.

Lemma parse_tokens_wf ts :
  Forall token_wf ts ->
  forall e stack v,
    expect_wf e -> Forall frame_wf stack ->
    JSON.parse_tokens e stack ts = Some v -> wf_value v.
Proof.
  induction 1 as [|t ts Ht _ IH]; intros e stack v He Hs H.
  - cbn [JSON.parse_tokens] in H. destruct e; try discriminate.
    by injection H as <-.
  - cbn [JSON.parse_tokens] in H.
    destruct (JSON.parse_step e stack t) as [[e' stack']|] eqn:Hstep;
      [|discriminate].
    apply parse_step_wf in Hstep as [He' Hs']; try assumption.
    by apply (IH e' stack' v).
Qed.

(** The strings of the value of a well-formed text are well formed. *)
Lemma parse_wf (text : list Z) (v : JSValue) :
  wf_str text -> JSON.parse text = Return v -> wf_value v.
Proof.
  intros Ht. unfold JSON.parse.
  destruct (JSON.lex JSON.LStart [] text) as [ts|] eqn:Hlex; [|discriminate].
  apply (lex_wf text Ht JSON.LStart [] ts I) in Hlex; [|constructor].
  destruct (JSON.parse_tokens JSON.EValue [] ts) as [v'|] eqn:Hp; [|discriminate].
  intros [= <-]. by apply (parse_tokens_wf ts Hlex JSON.EValue [] v' I).
Qed.

(** A string property of a well-formed value is well formed. *)
Lemma get_prop_wf (m : JSValue) (key s : list Z) :
  wf_value m -> get_prop m key = Return (JString s) -> wf_str s.
Proof.
  intros Hm. destruct m; try discriminate. cbn [get_prop].
  destruct (lookup_field key fields) as [x|] eqn:Hl; [|discriminate].
  intros [= ->]. apply wf_value_object in Hm.
  by apply (lookup_field_wf key fields (JString s)).
Qed.

(** ** The file system *)

Lemma lookup_from_insert (t : gmap (list (list Z)) node) k x pre segs :
  (length pre + length segs < length k)%nat ->
  FS.lookup_from (<[k := x]> t) pre segs = FS.lookup_from t pre segs.
Proof.
  revert pre. induction segs as [|s segs IH]; intros pre Hlen; [reflexivity|].
  cbn [FS.lookup_from length] in *.
  assert (k <> pre ++ [s]).
  { intros ->. rewrite length_app in Hlen. cbn in Hlen. lia. }
  rewrite lookup_insert_ne by assumption.
  destruct segs as [|s' segs]; [reflexivity|].
  rewrite IH; [reflexivity|]. rewrite length_app. cbn [length] in *. lia.
Qed.

Lemma lookup_from_snoc (t : gmap (list (list Z)) node) pre segs s :
  FS.lookup_from t pre (segs ++ [s]) =
  match FS.lookup_from t pre segs with
  | Some Dir => t !! (pre ++ segs ++ [s])
  | _ => None
  end.
Proof.
  revert pre. induction segs as [|s0 segs IH]; intros pre; [reflexivity|].
  cbn [app FS.lookup_from].
  destruct segs as [|s1 segs].
  - cbn [app]. destruct (t !! (pre ++ [s0])) as [[|]|]; try reflexivity.
    cbn [FS.lookup_from]. by rewrite <- app_assoc.
  - change ((s1 :: segs) ++ [s]) with (s1 :: (segs ++ [s])) at 1.
    destruct (t !! (pre ++ [s0])) as [[|]|]; try reflexivity.
    change (s1 :: segs ++ [s]) with ((s1 :: segs) ++ [s]).
    rewrite IH. by rewrite <- (app_assoc pre [s0]).
Qed.

(** After a successful write the file is there with the bytes written. *)
Lemma write_file_read (wd : list Z) (t t' : gmap (list (list Z)) node)
      (p : list Z) (data : list byte) :
  FS.write_file wd t p data = Return t' ->
  FS.exists_path wd t' p = true /\ FS.read_file wd t' p = Return data.
Proof.
  unfold FS.write_file, FS.exists_path, FS.read_file, FS.stat.
  destruct (FS.has_nul p); [discriminate|].
  destruct (FS.resolve wd p) as [[segs trail]|]; [|discriminate].
  destruct segs as [|s0 segs0] eqn:Hsegs; [discriminate|]. rewrite <- Hsegs.
  assert (Hne : segs <> []) by (subst; discriminate).
  destruct (exists_last Hne) as (init & s & Hs).
  rewrite Hs, removelast_last.
  destruct (FS.lookup_path t init) as [[|]|] eqn:Hparent; try discriminate.
  assert (Hnew : forall c, FS.lookup_path (<[init ++ [s] := File c]> t) (init ++ [s])
                           = Some (File c)).
  { intros c. unfold FS.lookup_path in *. rewrite lookup_from_snoc.
    rewrite lookup_from_insert by (rewrite length_app; cbn; lia).
    rewrite Hparent. cbn [app]. apply lookup_insert_eq. }
  destruct (t !! (init ++ [s])) as [[|]|]; try discriminate;
    destruct trail; try discriminate; intros [= <-]; by rewrite Hnew.
Qed.

(** ** The monad *)

Lemma bind_unfold {A B : Type} (m : M A) (f : A -> M B) (st : state) :
  (m ≫= f) st =
  match m st with
  | (Return a, st') => f a st'
  | (Throw e, st') => (Throw e, st')
  end.
Proof. reflexivity. Qed.

Lemma bind_return {A B : Type} (m : M A) (f : A -> M B) st a st' :
  m st = (Return a, st') -> (m ≫= f) st = f a st'.
Proof. intros H. by rewrite bind_unfold, H. Qed.

Lemma bind_throw {A B : Type} (m : M A) (f : A -> M B) st e st' :
  m st = (Throw e, st') -> (m ≫= f) st = (Throw e, st').
Proof. intros H. by rewrite bind_unfold, H. Qed.

(** A sequence that returns has returned at each step. *)
Lemma bind_inv {A B : Type} (m : M A) (f : A -> M B) st b st' :
  (m ≫= f) st = (Return b, st') ->
  exists a st1, m st = (Return a, st1) /\ f a st1 = (Return b, st').
Proof.
  rewrite bind_unfold. destruct (m st) as [[a|e] st1]; [eauto | discriminate].
Qed.

Lemma lift_return {A : Type} (r : result A) (st : state) : lift r st = (r, st).
Proof. reflexivity. Qed.

(** ** Calls in flight

    An invariant of the pool that every step keeps holds when [pMap]
    has returned, at which point no call is left; and every exception
    [pMap] throws is the exception of a step. *)

Lemma view_inr {B : Type} (m : nat) (t : task m B) (k : nat) (resume : M (task k B)) :
  view m t = inr (existT k resume) -> m = S k.
Proof.
  destruct m as [|m]; cbn [view]; [discriminate|].
  destruct t as [b|r]; [discriminate|]. intros H. by injection H as ->.
Qed.

Lemma list_sum_delete {X : Type} (f : X -> nat) (l : list X) (j : nat) (x : X) :
  l !! j = Some x ->
  (list_sum (map f (delete j l)) + f x = list_sum (map f l))%nat.
Proof.
  revert j. induction l as [|y l IH]; intros j H; [discriminate|].
  destruct j as [|j]; simpl in *.
  - injection H as ->. lia.
  - specialize (IH j H). lia.
Qed.

Lemma list_sum_insert {X : Type} (f : X -> nat) (l : list X) (j : nat) (x y : X) :
  l !! j = Some x ->
  (list_sum (map f (<[j := y]> l)) + f x = list_sum (map f l) + f y)%nat.
Proof.
  revert j. induction l as [|z l IH]; intros j H; [discriminate|].
  destruct j as [|j]; simpl in *.
  - injection H as ->. lia.
  - specialize (IH j H). lia.
Qed.

Section Steps.

Context {A B : Type} {n : nat}.
Context (concurrency : nat) (mapper : A -> M (task n B)).

Lemma call_next_weight (p p' : pool A B) (st st' : state) :
  has_room concurrency p = true ->
  call_next mapper p st = (Return p', st') ->
  (weight n p' < weight n p)%nat.
Proof.
  unfold has_room, call_next, weight.
  destruct (remaining p) as [|[i x] rest]; [discriminate|]. intros _.
  unfold try_catch. rewrite bind_unfold.
  destruct (mapper x st) as [[t|e] st1].
  - destruct (view n t) as [b|[k resume]] eqn:Hv; intros [= <- _]; cbn [resolving remaining length].
    + lia.
    + apply view_inr in Hv as ->.
      rewrite map_app, list_sum_app, Nat.mul_succ_r. cbn [map list_sum fold_right snd projT1]. unfold suspended. lia.
  - intros [= <- _]. cbn [resolving remaining length].
    rewrite map_app, list_sum_app, Nat.mul_succ_r. cbn [map list_sum fold_right snd projT1]. unfold suspended. lia.
Qed.

Lemma go_on_weight (j : nat) (p p' : pool A B) (st st' : state) :
  (j < length (resolving p))%nat ->
  go_on j p st = (Return p', st') ->
  (weight n p' < weight n p)%nat.
Proof.
  unfold go_on, weight. intros Hj.
  destruct (resolving p !! j) as [[i [m resume]]|] eqn:Hl;
    [|apply lookup_ge_None in Hl; unfold suspended in *; lia].
  rewrite bind_unfold. destruct (resume st) as [[t|e] st1]; [|discriminate].
  destruct (view m t) as [b|[k call]] eqn:Hv; intros [= <- _]; cbn [resolving remaining].
  - pose proof (list_sum_delete (fun call : nat * suspended B => S (projT1 (snd call)))
                  _ _ _ Hl) as Hs. cbn [snd projT1] in Hs. unfold suspended in *. lia.
  - apply view_inr in Hv as ->.
    pose proof (list_sum_insert (fun call : nat * suspended B => S (projT1 (snd call)))
                  _ _ _ (i, existT k call) Hl) as Hs.
    cbn [snd projT1] in Hs. unfold suspended in *. lia.
Qed.

Context (I : pool A B -> state -> Prop) (T : exn -> state -> Prop).

Hypothesis Hcall : forall p st,
  I p st -> has_room concurrency p = true ->
  match call_next mapper p st with
  | (Return p', st') => I p' st'
  | (Throw e, st') => T e st'
  end.

Hypothesis Hgo : forall j p st,
  I p st -> (j < length (resolving p))%nat ->
  match go_on j p st with
  | (Return p', st') => I p' st'
  | (Throw e, st') => T e st'
  end.

Lemma step_invariant (c : nat) (p : pool A B) (st : state) :
  I p st ->
  has_room concurrency p || negb (bool_decide (length (resolving p) = O)) = true ->
  match step concurrency mapper c p st with
  | (Return p', st') => I p' st' /\ (weight n p' < weight n p)%nat
  | (Throw e, st') => T e st'
  end.
Proof.
  intros HI Hsome. unfold step.
  destruct (has_room concurrency p) eqn:Hroom.
  - destruct (c mod S (length (resolving p)))%nat as [|j] eqn:Hc.
    + specialize (Hcall p st HI Hroom).
      destruct (call_next mapper p st) as [[p'|e] st'] eqn:Hn; [|exact Hcall].
      split; [exact Hcall|]. by eapply call_next_weight.
    + assert (Hj : (j < length (resolving p))%nat).
      { pose proof (Nat.mod_upper_bound c (S (length (resolving p)))). lia. }
      specialize (Hgo j p st HI Hj).
      destruct (go_on j p st) as [[p'|e] st'] eqn:Hg; [|exact Hgo].
      split; [exact Hgo|]. by eapply go_on_weight.
  - cbn [orb] in Hsome. apply negb_true_iff, bool_decide_eq_false in Hsome.
    assert (Hj : (c mod length (resolving p) < length (resolving p))%nat)
      by (apply Nat.mod_upper_bound; exact Hsome).
    specialize (Hgo _ p st HI Hj).
    destruct (go_on _ p st) as [[p'|e] st'] eqn:Hg; [|exact Hgo].
    split; [exact Hgo|]. by eapply go_on_weight.
Qed.

Lemma run_invariant (fuel : nat) (choices : list nat) (p : pool A B) (st : state) :
  concurrency <> O -> I p st -> (weight n p <= fuel)%nat ->
  match run concurrency mapper fuel choices p st with
  | (Return values, st') =>
      exists p', I p' st' /\ remaining p' = [] /\ resolving p' = [] /\
                 values = collected p'
  | (Throw e, st') => T e st'
  end.
Proof.
  intros Hc. revert choices p st.
  induction fuel as [|fuel IH]; intros choices p st HI Hw.
  - cbn [run]. exists p. unfold weight in Hw.
    destruct (remaining p); [|cbn in Hw; lia].
    destruct (resolving p); [|cbn in Hw; lia]. by repeat split.
  - cbn [run].
    destruct (has_room concurrency p || negb (bool_decide (length (resolving p) = O)))
      eqn:Hsome.
    + pose proof (step_invariant (hd O choices) p st HI Hsome) as Hs.
      rewrite bind_unfold.
      destruct (step concurrency mapper (hd O choices) p st) as [[p'|e] st'];
        [|exact Hs].
      destruct Hs as [HI' Hlt]. apply IH; [exact HI'|lia].
    + apply orb_false_iff in Hsome as [Hroom Hnone].
      apply negb_false_iff, bool_decide_eq_true in Hnone.
      exists p. split; [exact HI|].
      destruct (resolving p) eqn:Hr; [|discriminate].
      unfold has_room in Hroom. rewrite Hr in Hroom. cbn [length] in Hroom.
      destruct (remaining p); [by repeat split|].
      apply Nat.ltb_ge in Hroom. lia.
Qed.

Theorem pMap_invariant (choices : list nat) (items : list A) (st : state) :
  concurrency <> O ->
  I (Pool (zip (seq 0 (length items)) items) [] (replicate (length items) None)) st ->
  match pMap concurrency mapper choices items st with
  | (Return values, st') =>
      exists p', I p' st' /\ remaining p' = [] /\ resolving p' = [] /\
                 values = omap id (collected p')
  | (Throw e, st') => T e st'
  end.
Proof.
  intros Hc HI. unfold pMap.
  destruct (Nat.eqb_spec concurrency 0) as [?|_]; [contradiction|].
  rewrite bind_unfold.
  pose proof (run_invariant ((n + 2) * length items) choices _ st Hc HI) as Hr.
  destruct (run _ _ _ _ _ st) as [[values|e] st'].
  - destruct Hr as (p' & HI' & Hrem & Hres & ->).
    + unfold weight. cbn [resolving remaining map list_sum fold_right].
      rewrite length_zip_with, length_seq, Nat.min_id. lia.
    + exists p'. by repeat split.
  - apply Hr. unfold weight. cbn [resolving remaining map list_sum fold_right].
    rewrite length_zip_with, length_seq, Nat.min_id. lia.
Qed.

End Steps.

Section Unfold.

Context {A B : Type} {n : nat}.
Context (mapper : A -> M (task n B)).

Lemma call_next_unfold (p : pool A B) (i : nat) (x : A) (rest : list (nat * A))
      (st : state) :
  remaining p = (i, x) :: rest ->
  call_next mapper p st =
  match mapper x st with
  | (Return t, st') =>
      (Return match view n t with
              | inl b => Pool rest (resolving p) (<[i := Some b]> (collected p))
              | inr call => Pool rest (resolving p ++ [(i, call)]) (collected p)
              end, st')
  | (Throw e, st') =>
      (Return (Pool rest (resolving p ++ [(i, existT O (throw e))]) (collected p)), st')
  end.
Proof.
  intros Hr. unfold call_next, try_catch. rewrite Hr, bind_unfold.
  by destruct (mapper x st) as [[t|e] st'].
Qed.

Lemma go_on_unfold (p : pool A B) (j i m : nat) (resume : M (task m B))
      (st : state) :
  resolving p !! j = Some (i, existT m resume) ->
  go_on j p st =
  match resume st with
  | (Return t, st') =>
      (Return match view m t with
              | inl b =>
                  Pool (remaining p) (delete j (resolving p))
                       (<[i := Some b]> (collected p))
              | inr call =>
                  Pool (remaining p) (<[j := (i, call)]> (resolving p)) (collected p)
              end, st')
  | (Throw e, st') => (Throw e, st')
  end.
Proof.
  intros Hl. unfold go_on. rewrite Hl, bind_unfold.
  by destruct (resume st) as [[t|e] st'].
Qed.

End Unfold.

Lemma lawful_view (R : gmap (list (list Z)) node -> gmap (list (list Z)) node -> Prop)
      {B : Type} (P : B -> Prop) (m : nat) (t : task m B) :
  lawful R P m t ->
  match view m t with
  | inl b => P b
  | inr call => lawful_call R P call
  end.
Proof.
  destruct m as [|m]; cbn [view lawful]; [auto|].
  destruct t as [b|resume]; [auto|]. intros H. exact H.
Qed.

Lemma doomed_view {B : Type} (m : nat) (t : task m B) :
  doomed m t ->
  match view m t with
  | inl b => False
  | inr call => doomed_call call
  end.
Proof.
  destruct m as [|m]; cbn [view doomed]; [auto|].
  destruct t as [b|resume]; [auto|]. intros H. exact H.
Qed.

Lemma lookup_zip_seq {A : Type} (items : list A) (i : nat) (x : A) :
  (i, x) ∈ zip (seq 0 (length items)) items -> items !! i = Some x.
Proof.
  intros Hin. apply list_elem_of_lookup in Hin as [j Hj].
  apply lookup_zip_with_Some in Hj as (i' & x' & [= -> ->] & Hi & Hx).
  apply lookup_seq in Hi as [-> _]. exact Hx.
Qed.

Lemma elem_of_fst_delete {X : Type} (l : list (nat * X)) (j i y : nat) (c : X) :
  l !! j = Some (i, c) -> y ∈ l.*1 -> y <> i -> y ∈ (delete j l).*1.
Proof.
  intros Hl Hy Hne. apply list_elem_of_fmap in Hy as ([y' c'] & -> & Hin).
  cbn [fst] in Hne. apply list_elem_of_lookup in Hin as [j' Hj'].
  apply list_elem_of_fmap. exists (y', c'). split; [reflexivity|].
  destruct (Nat.lt_trichotomy j' j) as [Hlt|[->|Hgt]].
  - apply (list_elem_of_lookup_2 _ j'). by rewrite list_lookup_delete_lt.
  - congruence.
  - apply (list_elem_of_lookup_2 _ (pred j')).
    rewrite list_lookup_delete_ge by lia. by replace (S (pred j')) with j' by lia.
Qed.

Lemma fst_insert_same {X : Type} (l : list (nat * X)) (j i : nat) (c c' : X) :
  l !! j = Some (i, c) -> (<[j := (i, c')]> l).*1 = l.*1.
Proof.
  intros Hl. rewrite list_fmap_insert. cbn [fst].
  apply list_insert_id. by rewrite list_lookup_fmap, Hl.
Qed.

Lemma Forall2_omap_id {A B : Type} (Q : A -> B -> Prop) (items : list A)
      (l : list (option B)) :
  length l = length items ->
  (forall i, match l !! i with
             | Some (Some b) => exists x, items !! i = Some x /\ Q x b
             | Some None => False
             | None => True
             end) ->
  Forall2 Q items (omap id l).
Proof.
  revert items. induction l as [|o l IH]; intros [|x items] Hlen H; try discriminate.
  - constructor.
  - pose proof (H O) as H0. cbn in H0. destruct o as [b|]; [|contradiction].
    destruct H0 as (x' & [= <-] & HQ).
    cbn [omap list_omap id]. constructor; [exact HQ|].
    apply IH; [by injection Hlen|]. intros i. exact (H (S i)).
Qed.

Section Lawful.

Context {A B : Type} {n : nat}.
Context (concurrency : nat) (mapper : A -> M (task n B)).
Context (R : gmap (list (list Z)) node -> gmap (list (list Z)) node -> Prop).
Context `{!PreOrder R} (Q : A -> B -> Prop).

Hypothesis Hmapper : forall x st r st',
  mapper x st = (r, st') ->
  R (fs st) (fs st') /\
  match r with Return t => lawful R (Q x) n t | Throw _ => True end.

Lemma pMap_lawful (choices : list nat) (items : list A) (st : state) r st' :
  pMap concurrency mapper choices items st = (r, st') ->
  R (fs st) (fs st') /\
  match r with Return values => Forall2 Q items values | Throw _ => True end.
Proof.
  destruct (Nat.eqb_spec concurrency O) as [Hz|Hnz].
  { unfold pMap. rewrite Hz. cbn. intros [= <- <-]. split; [reflexivity|exact I]. }
  set (Inv := fun (p : pool A B) (s : state) =>
    R (fs st) (fs s) /\
    length (collected p) = length items /\
    Forall (fun ix : nat * A => items !! fst ix = Some (snd ix)) (remaining p) /\
    Forall (fun ic : nat * suspended B =>
              exists x, items !! fst ic = Some x /\ lawful_call R (Q x) (snd ic))
           (resolving p) /\
    forall i, match collected p !! i with
              | Some (Some b) => exists x, items !! i = Some x /\ Q x b
              | Some None => i ∈ (remaining p).*1 \/ i ∈ (resolving p).*1
              | None => True
              end).
  assert (Hcall : forall p s, Inv p s -> has_room concurrency p = true ->
            match call_next mapper p s with
            | (Return p', s') => Inv p' s'
            | (Throw _, s') => R (fs st) (fs s')
            end).
  { intros p s (HR & Hlen & Hrem & Hcalls & Hvals) Hroom.
    unfold has_room in Hroom.
    destruct (remaining p) as [|[i x] rest] eqn:Hr; [discriminate|].
    pose proof (Forall_inv Hrem) as Hx. pose proof (Forall_inv_tail Hrem) as Hrest.
    cbn [fst snd] in Hx.
    rewrite (call_next_unfold mapper p i x rest s Hr).
    assert (Hlater : forall call : suspended B,
              lawful_call R (Q x) call ->
              forall s', R (fs s) (fs s') ->
              Inv (Pool rest (resolving p ++ [(i, call)]) (collected p)) s').
    { intros call Hc s' HR'. split; [by etransitivity|].
      cbn [remaining resolving collected].
      split; [exact Hlen|]. split; [exact Hrest|]. split.
      - apply Forall_app. split; [exact Hcalls|].
        constructor; [|constructor]. exists x. by split.
      - intros i'. specialize (Hvals i').
        destruct (collected p !! i') as [[b|]|]; [exact Hvals| |exact I].
        rewrite fmap_app, elem_of_app. cbn [fmap list_fmap fst].
        destruct Hvals as [Hin|Hin]; [|by right; left].
        apply elem_of_cons in Hin as [->|Hin]; [|by left].
        right. right. by apply list_elem_of_singleton. }
    destruct (mapper x s) as [[t|e] s'] eqn:Hm;
      destruct (Hmapper x s _ s' Hm) as [HR' Ht].
    + pose proof (lawful_view R (Q x) n t Ht) as Hv.
      destruct (view n t) as [b|call]; [|by apply Hlater].
      split; [by etransitivity|]. cbn [remaining resolving collected].
      split; [by rewrite length_insert|]. split; [exact Hrest|].
      split; [exact Hcalls|].
      intros i'. destruct (decide (i' = i)) as [->|Hne].
      * destruct (lookup_lt_is_Some_2 (collected p) i) as [o Ho].
        { destruct (collected p !! i) eqn:Hc; [by eapply lookup_lt_Some|].
          specialize (Hvals i). rewrite Hc in Hvals.
          apply lookup_ge_None in Hc.
          apply lookup_lt_Some in Hx. lia. }
        rewrite list_lookup_insert_eq by (by eapply lookup_lt_Some). eauto.
      * rewrite list_lookup_insert_ne by done. specialize (Hvals i').
        destruct (collected p !! i') as [[b'|]|]; [exact Hvals| |exact I].
        destruct Hvals as [Hin|Hin]; [|by right].
        apply elem_of_cons in Hin as [->|Hin]; [contradiction|by left].
    + apply Hlater; [|exact HR'].
      intros s1 r1 s2 [= <- <-]. split; [reflexivity|exact I]. }
  assert (Hgo : forall j p s, Inv p s -> (j < length (resolving p))%nat ->
            match go_on j p s with
            | (Return p', s') => Inv p' s'
            | (Throw _, s') => R (fs st) (fs s')
            end).
  { intros j p s (HR & Hlen & Hrem & Hcalls & Hvals) Hj.
    destruct (resolving p !! j) as [[i [m resume]]|] eqn:Hl;
      [|apply lookup_ge_None in Hl; unfold suspended in *; lia].
    rewrite (go_on_unfold p j i m resume s Hl).
    destruct (Forall_lookup_1 _ _ _ _ Hcalls Hl) as (x & Hx & Hcall').
    cbn [fst snd] in Hx, Hcall'.
    destruct (resume s) as [[t|e] s'] eqn:Hres;
      destruct (Hcall' s _ s' Hres) as [HR' Ht]; [|by etransitivity].
    cbn [projT1 snd] in Ht.
    pose proof (lawful_view R (Q x) m t Ht) as Hv.
    destruct (view m t) as [b|call]; (split; [by etransitivity|]);
      cbn [remaining resolving collected].
    + split; [by rewrite length_insert|]. split; [exact Hrem|].
      split; [by apply Forall_delete|].
      intros i'. destruct (decide (i' = i)) as [->|Hne].
      * rewrite list_lookup_insert_eq; [eauto|].
        apply lookup_lt_Some in Hx. lia.
      * rewrite list_lookup_insert_ne by done. specialize (Hvals i').
        destruct (collected p !! i') as [[b'|]|]; [exact Hvals| |exact I].
        destruct Hvals as [Hin|Hin]; [by left|]. right.
        by eapply elem_of_fst_delete.
    + split; [exact Hlen|]. split; [exact Hrem|]. split.
      * apply Forall_insert; [exact Hcalls|]. exists x. by split.
      * intros i'. rewrite (fst_insert_same _ _ _ _ _ Hl). apply Hvals. }
  assert (H0 : Inv (Pool (zip (seq 0 (length items)) items) []
                         (replicate (length items) None)) st).
  { split; [reflexivity|]. cbn [remaining resolving collected].
    split; [apply length_replicate|]. split.
    { apply Forall_forall. intros [i x] Hin. by apply lookup_zip_seq. }
    split; [constructor|].
    intros i. destruct (replicate (length items) None !! i) as [o|] eqn:Hi; [|exact I].
    apply lookup_replicate in Hi as [-> Hi]. left.
    rewrite fst_zip by (by rewrite length_seq). apply elem_of_seq. lia. }
  pose proof (pMap_invariant concurrency mapper Inv (fun _ s => R (fs st) (fs s))
                Hcall Hgo choices items st Hnz H0) as H.
  intros Hrun. rewrite Hrun in H. destruct r as [values|e].
  - destruct H as (p' & (HR & Hlen & _ & _ & Hvals) & Hrem & Hres & ->).
    split; [exact HR|]. apply Forall2_omap_id; [exact Hlen|].
    intros i. specialize (Hvals i). rewrite Hrem, Hres in Hvals.
    destruct (collected p' !! i) as [[b|]|]; [exact Hvals| |exact I].
    destruct Hvals as [Hin|Hin]; by apply elem_of_nil in Hin.
  - split; [exact H|exact I].
Qed.

End Lawful.

Lemma elem_of_delete_other {X : Type} (l : list X) (j j' : nat) (y : X) :
  l !! j' = Some y -> j' <> j -> y ∈ delete j l.
Proof.
  intros Hj' Hne. destruct (Nat.lt_trichotomy j' j) as [Hlt|[->|Hgt]].
  - apply (list_elem_of_lookup_2 _ j'). by rewrite list_lookup_delete_lt.
  - contradiction.
  - apply (list_elem_of_lookup_2 _ (pred j')).
    rewrite list_lookup_delete_ge by lia. by replace (S (pred j')) with j' by lia.
Qed.

Section Doomed.

Context {A B : Type} {n : nat}.
Context (concurrency : nat) (mapper : A -> M (task n B)).

Lemma pMap_doomed (choices : list nat) (items : list A) (x : A) (st : state) :
  concurrency <> O -> x ∈ items ->
  (forall s, match mapper x s with
             | (Return t, _) => doomed n t
             | (Throw _, _) => True
             end) ->
  exists e st', pMap concurrency mapper choices items st = (Throw e, st').
Proof.
  intros Hnz Hin Hx.
  set (Inv := fun (p : pool A B) (s : state) =>
    (exists i, (i, x) ∈ remaining p) \/
    (exists i call, (i, call) ∈ resolving p /\ doomed_call call)).
  assert (Hcall : forall p s, Inv p s -> has_room concurrency p = true ->
            match call_next mapper p s with
            | (Return p', s') => Inv p' s'
            | (Throw _, s') => True
            end).
  { intros p s HI Hroom. unfold has_room in Hroom.
    destruct (remaining p) as [|[i0 x0] rest] eqn:Hr; [discriminate|].
    rewrite (call_next_unfold mapper p i0 x0 rest s Hr).
    destruct HI as [[i Hi]|(i & call & Hi & Hc)].
    - rewrite Hr in Hi. apply elem_of_cons in Hi as [[= <- <-]|Hi].
      + specialize (Hx s). destruct (mapper x s) as [[t|e] s'].
        * apply doomed_view in Hx. destruct (view n t) as [b|call]; [contradiction|].
          right. exists i, call. split; [|exact Hx]. cbn [resolving].
          apply elem_of_app. right. by apply list_elem_of_singleton.
        * right. exists i, (existT O (throw e)). split; [|by intros s0].
          cbn [resolving]. apply elem_of_app. right. by apply list_elem_of_singleton.
      + destruct (mapper x0 s) as [[t|e] s']; [destruct (view n t)|]; left; by exists i.
    - destruct (mapper x0 s) as [[t|e] s']; [destruct (view n t)|]; right;
        exists i, call; (split; [|exact Hc]); cbn [resolving];
        try exact Hi; apply elem_of_app; by left. }
  assert (Hgo : forall j p s, Inv p s -> (j < length (resolving p))%nat ->
            match go_on j p s with
            | (Return p', s') => Inv p' s'
            | (Throw _, s') => True
            end).
  { intros j p s HI Hj.
    destruct (resolving p !! j) as [[i0 [m resume]]|] eqn:Hl;
      [|apply lookup_ge_None in Hl; unfold suspended in *; lia].
    rewrite (go_on_unfold p j i0 m resume s Hl).
    destruct HI as [[i Hi]|(i & call & Hi & Hc)].
    - destruct (resume s) as [[t|e] s']; [|exact I].
      destruct (view m t); left; by exists i.
    - apply list_elem_of_lookup in Hi as [j' Hj'].
      destruct (decide (j' = j)) as [->|Hne].
      + rewrite Hl in Hj'. injection Hj' as <- <-.
        specialize (Hc s). cbn [projT1 projT2] in Hc.
        destruct (resume s) as [[t|e] s']; [|exact I].
        apply doomed_view in Hc. destruct (view m t) as [b|call']; [contradiction|].
        right. exists i0, call'. split; [|exact Hc]. cbn [resolving].
        apply (list_elem_of_lookup_2 _ j). by rewrite list_lookup_insert_eq.
      + destruct (resume s) as [[t|e] s']; [|exact I].
        destruct (view m t) as [b|call']; right; exists i, call;
          (split; [|exact Hc]); cbn [resolving].
        * by eapply elem_of_delete_other.
        * apply (list_elem_of_lookup_2 _ j'). by rewrite list_lookup_insert_ne. }
  assert (H0 : Inv (Pool (zip (seq 0 (length items)) items) []
                         (replicate (length items) None)) st).
  { left. cbn [remaining]. apply list_elem_of_lookup in Hin as [i Hi].
    exists i. apply (list_elem_of_lookup_2 _ i).
    apply lookup_zip_with_Some. exists i, x. split; [reflexivity|].
    split; [|exact Hi]. apply lookup_seq. split; [reflexivity|].
    by eapply lookup_lt_Some. }
  pose proof (pMap_invariant concurrency mapper Inv (fun _ _ => True)
                Hcall Hgo choices items st Hnz H0) as H.
  destruct (pMap concurrency mapper choices items st) as [[values|e] st']; [|eauto].
  destruct H as (p' & HI & Hrem & Hres & _). exfalso.
  destruct HI as [[i Hi]|(i & call & Hi & _)].
  - rewrite Hrem in Hi. by apply elem_of_nil in Hi.
  - rewrite Hres in Hi. by apply elem_of_nil in Hi.
Qed.

End Doomed.

Lemma raises_view {B : Type} (e : exn) (m : nat) (t : task m B) :
  match view m t with
  | inl b => True
  | inr call => raises_call e call -> raises e m t
  end.
Proof.
  destruct m as [|m]; cbn [view raises]; [exact I|].
  destruct t as [b|resume]; [exact I|]. intros H. exact H.
Qed.

Section Culprit.

Context {A B : Type} {n : nat}.
Context (concurrency : nat) (mapper : A -> M (task n B)).

Lemma pMap_culprit (choices : list nat) (items : list A) (st : state) e st' :
  concurrency <> O ->
  pMap concurrency mapper choices items st = (Throw e, st') ->
  exists x, x ∈ items /\
    exists s, match mapper x s with
              | (Return t, _) => raises e n t
              | (Throw e', _) => e' = e
              end.
Proof.
  intros Hnz.
  set (C := fun e : exn => exists x, x ∈ items /\
    exists s, match mapper x s with
              | (Return t, _) => raises e n t
              | (Throw e', _) => e' = e
              end).
  set (Inv := fun (p : pool A B) (s : state) =>
    Forall (fun ix : nat * A => snd ix ∈ items) (remaining p) /\
    Forall (fun ic : nat * suspended B => forall e, raises_call e (snd ic) -> C e)
           (resolving p)).
  assert (Hcall : forall p s, Inv p s -> has_room concurrency p = true ->
            match call_next mapper p s with
            | (Return p', s') => Inv p' s'
            | (Throw e, s') => C e
            end).
  { intros p s [Hrem Hcalls] Hroom. unfold has_room in Hroom.
    destruct (remaining p) as [|[i x] rest] eqn:Hr; [discriminate|].
    pose proof (Forall_inv Hrem) as Hx. pose proof (Forall_inv_tail Hrem) as Hrest.
    cbn [snd] in Hx.
    rewrite (call_next_unfold mapper p i x rest s Hr).
    destruct (mapper x s) as [[t|e0] s'] eqn:Hm.
    - pose proof (fun e0 => raises_view e0 n t) as Hv.
      destruct (view n t) as [b|call]; (split; [exact Hrest|]); cbn [resolving];
        [exact Hcalls|].
      apply Forall_app. split; [exact Hcalls|]. constructor; [|constructor].
      intros e0 Hraise. exists x. split; [exact Hx|]. exists s. rewrite Hm.
      by apply Hv.
    - split; [exact Hrest|]. cbn [resolving].
      apply Forall_app. split; [exact Hcalls|]. constructor; [|constructor].
      intros e1 [s1 Hraise]. cbn in Hraise. exists x. split; [exact Hx|].
      exists s. by rewrite Hm. }
  assert (Hgo : forall j p s, Inv p s -> (j < length (resolving p))%nat ->
            match go_on j p s with
            | (Return p', s') => Inv p' s'
            | (Throw e, s') => C e
            end).
  { intros j p s [Hrem Hcalls] Hj.
    destruct (resolving p !! j) as [[i [m resume]]|] eqn:Hl;
      [|apply lookup_ge_None in Hl; unfold suspended in *; lia].
    rewrite (go_on_unfold p j i m resume s Hl).
    pose proof (Forall_lookup_1 _ _ _ _ Hcalls Hl) as Hcall'. cbn [snd] in Hcall'.
    destruct (resume s) as [[t|e0] s'] eqn:Hres.
    - pose proof (fun e0 => raises_view e0 m t) as Hv.
      destruct (view m t) as [b|call]; (split; [exact Hrem|]); cbn [resolving].
      + by apply Forall_delete.
      + apply Forall_insert; [exact Hcalls|]. intros e0 Hraise.
        apply Hcall'. exists s. cbn [projT1 projT2]. rewrite Hres. by apply Hv.
    - apply Hcall'. exists s. cbn [projT1 projT2]. by rewrite Hres. }
  assert (H0 : Inv (Pool (zip (seq 0 (length items)) items) []
                         (replicate (length items) None)) st).
  { split; [|constructor]. cbn [remaining]. apply Forall_forall.
    intros [i x] Hin. cbn [snd]. by apply elem_of_zip_r in Hin. }
  pose proof (pMap_invariant concurrency mapper Inv (fun e _ => C e)
                Hcall Hgo choices items st Hnz H0) as H.
  intros Hrun. rewrite Hrun in H. exact H.
Qed.

End Culprit.

(** ** The version marker *)

Section Marker.

Context (E : env).

(** What [getLocalVersion] reads from a marker that holds the text
    [JSON.stringify] wrote for a version string. *)
Lemma getLocalVersion_marker (dir v : list Z) (st : state) :
  wf_str v ->
  FS.exists_path (cwd E) (fs st) (version_file dir) = true ->
  FS.read_file (cwd E) (fs st) (version_file dir)
    = Return (utf8_encode (marker (JString v))) ->
  getLocalVersion E dir st
  = (Return (if truthy (JString v) then JString v else JNull), st).
Proof.
  intros Hv Hex Hread.
  unfold getLocalVersion. rewrite bind_unfold. unfold existsSync. rewrite Hex.
  cbn [negb]. unfold try_catch. rewrite bind_unfold. unfold readFileSync.
  rewrite Hread, marker_utf8 by assumption.
  rewrite bind_unfold, lift_return, parse_marker by assumption.
  rewrite bind_unfold, lift_return.
  change (get_prop (JObject [(js "version", JString v)]) (js "version"))
    with (Return (A:=JSValue) (JString v)).
  reflexivity.
Qed.

(** A marker saved for a version string is read back as that string,
    unless the string is empty, which reads as no version at all. *)
Lemma save_then_get (dir v : list Z) (st st' : state) :
  wf_str v ->
  saveLocalVersion E dir (JString v) st = (Return tt, st') ->
  getLocalVersion E dir st'
  = (Return (if truthy (JString v) then JString v else JNull), st').
Proof.
  intros Hv Hsave. unfold saveLocalVersion in Hsave.
  apply bind_inv in Hsave as (present & st1 & _ & Hsave).
  apply bind_inv in Hsave as ([] & st2 & _ & Hwrite).
  unfold writeFileSync in Hwrite.
  destruct (FS.write_file _ _ _ _) as [t'|e] eqn:Hw; [|discriminate].
  injection Hwrite as <-.
  apply write_file_read in Hw as [Hex Hread].
  by apply getLocalVersion_marker.
Qed.

End Marker.

(** ** The transfer pass *)

Section Pass.

Context (E : env).

Lemma fetch_unfold (url : list Z) (st : state) :
  fetch E url st =
  (match net E url with
   | NetworkError => Throw TypeError
   | Response status body => Return (status, body)
   end, fetched url st).
Proof.
  unfold fetch, reply. rewrite bind_unfold. cbn [log].
  by destruct (net E url).
Qed.

(** The marker file after [saveLocalVersion] has returned. *)
Lemma save_marker_on_disk (dir : list Z) (version : JSValue) (st st' : state) :
  saveLocalVersion E dir version st = (Return tt, st') ->
  FS.exists_path (cwd E) (fs st') (version_file dir) = true /\
  FS.read_file (cwd E) (fs st') (version_file dir)
    = Return (utf8_encode (marker version)).
Proof.
  intros Hsave. unfold saveLocalVersion in Hsave.
  apply bind_inv in Hsave as (present & st1 & _ & Hsave).
  apply bind_inv in Hsave as ([] & st2 & _ & Hwrite).
  unfold writeFileSync in Hwrite.
  destruct (FS.write_file _ _ _ _) as [t'|e] eqn:Hw; [|discriminate].
  injection Hwrite as <-. by apply write_file_read in Hw.
Qed.

Lemma update_try_transfer st version items st1 :
  reaches_transfer E st version items st1 ->
  update_try E st = transfer E version items st1.
Proof.
  intros (m & lv & files & t1 & t2 & Hm & Hlv & Hver & Hne & Ht1 & Ht2 & Hf & Hit).
  unfold update_try.
  rewrite (bind_return _ _ _ _ _ Hm), (bind_return _ _ _ _ _ Hlv).
  rewrite bind_unfold, lift_return, Hver, Hne.
  rewrite bind_unfold, lift_return, Ht1.
  rewrite bind_unfold, lift_return, Ht2.
  rewrite bind_unfold, lift_return, Hf.
  rewrite bind_unfold, lift_return, Hit.
  reflexivity.
Qed.

(** The path of an outcome was converted to text by the unit that
    produced it. *)
Lemma downloadFile_path_text (x : JSValue) (st st' : state) (o : outcome) :
  downloadFile E x st = (Return o, st') ->
  exists s, to_string (o_path o) = Return s.
Proof.
  unfold downloadFile. intros H.
  apply bind_inv in H as (path & st1 & Hp & H).
  apply bind_inv in H as (ptext & st2 & Ht & H).
  rewrite lift_return in Ht. injection Ht as Ht _.
  apply bind_inv in H as (res & st3 & _ & H).
  enough (o_path o = path) as -> by eauto.
  destruct (ok res); cbn [negb] in H; [|by injection H as <- _].
  apply bind_inv in H as (content & st4 & _ & H).
  apply bind_inv in H as (sha & st5 & _ & H).
  destruct (strict_eq _ sha); cbn [negb] in H; [|by injection H as <- _].
  apply bind_inv in H as (tp & st6 & _ & H).
  apply bind_inv in H as (present & st7 & _ & H).
  apply bind_inv in H as (? & st8 & _ & H).
  apply bind_inv in H as (? & st9 & _ & H).
  by injection H as <- _.
Qed.

Lemma array_map_length {A B : Type} (f : A -> M B) (items : list A) st rs st' :
  array_map f items st = (Return rs, st') -> length rs = length items.
Proof.
  revert st rs st'. induction items as [|x items IH]; intros st rs st' H.
  - by injection H as <- _.
  - cbn [array_map] in H.
    apply bind_inv in H as (y & st1 & _ & H).
    apply bind_inv in H as (ys & st2 & Hys & H).
    injection H as <- _. cbn [length]. f_equal. eauto.
Qed.

Lemma array_map_Forall {A B : Type} (f : A -> M B) (P : B -> Prop) :
  (forall x st y st', f x st = (Return y, st') -> P y) ->
  forall items st rs st',
    array_map f items st = (Return rs, st') -> Forall P rs.
Proof.
  intros Hf. induction items as [|x items IH]; intros st rs st' H.
  - injection H as <- _. constructor.
  - cbn [array_map] in H.
    apply bind_inv in H as (y & st1 & Hy & H).
    apply bind_inv in H as (ys & st2 & Hys & H).
    injection H as <- _. constructor; eauto.
Qed.


End Pass.

Lemma str_eqb_eq (a b : list Z) : str_eqb a b = true <-> a = b.
Proof. unfold str_eqb. apply bool_decide_eq_true. Qed.

Lemma strict_eq_string (s : list Z) (v : JSValue) :
  strict_eq (JString s) v = true <-> v = JString s.
Proof.
  destruct v; cbn [strict_eq]; try (split; [discriminate | discriminate]).
  rewrite str_eqb_eq. split; congruence.
Qed.

(** ** A transfer unit *)

Section Unit.

Context (E : env).

(** [downloadFile] once the response has arrived with a success status. *)
Lemma downloadFile_verify (mf path sha : JSValue) (ptext : list Z) (status : Z)
      (body : list byte) (st : state) :
  get_prop mf (js "path") = Return path ->
  to_string path = Return ptext ->
  net E (file_url ptext) = Response status (Some body) ->
  ok (status, Some body) = true ->
  get_prop mf (js "sha256") = Return sha ->
  downloadFile E mf st =
  (if strict_eq (JString (calculateSHA256 (utf8_decode_bom body))) sha
   then install E path (utf8_decode_bom body)
   else mret (mismatch path)) (fetched (file_url ptext) st).
Proof.
  intros Hp Ht Hnet Hok Hsha. unfold downloadFile.
  rewrite bind_unfold, lift_return, Hp.
  rewrite bind_unfold, lift_return, Ht.
  rewrite bind_unfold, fetch_unfold, Hnet, Hok. cbn [negb].
  rewrite bind_unfold. cbn [text snd mret M_ret].
  rewrite bind_unfold, lift_return, Hsha.
  by destruct (strict_eq _ sha).
Qed.

(** [install] never returns a failure. *)
Lemma install_outcome (path : JSValue) (content : list Z) (st st' : state) o :
  install E path content st = (Return o, st') -> o = Outcome path true None.
Proof.
  unfold install. intros H.
  apply bind_inv in H as (tp & st1 & _ & H).
  apply bind_inv in H as (present & st2 & _ & H).
  apply bind_inv in H as (? & st3 & _ & H).
  apply bind_inv in H as (? & st4 & _ & H).
  by injection H as <- _.
Qed.

(** When [install] returns, the path is a string and the target file
    holds the UTF-8 encoding of the content. *)
Lemma install_written (path : JSValue) (content : list Z) (st st' : state) o :
  install E path content st = (Return o, st') ->
  exists p, path = JString p /\
    FS.read_file (cwd E) (fs st') (Path.join [process_cwd E; p])
    = Return (utf8_encode content).
Proof.
  unfold install. intros H.
  apply bind_inv in H as (tp & st1 & Hjoin & H).
  unfold join_value, throw in Hjoin.
  destruct path; try discriminate. injection Hjoin as <- <-.
  apply bind_inv in H as (present & st2 & _ & H).
  apply bind_inv in H as (? & st3 & _ & H).
  apply bind_inv in H as ([] & st4 & Hwrite & H).
  injection H as _ <-. unfold writeFileSync in Hwrite.
  destruct (FS.write_file _ _ _ _) as [t'|e] eqn:Hw; [|discriminate].
  injection Hwrite as <-. apply write_file_read in Hw as [_ Hr]. eauto.
Qed.

(** What is known of a unit that reports success. *)
Lemma downloadFile_success (mf : JSValue) (st st' : state) (o : outcome) :
  downloadFile E mf st = (Return o, st') ->
  o_success o = true ->
  exists path status body,
    get_prop mf (js "path") = Return (JString path) /\
    net E (file_url path) = Response status (Some body) /\
    ok (status, Some body) = true /\
    get_prop mf (js "sha256")
      = Return (JString (calculateSHA256 (utf8_decode_bom body))) /\
    FS.read_file (cwd E) (fs st') (Path.join [process_cwd E; path])
      = Return (utf8_encode (utf8_decode_bom body)).
Proof.
  intros H Hs. pose proof H as H0. unfold downloadFile in H.
  apply bind_inv in H as (path & st1 & Hp & H).
  rewrite lift_return in Hp. injection Hp as Hp <-.
  apply bind_inv in H as (ptext & st2 & Ht & H).
  rewrite lift_return in Ht. injection Ht as Ht <-.
  apply bind_inv in H as (res & st3 & Hf & H).
  rewrite fetch_unfold in Hf.
  destruct (net E (file_url ptext)) as [|status body] eqn:Hnet; [discriminate|].
  injection Hf as <- <-.
  destruct (ok (status, body)) eqn:Hok; cbn [negb] in H;
    [|injection H as <- _; discriminate].
  destruct body as [body|]; [|discriminate].
  apply bind_inv in H as (content & st4 & _ & H).
  apply bind_inv in H as (sha & st5 & Hsha & _).
  rewrite lift_return in Hsha. injection Hsha as Hsha _.
  rewrite (downloadFile_verify mf path sha ptext status body st) in H0
    by assumption.
  destruct (strict_eq _ sha) eqn:Heq; [|injection H0 as <- _; discriminate].
  apply strict_eq_string in Heq as ->.
  apply install_written in H0 as (p & -> & Hr).
  cbn [to_string] in Ht. injection Ht as <-.
  exists p, status, body. by repeat split.
Qed.

End Unit.

Lemma text_decoder_no_bom (s : list Z) :
  wf_str s -> paired s = true -> hd 0 s <> 0xFEFF ->
  text_decoder (utf8_encode s) = s.
Proof.
  intros Hwf Hp Hhd. pose proof (utf8_roundtrip s Hwf Hp) as Hrt.
  unfold text_decoder.
  destruct (utf8_encode s) as [|b1 [|b2 [|b3 rest]]]; try assumption.
  - destruct b1; assumption.
  - destruct b1; try assumption; destruct b2; assumption.
  - destruct b1; try assumption; destruct b2; try assumption;
      destruct b3; try assumption.
    exfalso. apply Hhd. rewrite <- Hrt. reflexivity.
Qed.

Lemma utf8_decode_no_bom (s : list Z) :
  wf_str s -> paired s = true -> hd 0 s <> 0xFEFF ->
  utf8_decode_bom (utf8_encode s) = s.
Proof.
  intros Hwf Hp Hhd. pose proof (utf8_roundtrip s Hwf Hp) as Hrt.
  pose proof (text_decoder_no_bom s Hwf Hp Hhd) as Htd.
  unfold utf8_decode_bom.
  destruct (utf8_encode s) as [|b1 [|b2 [|b3 rest]]]; try assumption.
  - destruct b1; assumption.
  - destruct b1; try assumption; destruct b2; assumption.
  - destruct b1; try assumption; destruct b2; try assumption;
      destruct b3; try assumption.
    exfalso. apply Hhd. rewrite <- Hrt. reflexivity.
Qed.

(** C1, as stated, fails: the response body is a byte order mark followed
    by [hi] and the manifest declares the digest of [hi]. The digest of
    the bytes retrieved is not the declared one, yet the unit reports
    success and writes the file. *)
Lemma bom_body_is_installed :
  hex (SHA256.digest (xef :: xbb :: xbf :: World.hi)) <> World.sha_hi /\
  fst (downloadFile Bom.E Bom.file World.fresh)
  = Return (Outcome (JString (js "a.md")) true None) /\
  FS.read_file World.home (fs (snd (downloadFile Bom.E Bom.file World.fresh)))
               (js "/home/dev/a.md")
  = Return World.hi.
Proof. vm_compute. repeat split. discriminate. Qed.

(** C1 (as amended). When the digest a transfer unit computes, which is
    that of the response text encoded as UTF-8, differs from the hash the
    manifest declares for the file, the unit returns the outcome
    [{ success: false, error: "SHA256 mismatch" }] and its only effect
    is the fetch: the file system is as it was. *)
Theorem mismatch_is_reported_and_not_written
        (E : env) (mf path sha : JSValue) (ptext : list Z) (status : Z)
        (body : list byte) (st : state) :
  get_prop mf (js "path") = Return path ->
  to_string path = Return ptext ->
  net E (file_url ptext) = Response status (Some body) ->
  ok (status, Some body) = true ->
  get_prop mf (js "sha256") = Return sha ->
  sha <> JString (calculateSHA256 (utf8_decode_bom body)) ->
  downloadFile E mf st
  = (Return (Outcome path false (Some (js "SHA256 mismatch"))),
     State (fs st) (trace st ++ [EvFetch (file_url ptext)])).
Proof.
  intros Hp Ht Hnet Hok Hsha Hne.
  rewrite (downloadFile_verify E mf path sha ptext status body st) by assumption.
  destruct (strict_eq _ sha) eqn:Heq; [|reflexivity].
  by apply strict_eq_string in Heq.
Qed.

Lemma mismatch_is_reported_and_not_written_witness :
  downloadFile Plain.E Plain.file World.fresh
  = (Return (Outcome (JString (js "a.md")) false (Some (js "SHA256 mismatch"))),
     State (fs World.fresh)
           (trace World.fresh ++ [EvFetch (file_url (js "a.md"))])).
Proof.
  apply (mismatch_is_reported_and_not_written Plain.E Plain.file
           (JString (js "a.md")) (JString (js "00")) (js "a.md") 200 World.hi).
  - reflexivity.
  - reflexivity.
  - vm_compute. reflexivity.
  - reflexivity.
  - reflexivity.
  - vm_compute. discriminate.
Defined.

(** C6, as stated, fails: the manifest declares the digest of [hi] in
    upper case. It is the computed digest up to the case of the letters,
    yet verification fails and the unit reports a mismatch. *)
Lemma upper_case_hash_is_rejected :
  same_hex Upper.declared (hex (SHA256.digest World.hi)) /\
  verify World.hi (JString Upper.declared) = false /\
  fst (downloadFile Upper.E Upper.file World.fresh)
  = Return (Outcome (JString (js "a.md")) false (Some (js "SHA256 mismatch"))).
Proof. vm_compute. repeat split. Qed.

(** C6 (as amended). Verification succeeds exactly when the declared hash
    is the string the program computes, the lower-case hexadecimal digest
    of the response text encoded as UTF-8, character for character; and
    the outcome of verification is what decides between installing the
    file and reporting a mismatch. *)
Theorem verification_is_exact
        (E : env) (mf path sha : JSValue) (ptext : list Z) (status : Z)
        (body : list byte) (st : state) :
  get_prop mf (js "path") = Return path ->
  to_string path = Return ptext ->
  net E (file_url ptext) = Response status (Some body) ->
  ok (status, Some body) = true ->
  get_prop mf (js "sha256") = Return sha ->
  (verify body sha = true
   <-> sha = JString (hex (SHA256.digest (utf8_encode (utf8_decode_bom body)))))
  /\ (fst (downloadFile E mf st)
      = Return (Outcome path false (Some (js "SHA256 mismatch")))
      <-> verify body sha = false).
Proof.
  intros Hp Ht Hnet Hok Hsha. split; [apply strict_eq_string|].
  rewrite (downloadFile_verify E mf path sha ptext status body st) by assumption.
  fold (verify body sha). destruct (verify body sha).
  - split; [|discriminate]. intros H.
    destruct (install _ _ _ _) as [[o|e] st'] eqn:Hi; [|discriminate].
    apply install_outcome in Hi as ->. discriminate.
  - split; reflexivity.
Qed.

Lemma verification_is_exact_witness :
  (verify World.hi (JString World.sha_hi) = true
   <-> JString World.sha_hi
       = JString (hex (SHA256.digest (utf8_encode (utf8_decode_bom World.hi)))))
  /\ (fst (downloadFile Plain.E (World.entry (js "a.md") World.sha_hi) World.fresh)
      = Return (Outcome (JString (js "a.md")) false (Some (js "SHA256 mismatch")))
      <-> verify World.hi (JString World.sha_hi) = false).
Proof.
  apply (verification_is_exact Plain.E (World.entry (js "a.md") World.sha_hi)
           (JString (js "a.md")) (JString World.sha_hi) (js "a.md") 200 World.hi).
  - reflexivity.
  - reflexivity.
  - vm_compute. reflexivity.
  - reflexivity.
  - reflexivity.
Defined.

(** C7, as stated, fails: the response body is the single byte [ff],
    which is not UTF-8. The text of the response is U+FFFD; the digest
    compared is that of its three-byte encoding, not of the body, and
    those three bytes are what is written. *)
Lemma invalid_byte_is_replaced :
  verify [xff] (JString (hex (SHA256.digest [xff]))) = false /\
  verify [xff] (JString (hex (SHA256.digest Invalid.replacement))) = true /\
  fst (downloadFile Invalid.E Invalid.file World.fresh)
  = Return (Outcome (JString (js "a.md")) true None) /\
  FS.read_file World.home (fs (snd (downloadFile Invalid.E Invalid.file World.fresh)))
               (js "/home/dev/a.md")
  = Return Invalid.replacement /\
  Invalid.replacement <> [xff].
Proof. vm_compute. repeat split. discriminate. Qed.

(** C7 (as amended). A unit that reports success has received a body
    with a success status; the declared hash is the digest of the
    response text encoded as UTF-8, and the file at the target path holds
    exactly those bytes. They are the bytes of the body whenever the body
    is the UTF-8 encoding of a well-formed string that does not start
    with a byte order mark. *)
Theorem installed_bytes_are_the_digested_bytes
        (E : env) (mf : JSValue) (st st' : state) (o : outcome) :
  downloadFile E mf st = (Return o, st') ->
  o_success o = true ->
  exists path status body,
    get_prop mf (js "path") = Return (JString path) /\
    net E (file_url path) = Response status (Some body) /\
    get_prop mf (js "sha256")
      = Return (JString (hex (SHA256.digest
                                (utf8_encode (utf8_decode_bom body))))) /\
    FS.read_file (cwd E) (fs st') (Path.join [process_cwd E; path])
      = Return (utf8_encode (utf8_decode_bom body)) /\
    (forall s, wf_str s -> paired s = true -> hd 0 s <> 0xFEFF ->
               body = utf8_encode s ->
               utf8_encode (utf8_decode_bom body) = body).
Proof.
  intros H Hs.
  destruct (downloadFile_success E mf st st' o H Hs)
    as (path & status & body & Hp & Hnet & _ & Hsha & Hr).
  exists path, status, body. repeat split; try assumption.
  intros s Hwf Hpair Hhd ->. by rewrite utf8_decode_no_bom.
Qed.

Lemma installed_bytes_are_the_digested_bytes_witness :
  exists path status body,
    get_prop (World.entry (js "a.md") World.sha_hi) (js "path")
      = Return (JString path) /\
    net Plain.E (file_url path) = Response status (Some body) /\
    get_prop (World.entry (js "a.md") World.sha_hi) (js "sha256")
      = Return (JString (hex (SHA256.digest
                                (utf8_encode (utf8_decode_bom body))))) /\
    FS.read_file (cwd Plain.E)
      (fs (snd (downloadFile Plain.E (World.entry (js "a.md") World.sha_hi)
                             World.fresh)))
      (Path.join [process_cwd Plain.E; path])
      = Return (utf8_encode (utf8_decode_bom body)) /\
    (forall s, wf_str s -> paired s = true -> hd 0 s <> 0xFEFF ->
               body = utf8_encode s ->
               utf8_encode (utf8_decode_bom body) = body).
Proof.
  apply (installed_bytes_are_the_digested_bytes Plain.E
           (World.entry (js "a.md") World.sha_hi) World.fresh _
           (Outcome (JString (js "a.md")) true None)).
  - vm_compute. reflexivity.
  - reflexivity.
Defined.

(** ** The manifest *)

Lemma fetchRemoteManifest_unfold (E : env) (st : state) :
  fetchRemoteManifest E st = (manifest_answer E, fetched manifest_url st).
Proof.
  unfold fetchRemoteManifest, manifest_answer.
  rewrite bind_unfold, fetch_unfold.
  destruct (net E manifest_url) as [|status body]; [reflexivity|].
  destruct (ok (status, body)); cbn [negb]; [|reflexivity].
  unfold json. rewrite bind_unfold. unfold text. cbn [snd].
  by destruct body.
Qed.

(** C4, as stated, fails: the body [{}] has neither [version] nor
    [files], and [fetchRemoteManifest] returns the empty object it
    denotes. *)
Lemma empty_object_is_returned :
  fst (fetchRemoteManifest EmptyObject.E World.fresh) = Return (JObject []) /\
  get_prop (JObject []) (js "version") = Return JUndefined /\
  get_prop (JObject []) (js "files") = Return JUndefined.
Proof. vm_compute. repeat split. Qed.

(** C4 (as amended). [fetchRemoteManifest] performs one fetch and fails
    in four cases only: the network gives no answer, the status is not a
    success, the body cannot be read, or the body is not a JSON text.
    Otherwise it returns the value the body denotes, whatever its shape. *)
Theorem manifest_is_any_json_value (E : env) (st : state) :
  fetchRemoteManifest E st =
  (match net E manifest_url with
   | NetworkError => Throw TypeError
   | Response status body =>
       if (200 <=? status) && (status <=? 299) then
         match body with
         | Some b => JSON.parse (utf8_decode_bom b)
         | None => Throw TypeError
         end
       else Throw (Error "Failed to fetch remote manifest")
   end,
   State (fs st) (trace st ++ [EvFetch manifest_url])).
Proof. apply fetchRemoteManifest_unfold. Qed.

(** ** The local version *)

(** C8, as stated, fails in its last clause: the marker file is there,
    can be read, and holds a JSON object whose [version] field is the
    empty string; [getLocalVersion] returns [null], not that string. *)
Lemma empty_version_reads_as_absent :
  stored_version Stored.E (js "/home/dev") Stored.st = Some (JString []) /\
  fst (getLocalVersion Stored.E (js "/home/dev") Stored.st) = Return JNull.
Proof. vm_compute. repeat split. Qed.

(** What [getLocalVersion] returns, in terms of the version stored in the
    marker file; the state is left as it is. *)
Lemma getLocalVersion_unfold (E : env) (dir : list Z) (st : state) :
  getLocalVersion E dir st =
  (Return match stored_version E dir st with
          | Some version => if truthy version then version else JNull
          | None => JNull
          end, st).
Proof.
  unfold getLocalVersion, stored_version.
  rewrite bind_unfold. unfold existsSync.
  destruct (FS.exists_path _ _ _); cbn [negb]; [|reflexivity].
  unfold try_catch. rewrite bind_unfold. unfold readFileSync.
  destruct (FS.read_file _ _ _) as [c|e]; [|reflexivity].
  rewrite bind_unfold, lift_return.
  destruct (JSON.parse _) as [j|e]; [|reflexivity].
  rewrite bind_unfold, lift_return.
  destruct j; try reflexivity.
  cbn [get_prop]. by destruct (lookup_field _ _).
Qed.

(** C8 (as amended). [getLocalVersion] always returns and leaves the
    state as it is. It returns [null] when the marker file is absent,
    cannot be read, does not hold a JSON object with a [version] field,
    or holds a [version] that is falsy (the empty string, zero, [false],
    [null]); otherwise it returns the stored version. *)
Theorem getLocalVersion_never_throws (E : env) (dir : list Z) (st : state) :
  getLocalVersion E dir st =
  (Return match stored_version E dir st with
          | Some version => if truthy version then version else JNull
          | None => JNull
          end, st).
Proof. apply getLocalVersion_unfold. Qed.

(** C10. After [saveLocalVersion(dir, v)] has returned for a string [v],
    [getLocalVersion(dir)] returns [v] if [v] is not empty, and [null] if
    it is. *)
Theorem version_marker_roundtrip (E : env) (dir v : list Z) (st st' : state) :
  wf_str v ->
  saveLocalVersion E dir (JString v) st = (Return tt, st') ->
  (v <> [] -> getLocalVersion E dir st' = (Return (JString v), st')) /\
  (v = [] -> getLocalVersion E dir st' = (Return JNull, st')).
Proof.
  intros Hv Hsave. rewrite (save_then_get E dir v st st' Hv Hsave).
  cbn [truthy]. unfold str_eqb. split.
  - intros Hne. by rewrite bool_decide_eq_false_2.
  - intros ->. reflexivity.
Qed.

Lemma version_marker_roundtrip_witness :
  let st' := snd (saveLocalVersion Stored.E (js "/srv/app") (JString (js "1.2.0"))
                                   World.fresh) in
  getLocalVersion Stored.E (js "/srv/app") st' = (Return (JString (js "1.2.0")), st').
Proof.
  intros st'.
  apply (version_marker_roundtrip Stored.E (js "/srv/app") (js "1.2.0")
           World.fresh st').
  - unfold wf_str. repeat constructor; unfold wf_unit; cbn; lia.
  - vm_compute. reflexivity.
  - discriminate.
Defined.

(** ** The whole pass *)

Section Update.

Context (E : env).

Lemma update_unfold (st : state) :
  update E st =
  match update_try E st with
  | (Return r, st') => (r, st')
  | (Throw e, st') => (Failed e, st')
  end.
Proof. reflexivity. Qed.

(** The manifest is a well-formed value. *)
Lemma manifest_wf (st st1 : state) (m : JSValue) :
  fetchRemoteManifest E st = (Return m, st1) -> wf_value m.
Proof.
  rewrite fetchRemoteManifest_unfold. intros [= Hm _]. unfold manifest_answer in Hm.
  destruct (net E manifest_url) as [|status [b|]]; try discriminate;
    destruct (ok _); try discriminate.
  by apply (parse_wf (utf8_decode_bom b) m (utf8_decode_bom_wf b)).
Qed.

(** The pass when the local version is strictly equal to the version the
    manifest holds. *)
Lemma update_equal (st st1 : state) (m lv version : JSValue) (t : list Z) :
  fetchRemoteManifest E st = (Return m, st1) ->
  getLocalVersion E (process_cwd E) st1 = (Return lv, st1) ->
  get_prop m (js "version") = Return version ->
  strict_eq lv version = true ->
  to_string lv = Return t ->
  update E st = (UpToDate lv, st1).
Proof.
  intros Hm Hlv Hver Heq Ht. rewrite update_unfold. unfold update_try.
  rewrite (bind_return _ _ _ _ _ Hm), (bind_return _ _ _ _ _ Hlv).
  rewrite bind_unfold, lift_return, Hver, Heq.
  by rewrite bind_unfold, lift_return, Ht.
Qed.

(** A pass that ends as up to date has fetched the manifest and found
    the local version strictly equal to its version. *)
Lemma update_up_to_date_inv (st st' : state) (lv : JSValue) :
  update E st = (UpToDate lv, st') ->
  exists m version t,
    st' = fetched manifest_url st /\
    fetchRemoteManifest E st = (Return m, st') /\
    getLocalVersion E (process_cwd E) st' = (Return lv, st') /\
    get_prop m (js "version") = Return version /\
    strict_eq lv version = true /\
    to_string lv = Return t.
Proof.
  rewrite update_unfold.
  destruct (update_try E st) as [[r|e] st2] eqn:H; [|discriminate].
  intros [= -> ->]. unfold update_try in H.
  apply bind_inv in H as (m & st1 & Hm & H).
  pose proof Hm as Hm'. rewrite fetchRemoteManifest_unfold in Hm'.
  injection Hm' as _ <-.
  apply bind_inv in H as (lv' & st3 & Hlv & H).
  pose proof Hlv as Hlv'. rewrite getLocalVersion_unfold in Hlv'.
  injection Hlv' as _ <-.
  apply bind_inv in H as (version & st4 & Hver & H).
  rewrite lift_return in Hver. injection Hver as Hver <-.
  destruct (strict_eq lv' version) eqn:Heq.
  - apply bind_inv in H as (t & st5 & Ht & H).
    rewrite lift_return in Ht. injection Ht as Ht <-.
    injection H as <- <-. exists m, version, t. by repeat split.
  - apply bind_inv in H as (? & ? & _ & H).
    apply bind_inv in H as (? & ? & _ & H).
    apply bind_inv in H as (? & ? & _ & H).
    apply bind_inv in H as (? & ? & _ & H).
    apply bind_inv in H as (? & ? & _ & H).
    apply bind_inv in H as (? & ? & _ & H).
    apply bind_inv in H as (? & ? & _ & H).
    discriminate.
Qed.

(** A pass that ends as [Updated] has saved the version of the manifest
    as its last step. *)
Lemma update_updated_inv (st st' : state) (results : list outcome) :
  update E st = (Updated results, st') ->
  exists m version st0,
    fetchRemoteManifest E st = (Return m, fetched manifest_url st) /\
    get_prop m (js "version") = Return version /\
    saveLocalVersion E (process_cwd E) version st0 = (Return tt, st').
Proof.
  rewrite update_unfold.
  destruct (update_try E st) as [[r|e] st2] eqn:H; [|discriminate].
  intros [= -> ->]. unfold update_try in H.
  apply bind_inv in H as (m & st1 & Hm & H).
  rewrite fetchRemoteManifest_unfold in Hm. injection Hm as Hm <-.
  apply bind_inv in H as (lv & st3 & _ & H).
  apply bind_inv in H as (version & st4 & Hver & H).
  rewrite lift_return in Hver. injection Hver as Hver _.
  destruct (strict_eq lv version).
  { apply bind_inv in H as (? & ? & _ & H). discriminate. }
  apply bind_inv in H as (? & ? & _ & H).
  apply bind_inv in H as (? & ? & _ & H).
  apply bind_inv in H as (? & ? & _ & H).
  apply bind_inv in H as (? & ? & _ & H).
  apply bind_inv in H as (rs & ? & _ & H).
  apply bind_inv in H as (? & ? & _ & H).
  apply bind_inv in H as ([] & st5 & Hsave & H).
  injection H as _ <-.
  exists m, version. eexists. rewrite fetchRemoteManifest_unfold, Hm. eauto.
Qed.

End Update.

(** C2, as stated, fails in its last clause: with a manifest whose
    version is the empty string, the marker written by a first run reads
    back as no version, and a second run against the same manifest
    transfers again. *)
Lemma empty_version_is_transferred_again :
  fst (update EmptyVersion.E World.fresh) = Updated [EmptyVersion.missing] /\
  fst (update EmptyVersion.E (snd (update EmptyVersion.E World.fresh))) = Updated [EmptyVersion.missing].
Proof. vm_compute. split; reflexivity. Qed.

(** C2 (as amended). When the local version is the very string the
    manifest holds as its version, the run ends as up to date: it has
    fetched the manifest and done nothing else, and the file system is
    as it was. Hence a run that follows, against the same manifest, a run
    that ended as up to date or by writing the marker, ends as up to
    date; for a run that wrote the marker this holds provided the version
    of the manifest is not the empty string. *)
Theorem up_to_date_is_a_no_op (E : env) (st st1 : state) (m : JSValue)
        (v : list Z) :
  fetchRemoteManifest E st = (Return m, st1) ->
  get_prop m (js "version") = Return (JString v) ->
  (getLocalVersion E (process_cwd E) st1 = (Return (JString v), st1) ->
   update E st = (UpToDate (JString v), st1) /\
   fs st1 = fs st /\
   trace st1 = trace st ++ [EvFetch manifest_url])
  /\
  (forall version st',
     update E st = (UpToDate version, st') ->
     update E st'
     = (UpToDate version, State (fs st') (trace st' ++ [EvFetch manifest_url])))
  /\
  (v <> [] ->
   forall results st',
     update E st = (Updated results, st') ->
     update E st'
     = (UpToDate (JString v), State (fs st') (trace st' ++ [EvFetch manifest_url]))).
Proof.
  intros Hm Hver. split; [|split].
  - intros Hlv. split.
    + apply (update_equal E st st1 m (JString v) (JString v) v); try assumption.
      * by apply strict_eq_string.
      * reflexivity.
    + rewrite fetchRemoteManifest_unfold in Hm. by injection Hm as _ <-.
  - intros lv st' Hup.
    apply update_up_to_date_inv in Hup
      as (m' & version & t & -> & Hm' & Hlv & Hver' & Heq & Ht).
    apply (update_equal E _ _ m' lv version t); try assumption.
    + rewrite fetchRemoteManifest_unfold in Hm' |- *. by injection Hm' as ->.
    + rewrite getLocalVersion_unfold in Hlv |- *. injection Hlv as <-.
      reflexivity.
  - intros Hne results st' Hup.
    pose proof (get_prop_wf m (js "version") v (manifest_wf E st st1 m Hm) Hver)
      as Hwf.
    apply update_updated_inv in Hup as (m' & version & st0 & Hm' & Hver' & Hsave).
    rewrite fetchRemoteManifest_unfold in Hm, Hm'.
    assert (m' = m) as -> by congruence.
    assert (version = JString v) as -> by congruence.
    apply save_marker_on_disk in Hsave as [Hex Hread].
    apply (update_equal E st' _ m (JString v) (JString v) v).
    + rewrite fetchRemoteManifest_unfold. by injection Hm as -> _.
    + rewrite (getLocalVersion_marker E (process_cwd E) v) by assumption.
      cbn [truthy]. unfold str_eqb. by rewrite bool_decide_eq_false_2.
    + assumption.
    + by apply strict_eq_string.
    + reflexivity.
Qed.

Lemma up_to_date_is_a_no_op_witness :
  update Release.E Release.after
  = (UpToDate (JString (js "1.2.0")),
     State (fs Release.after) (trace Release.after ++ [EvFetch manifest_url])).
Proof.
  apply (proj2 (proj2 (up_to_date_is_a_no_op Release.E World.fresh
                  Release.started Release.manifest (js "1.2.0")
                  ltac:(vm_compute; reflexivity) ltac:(reflexivity)))
           ltac:(discriminate) Release.results Release.after).
  vm_compute. reflexivity.
Defined.

(** ** What a computation preserves *)

Section Preserved.

Context (R : gmap (list (list Z)) node -> gmap (list (list Z)) node -> Prop).
Context `{!PreOrder R}.

Lemma preserves_ret {A : Type} (a : A) : preserves R (mret a).
Proof. intros st r st' H. injection H as _ <-. reflexivity. Qed.

Lemma preserves_throw {A : Type} (e : exn) : preserves R (@throw A e).
Proof. intros st r st' H. injection H as _ <-. reflexivity. Qed.

Lemma preserves_lift {A : Type} (x : result A) : preserves R (lift x).
Proof. intros st r st' H. injection H as _ <-. reflexivity. Qed.

Lemma preserves_bind {A B : Type} (m : M A) (f : A -> M B) :
  preserves R m -> (forall a, preserves R (f a)) -> preserves R (m ≫= f).
Proof.
  intros Hm Hf st r st' H. rewrite bind_unfold in H.
  destruct (m st) as [[a|e] st1] eqn:Hrun.
  - etransitivity; [apply (Hm _ _ _ Hrun)|apply (Hf _ _ _ _ H)].
  - injection H as _ <-. apply (Hm _ _ _ Hrun).
Qed.

Lemma preserves_try_catch {A : Type} (body : M A) (handler : exn -> M A) :
  preserves R body -> (forall e, preserves R (handler e)) ->
  preserves R (try_catch body handler).
Proof.
  intros Hb Hh st r st' H. unfold try_catch in H.
  destruct (body st) as [[a|e] st1] eqn:Hrun.
  - injection H as _ <-. apply (Hb _ _ _ Hrun).
  - etransitivity; [apply (Hb _ _ _ Hrun)|apply (Hh _ _ _ _ H)].
Qed.

Lemma preserves_log (ev : event) : preserves R (log ev).
Proof. intros st r st' H. injection H as _ <-. reflexivity. Qed.

Lemma preserves_fetch (E : env) (url : list Z) : preserves R (fetch E url).
Proof.
  unfold fetch, reply. apply preserves_bind; [apply preserves_log|]. intros _.
  destruct (net E url); [apply preserves_throw|apply preserves_ret].
Qed.

Lemma preserves_fetch_head (head : list Z -> fetch_result) (url : list Z) :
  preserves R (fetch_head head url).
Proof.
  unfold fetch_head. apply preserves_bind; [apply preserves_log|]. intros _.
  destruct (head url); [apply preserves_throw|apply preserves_ret].
Qed.

Lemma preserves_existsSync (E : env) (p : list Z) : preserves R (existsSync E p).
Proof. intros st r st' H. injection H as _ <-. reflexivity. Qed.

Lemma preserves_readFileSync (E : env) (p : list Z) : preserves R (readFileSync E p).
Proof.
  intros st r st' H. unfold readFileSync in H.
  destruct (FS.read_file (cwd E) (fs st) p); injection H as _ <-; reflexivity.
Qed.

Lemma preserves_text (res : Z * option (list byte)) : preserves R (text res).
Proof. unfold text. destruct (snd res); [apply preserves_ret|apply preserves_throw]. Qed.

Lemma preserves_json (res : Z * option (list byte)) : preserves R (json res).
Proof.
  unfold json. apply preserves_bind; [apply preserves_text|]. intros t.
  apply preserves_lift.
Qed.

Lemma preserves_join_value (a : list Z) (b : JSValue) : preserves R (join_value a b).
Proof. destruct b; first [apply preserves_ret|apply preserves_throw]. Qed.

Lemma preserves_array_map {A B : Type} (f : A -> M B) (items : list A) :
  (forall x, preserves R (f x)) -> preserves R (array_map f items).
Proof.
  intros Hf. induction items as [|x items IH]; cbn [array_map].
  - apply preserves_ret.
  - apply preserves_bind; [apply Hf|]. intros y.
    apply preserves_bind; [exact IH|]. intros ys. apply preserves_ret.
Qed.

Lemma preserves_for_of {A : Type} (items : list A) (body : A -> M unit) :
  (forall x, preserves R (body x)) -> preserves R (for_of items body).
Proof.
  intros Hf. induction items as [|x items IH]; cbn [for_of].
  - apply preserves_ret.
  - apply preserves_bind; [apply Hf|]. intros _. exact IH.
Qed.

Lemma preserves_for_of_In {A : Type} (items : list A) (body : A -> M unit) :
  (forall x, In x items -> preserves R (body x)) -> preserves R (for_of items body).
Proof.
  induction items as [|x items IH]; intros Hf; cbn [for_of].
  - apply preserves_ret.
  - apply preserves_bind; [apply Hf; left; reflexivity|]. intros _.
    apply IH. intros y Hy. apply Hf. right. exact Hy.
Qed.

(** The same as [preserves_bind], for a continuation that preserves [R]
    on the values the first computation can return. *)
Lemma preserves_bind_post {A B : Type} (Q : A -> Prop) (m : M A) (f : A -> M B) :
  (forall st a st', m st = (Return a, st') -> Q a) ->
  preserves R m -> (forall a, Q a -> preserves R (f a)) -> preserves R (m ≫= f).
Proof.
  intros HQ Hm Hf st r st' H. rewrite bind_unfold in H.
  destruct (m st) as [[a|e] st1] eqn:Hrun.
  - etransitivity; [apply (Hm _ _ _ Hrun)|apply (Hf _ (HQ _ _ _ Hrun) _ _ _ H)].
  - injection H as _ <-. apply (Hm _ _ _ Hrun).
Qed.

Lemma preserves_getLocalVersion (E : env) (dir : list Z) :
  preserves R (getLocalVersion E dir).
Proof.
  intros st r st' H. rewrite getLocalVersion_unfold in H.
  injection H as _ <-. reflexivity.
Qed.

Lemma preserves_fetchRemoteManifest (E : env) : preserves R (fetchRemoteManifest E).
Proof.
  intros st r st' H. rewrite fetchRemoteManifest_unfold in H.
  injection H as _ <-. reflexivity.
Qed.

End Preserved.

(** ** A transfer unit in flight *)

#[local] Instance any_preorder : PreOrder any.
Proof. split; [intros t; exact I|intros t1 t2 t3 _ _; exact I]. Qed.

Lemma bind_mret {A : Type} (m : M A) (st : state) : (m ≫= mret) st = m st.
Proof. rewrite bind_unfold. by destruct (m st) as [[a|e] st']. Qed.

Section Flight.

Context (E : env).

Lemma downloadFile_awaited (x : JSValue) (st : state) :
  (downloadFile_async E x ≫= complete 2) st = downloadFile E x st.
Proof.
  unfold downloadFile_async, downloadFile, fetch.
  rewrite !bind_unfold, !lift_return.
  destruct (get_prop x (js "path")) as [path|e]; [|reflexivity].
  rewrite !bind_unfold, !lift_return.
  destruct (to_string path) as [ptext|e]; [|reflexivity].
  rewrite !bind_unfold. cbn [log mret M_ret complete].
  rewrite !bind_unfold.
  destruct (reply E (file_url ptext) _) as [[res|e] st1]; [|reflexivity].
  destruct (ok res); cbn [negb mret M_ret complete]; [|reflexivity].
  apply bind_mret.
Qed.


Lemma traceless_lift {A : Type} (r : result A) : traceless (lift r).
Proof. intros st st' Hfs. by split. Qed.

Lemma traceless_bind {A B : Type} (m : M A) (f : A -> M B) :
  traceless m -> (forall a, traceless (f a)) -> traceless (m ≫= f).
Proof.
  intros Hm Hf st st' Hfs. rewrite !bind_unfold.
  destruct (Hm st st' Hfs) as [H1 H2].
  destruct (m st) as [[a|e] s1], (m st') as [[a'|e'] s1'];
    cbn [fst snd] in H1, H2; try discriminate.
  - injection H1 as <-. by apply Hf.
  - injection H1 as <-. by split.
Qed.

Lemma traceless_existsSync (p : list Z) : traceless (existsSync E p).
Proof. intros st st' Hfs. unfold existsSync. cbn [fst snd]. by rewrite Hfs. Qed.

Lemma traceless_mkdirSync (p : list Z) : traceless (mkdirSync E p).
Proof.
  intros st st' Hfs. unfold mkdirSync. rewrite Hfs.
  by destruct (FS.mkdir_p (cwd E) (fs st') p).
Qed.

Lemma traceless_writeFileSync (p data : list Z) : traceless (writeFileSync E p data).
Proof.
  intros st st' Hfs. unfold writeFileSync. cbv zeta. rewrite Hfs.
  by destruct (FS.write_file (cwd E) (fs st') p (utf8_encode data)).
Qed.

Lemma traceless_install (path : JSValue) (content : list Z) :
  traceless (install E path content).
Proof.
  unfold install.
  apply traceless_bind;
    [destruct path; apply (traceless_lift (Return _)) || apply (traceless_lift (Throw _))|].
  intros tp. apply traceless_bind; [apply traceless_existsSync|]. intros present.
  apply traceless_bind;
    [destruct (negb present); [apply traceless_mkdirSync|apply (traceless_lift (Return tt))]|].
  intros _. apply traceless_bind; [apply traceless_writeFileSync|]. intros _.
  apply (traceless_lift (Return _)).
Qed.

(** The unit of a file whose request is answered with a status that is
    no success. *)
Lemma downloadFile_http (mf path : JSValue) (ptext : list Z) (status : Z)
      (body : option (list byte)) (st : state) :
  get_prop mf (js "path") = Return path ->
  to_string path = Return ptext ->
  net E (file_url ptext) = Response status body ->
  ok (status, body) = false ->
  downloadFile E mf st
  = (Return (Outcome path false (Some (js "HTTP " ++ dec_digits status))),
     State (fs st) (trace st ++ [EvFetch (file_url ptext)])).
Proof.
  intros Hp Ht Hnet Hok. unfold downloadFile.
  rewrite bind_unfold, lift_return, Hp.
  rewrite bind_unfold, lift_return, Ht.
  by rewrite bind_unfold, fetch_unfold, Hnet, Hok.
Qed.

(** Each step of the call of a file keeps [R], as far as making a
    directory and writing a file do; and the value of the call is an
    outcome of the file. *)
Lemma downloadFile_async_lawful
      (R : gmap (list (list Z)) node -> gmap (list (list Z)) node -> Prop)
      `{!PreOrder R} :
  (forall p, preserves R (mkdirSync E p)) ->
  (forall p data, preserves R (writeFileSync E p data)) ->
  forall x st r st',
    downloadFile_async E x st = (r, st') ->
    R (fs st) (fs st') /\
    match r with
    | Return t => lawful R (outcome_of E x) 2 t
    | Throw _ => True
    end.
Proof.
  intros Hmkdir Hwrite x st r st'. unfold downloadFile_async.
  rewrite bind_unfold, lift_return.
  destruct (get_prop x (js "path")) as [path|e] eqn:Hp;
    [|intros [= <- <-]; split; [reflexivity|exact I]].
  rewrite bind_unfold, lift_return.
  destruct (to_string path) as [ptext|e] eqn:Ht;
    [|intros [= <- <-]; split; [reflexivity|exact I]].
  rewrite bind_unfold. cbn [log mret M_ret]. intros [= <- <-].
  split; [reflexivity|]. cbn [lawful fs].
  intros s1 r1 s1'. rewrite bind_unfold. unfold reply.
  destruct (net E (file_url ptext)) as [|status body] eqn:Hnet;
    [intros [= <- <-]; split; [reflexivity|exact I]|].
  cbn [mret M_ret]. destruct (ok (status, body)) eqn:Hok; cbn [negb fst];
    intros [= <- <-]; (split; [reflexivity|]); cbn [lawful].
  - intros s2 r2 s2' Hrun. split.
    + revert Hrun. generalize s2 r2 s2'.
      change (preserves R
        (content ← text (status, body);
         let actualSHA256 := calculateSHA256 content in
         sha256 ← lift (get_prop x (js "sha256"));
         if negb (strict_eq (JString actualSHA256) sha256) then
           mret (Outcome path false (Some (js "SHA256 mismatch")))
         else
           targetPath ← join_value (process_cwd E) path;
           let targetDir := Path.dirname targetPath in
           present ← existsSync E targetDir;
           _ ← (if negb present then mkdirSync E targetDir else mret tt);
           _ ← writeFileSync E targetPath content;
           mret (Outcome path true None))).
      apply (preserves_bind R); [apply (preserves_text R)|]. intros content. cbv zeta.
      apply (preserves_bind R); [apply (preserves_lift R)|]. intros sha.
      destruct (negb _); [apply (preserves_ret R)|].
      apply (preserves_bind R); [apply (preserves_join_value R)|]. intros tp.
      apply (preserves_bind R); [apply (preserves_existsSync R)|]. intros present.
      apply (preserves_bind R);
        [destruct (negb present); [apply Hmkdir|apply (preserves_ret R)]|]. intros _.
      apply (preserves_bind R); [apply Hwrite|]. intros _. apply (preserves_ret R).
    + destruct r2 as [o|e]; [|exact I].
      apply bind_inv in Hrun as (content & s3 & Htext & Hrun).
      unfold text in Htext. cbn [snd] in Htext.
      destruct body as [b|]; [|discriminate]. injection Htext as <- <-.
      cbv zeta in Hrun.
      apply bind_inv in Hrun as (sha & s4 & Hsha & Hrun).
      rewrite lift_return in Hsha. injection Hsha as Hsha <-.
      pose proof (downloadFile_verify E x path sha ptext status b s2
                    Hp Ht Hnet Hok Hsha) as Hseq.
      change (match sha with
              | JString y => str_eqb (calculateSHA256 (utf8_decode_bom b)) y
              | _ => false
              end)
        with (strict_eq (JString (calculateSHA256 (utf8_decode_bom b))) sha) in Hrun.
      destruct (strict_eq (JString (calculateSHA256 (utf8_decode_bom b))) sha)
        eqn:Heq; cbn [negb] in Hrun.
      * change (install E path (utf8_decode_bom b) s2 = (Return o, s2')) in Hrun.
        pose proof (install_outcome E _ _ _ _ _ Hrun) as ->.
        split.
        { exists s2,
            (snd (install E path (utf8_decode_bom b) (fetched (file_url ptext) s2))).
          rewrite Hseq.
          destruct (traceless_install path (utf8_decode_bom b)
                      (fetched (file_url ptext) s2) s2 eq_refl) as [Hfst _].
          rewrite Hrun in Hfst. cbn [fst] in Hfst.
          destruct (install E path (utf8_decode_bom b) (fetched (file_url ptext) s2))
            as [r3 s3]. cbn [fst snd] in Hfst |- *. by rewrite Hfst. }
        split; [exact Hp|]. exists ptext. cbn [o_path].
        split; [exact Ht|]. rewrite Hnet, Hok. by left.
      * injection Hrun as <- _. split; [by exists s2; eexists|].
        split; [exact Hp|]. exists ptext. cbn [o_path].
        split; [exact Ht|]. rewrite Hnet, Hok. by right.
  - split.
    { exists s1. eexists. by apply (downloadFile_http x path ptext status body). }
    split; [exact Hp|]. exists ptext. cbn [o_path].
    split; [exact Ht|]. by rewrite Hnet, Hok.
Qed.

(** A file whose request the network does not answer, or answers with a
    body that cannot be read: its call cannot return. *)
Lemma downloadFile_async_doomed (x path : JSValue) (ptext : list Z) :
  get_prop x (js "path") = Return path ->
  to_string path = Return ptext ->
  match net E (file_url ptext) with
  | NetworkError => True
  | Response status body => ok (status, body) = true /\ body = None
  end ->
  forall s, match downloadFile_async E x s with
            | (Return t, _) => doomed 2 t
            | (Throw _, _) => True
            end.
Proof.
  intros Hp Ht Hnet s. unfold downloadFile_async.
  rewrite bind_unfold, lift_return, Hp, bind_unfold, lift_return, Ht, bind_unfold.
  cbn [log mret M_ret doomed]. intros s1. rewrite bind_unfold. unfold reply.
  destruct (net E (file_url ptext)) as [|status body]; [exact I|].
  destruct Hnet as [Hok ->]. cbn [mret M_ret]. rewrite Hok. cbn [negb doomed].
  intros s2. by rewrite bind_unfold.
Qed.

(** A file whose request is answered with a status that is no success:
    its call throws nothing. *)
Lemma downloadFile_async_http (x path : JSValue) (ptext : list Z) (status : Z)
      (body : option (list byte)) (e : exn) (s : state) :
  get_prop x (js "path") = Return path ->
  to_string path = Return ptext ->
  net E (file_url ptext) = Response status body ->
  ok (status, body) = false ->
  match downloadFile_async E x s with
  | (Return t, _) => raises e 2 t
  | (Throw e', _) => e' = e
  end -> False.
Proof.
  intros Hp Ht Hnet Hok. unfold downloadFile_async.
  rewrite bind_unfold, lift_return, Hp, bind_unfold, lift_return, Ht, bind_unfold.
  cbn [log mret M_ret raises]. intros [s1 H]. revert H.
  rewrite bind_unfold. unfold reply. rewrite Hnet. cbn [mret M_ret].
  rewrite Hok. cbn [negb raises]. auto.
Qed.

End Flight.

(** ** The units of a pass *)


Section Units.

Context (E : env).

Lemma any_preserves {A : Type} (m : M A) : preserves any m.
Proof. by intros st r st' _. Qed.

(** The outcomes of a pass are those of the files of the manifest, one
    for each and in their order, in whatever order the answers came. *)
Lemma units_outcomes (items : list JSValue) (st st' : state) results :
  units E items st = (Return results, st') ->
  Forall2 (outcome_of E) items results.
Proof.
  intros H. unfold units in H.
  apply (pMap_lawful 10 (downloadFile_async E) any (outcome_of E)) in H as [_ H];
    [exact H|].
  apply (downloadFile_async_lawful E any); intros; apply any_preserves.
Qed.


(** A pass with a file whose call cannot return is rejected. *)
Lemma units_doomed (items : list JSValue) (x path : JSValue) (ptext : list Z)
      (st : state) :
  x ∈ items ->
  get_prop x (js "path") = Return path ->
  to_string path = Return ptext ->
  match net E (file_url ptext) with
  | NetworkError => True
  | Response status body => ok (status, body) = true /\ body = None
  end ->
  exists e st', units E items st = (Throw e, st').
Proof.
  intros Hin Hp Ht Hnet. unfold units.
  apply (pMap_doomed 10 (downloadFile_async E) (order E) items x st);
    [discriminate|exact Hin|].
  by apply (downloadFile_async_doomed E x path ptext).
Qed.

(** A pass all of whose files are answered with a status that is no
    success is not rejected. *)
Lemma units_http (items : list JSValue) (st : state) :
  (forall x, x ∈ items ->
     exists path ptext status body,
       get_prop x (js "path") = Return path /\
       to_string path = Return ptext /\
       net E (file_url ptext) = Response status body /\
       ok (status, body) = false) ->
  exists results st', units E items st = (Return results, st').
Proof.
  intros Hall. destruct (units E items st) as [[results|e] st'] eqn:Hrun; [eauto|].
  exfalso. unfold units in Hrun.
  apply pMap_culprit in Hrun as (x & Hin & s & Hraise); [|discriminate].
  destruct (Hall x Hin) as (path & ptext & status & body & Hp & Ht & Hnet & Hok).
  exact (downloadFile_async_http E x path ptext status body e s Hp Ht Hnet Hok Hraise).
Qed.

End Units.




(** C5, as stated, fails: the fetch of the only file of the manifest
    meets a network error. The error leaves the unit as an exception,
    the run ends in the [catch] branch with no outcome at all, and the
    marker file is not written. *)
Lemma network_error_aborts_the_pass :
  fst (downloadFile Outage.E (World.entry (js "a.md") World.sha_hi) World.fresh)
  = Throw TypeError /\
  fst (update Outage.E World.fresh) = Failed TypeError /\
  FS.exists_path World.home (fs Outage.ended) (version_file World.home) = false.
Proof. vm_compute. repeat split. Qed.

(** C5 (as amended). A response with a status that is no success makes
    the unit return a failure outcome, [HTTP] and the status, and a pass
    all of whose files fail in this way returns one such outcome for
    each. A network error is not converted: the unit throws; a pass with
    such a file is rejected, whatever the other units do and in whatever
    order the answers come; and a run whose pass is rejected ends in the
    [catch] branch with the exception of the pass, in the state the
    units left, without any outcome and without running
    [saveLocalVersion]. *)
Theorem only_http_failures_are_outcomes (E : env) :
  (forall mf path ptext status body st,
     get_prop mf (js "path") = Return path ->
     to_string path = Return ptext ->
     net E (file_url ptext) = Response status body ->
     ok (status, body) = false ->
     downloadFile E mf st
     = (Return (Outcome path false (Some (js "HTTP " ++ dec_digits status))),
        State (fs st) (trace st ++ [EvFetch (file_url ptext)])))
  /\
  (forall mf path ptext st,
     get_prop mf (js "path") = Return path ->
     to_string path = Return ptext ->
     net E (file_url ptext) = NetworkError ->
     downloadFile E mf st
     = (Throw TypeError, State (fs st) (trace st ++ [EvFetch (file_url ptext)])))
  /\
  (forall items st,
     (forall x, x ∈ items ->
        exists path ptext status body,
          get_prop x (js "path") = Return path /\
          to_string path = Return ptext /\
          net E (file_url ptext) = Response status body /\
          ok (status, body) = false) ->
     exists results st',
       units E items st = (Return results, st') /\
       Forall2 (outcome_of E) items results /\
       Forall (fun o => o_success o = false) results)
  /\
  (forall items x path ptext st,
     x ∈ items ->
     get_prop x (js "path") = Return path ->
     to_string path = Return ptext ->
     net E (file_url ptext) = NetworkError ->
     exists e st', units E items st = (Throw e, st'))
  /\
  (forall st version items st1 e st2,
     reaches_transfer E st version items st1 ->
     units E items st1 = (Throw e, st2) ->
     update E st = (Failed e, st2)).
Proof.
  repeat split.
  - intros mf path ptext status body st. apply downloadFile_http.
  - intros mf path ptext st Hp Ht Hnet. unfold downloadFile.
    rewrite bind_unfold, lift_return, Hp.
    rewrite bind_unfold, lift_return, Ht.
    by rewrite bind_unfold, fetch_unfold, Hnet.
  - intros items st Hall.
    destruct (units_http E items st Hall) as (results & st' & Hrun).
    exists results, st'. split; [exact Hrun|].
    pose proof (units_outcomes E items st st' results Hrun) as Hout.
    split; [exact Hout|].
    clear Hrun. induction Hout as [|x o items results Ho _ IH]; constructor.
    + destruct (Hall x) as (path & ptext & status & body & Hp & Ht & Hnet & Hok);
        [by left|].
      destruct Ho as (_ & Hp' & ptext' & Ht' & Ho).
      rewrite Hp in Hp'. injection Hp' as Hp'. rewrite <- Hp' in Ht'.
      rewrite Ht in Ht'. injection Ht' as <-. rewrite Hnet, Hok in Ho.
      by rewrite Ho.
    + apply IH. intros y Hy. apply Hall. by right.
  - intros items x path ptext st Hin Hp Ht Hnet.
    apply (units_doomed E items x path ptext st Hin Hp Ht). by rewrite Hnet.
  - intros st version items st1 e st2 Hreach Hunits.
    rewrite update_unfold, (update_try_transfer E st version items st1 Hreach).
    unfold transfer. by rewrite (bind_throw _ _ _ _ _ Hunits).
Qed.

Lemma only_http_failures_are_outcomes_witness :
  update Race.E World.fresh = (Failed TypeError, Race.ended) /\
  FS.read_file World.home (fs Race.ended) (js "b.md") = Return World.hi.
Proof.
  split; [|vm_compute; reflexivity].
  destruct (only_http_failures_are_outcomes Race.E) as (_ & _ & _ & _ & H).
  apply (H World.fresh (JString (js "1.2.0")) Race.items Race.started).
  - exists (World.manifest (js "1.2.0") Race.items), JNull, (JArray Race.items),
      (js "not installed"), (js "1.2.0").
    repeat split; vm_compute; reflexivity.
  - vm_compute. reflexivity.
Defined.

(** * The other commands *)

(** ** The digest as text *)

Lemma round_length (s : list Z) (kw : Z * Z) :
  length (SHA256.round s kw) = length s.
Proof.
  unfold SHA256.round.
  do 9 (destruct s as [|? s]; [reflexivity|]); reflexivity.
Qed.

Lemma rounds_length (l : list (Z * Z)) (h : list Z) :
  length (fold_left SHA256.round l h) = length h.
Proof.
  revert h; induction l as [|kw l IH]; intros h; [reflexivity|].
  cbn [fold_left]. rewrite IH. apply round_length.
Qed.

Lemma compress_length (h block : list Z) :
  length (SHA256.compress h block) = length h.
Proof.
  unfold SHA256.compress.
  rewrite length_map, length_combine, rounds_length. lia.
Qed.

Lemma blocks_length (n : nat) (h ws : list Z) :
  length (SHA256.blocks n h ws) = length h.
Proof.
  revert h ws; induction n as [|n IH]; intros h ws; [reflexivity|].
  cbn [SHA256.blocks]. destruct ws; [reflexivity|].
  rewrite IH. apply compress_length.
Qed.

Lemma be_bytes_length (n : nat) (x : Z) : length (SHA256.be_bytes n x) = n.
Proof.
  revert x; induction n as [|n IH]; intros x; [reflexivity|].
  cbn [SHA256.be_bytes]. rewrite length_app, IH. cbn. lia.
Qed.

Lemma digest_length (msg : list byte) : length (SHA256.digest msg) = 32%nat.
Proof.
  unfold SHA256.digest. rewrite length_map.
  set (h := SHA256.blocks _ _ _).
  assert (Hh : length h = 8%nat) by (unfold h; rewrite blocks_length; reflexivity).
  clearbody h.
  do 9 (destruct h as [|? h]; try discriminate).
  cbn [flat_map]. rewrite !length_app, !be_bytes_length. reflexivity.
Qed.

Lemma hex_length (bs : list byte) : length (hex bs) = (2 * length bs)%nat.
Proof.
  unfold hex. induction bs as [|b bs IH]; [reflexivity|].
  cbn [flat_map length app]. rewrite IH. lia.
Qed.

Lemma hex_digit_lower (d : Z) : 0 <= d < 16 -> lower_hex (hex_digit d).
Proof.
  intros Hd. unfold lower_hex, hex_digit.
  destruct (Z.ltb_spec d 10); lia.
Qed.

Lemma hex_lower (bs : list byte) : Forall lower_hex (hex bs).
Proof.
  unfold hex. induction bs as [|b bs IH]; [constructor|].
  cbn [flat_map app]. pose proof (b2z_range b) as Hb.
  constructor; [|constructor; [|exact IH]]; apply hex_digit_lower.
  - split; [apply Z.div_pos; lia | apply Z.div_lt_upper_bound; lia].
  - apply Z.mod_pos_bound; lia.
Qed.

(** X1. [calculateSHA256] returns, for every string, sixty-four
    characters, each a digit of lower-case hexadecimal. *)
Theorem calculateSHA256_is_64_lower_hex (content : list Z) :
  length (calculateSHA256 content) = 64%nat /\
  Forall lower_hex (calculateSHA256 content).
Proof.
  unfold calculateSHA256. split.
  - rewrite hex_length, digest_length. reflexivity.
  - apply hex_lower.
Qed.

(** ** The digest of a local file *)

Lemma code_points_utf16 (cps : list Z) :
  Forall scalar cps -> code_points (flat_map utf16_of_cp cps) = cps.
Proof.
  induction 1 as [|cp cps Hcp _ IH]; [reflexivity|].
  cbn [flat_map]. unfold utf16_of_cp at 1. unfold scalar in Hcp.
  destruct (Z.ltb_spec cp 0x10000) as [Hlt|Hge].
  - cbn [app code_points]. unfold is_high, is_low.
    destruct Hcp as [Hcp|Hcp]; decide_cmp; cbn [andb]; rewrite IH; reflexivity.
  - cbn [app code_points]. unfold is_high, is_low.
    decide_cmp. cbn [andb]. rewrite IH. f_equal.
    Z.div_mod_to_equations; lia.
Qed.

Lemma utf8_decode_encode (s : list Z) :
  wf_str s -> utf8_decode (utf8_encode s) = flat_map utf16_of_cp (code_points s).
Proof.
  intros Hs. unfold utf8_decode, utf8_encode.
  rewrite utf8_run_encode by (apply code_points_scalar; exact Hs). reflexivity.
Qed.

Lemma utf8_encode_decode_encode (s : list Z) :
  wf_str s -> utf8_encode (utf8_decode (utf8_encode s)) = utf8_encode s.
Proof.
  intros Hs. rewrite utf8_decode_encode by exact Hs.
  unfold utf8_encode at 1.
  rewrite code_points_utf16 by (apply code_points_scalar; exact Hs). reflexivity.
Qed.

Lemma getFileSHA256_unfold (E : env) (p : list Z) (st : state) :
  getFileSHA256 E p st =
  (Return match FS.read_file (cwd E) (fs st) p with
          | Return c => Some (calculateSHA256 (utf8_decode c))
          | Throw _ => None
          end, st).
Proof.
  unfold getFileSHA256, try_catch. rewrite bind_unfold. unfold readFileSync.
  destruct (FS.read_file (cwd E) (fs st) p); reflexivity.
Qed.

Lemma getFileSHA256_text (E : env) (p s : list Z) (st : state) :
  wf_str s ->
  FS.read_file (cwd E) (fs st) p = Return (utf8_encode s) ->
  getFileSHA256 E p st = (Return (Some (calculateSHA256 s)), st).
Proof.
  intros Hs Hread. rewrite getFileSHA256_unfold, Hread.
  unfold calculateSHA256. rewrite utf8_encode_decode_encode by exact Hs.
  reflexivity.
Qed.

(** X2. [getFileSHA256] never throws and changes nothing. For a file
    that cannot be read it returns [null]; for a file that holds the
    UTF-8 encoding of a string it returns the SHA-256 of the bytes of the
    file, in hexadecimal. *)
Theorem getFileSHA256_of_a_text_file (E : env) (p : list Z) (st : state) :
  (exists r, getFileSHA256 E p st = (Return r, st)) /\
  (forall e, FS.read_file (cwd E) (fs st) p = Throw e ->
             getFileSHA256 E p st = (Return None, st)) /\
  (forall s bytes, wf_str s -> bytes = utf8_encode s ->
                   FS.read_file (cwd E) (fs st) p = Return bytes ->
                   getFileSHA256 E p st
                   = (Return (Some (hex (SHA256.digest bytes))), st)).
Proof.
  split; [|split].
  - eexists. apply getFileSHA256_unfold.
  - intros e He. rewrite getFileSHA256_unfold, He. reflexivity.
  - intros s bytes Hs -> Hread.
    apply (getFileSHA256_text E p s st Hs Hread).
Qed.

Lemma getFileSHA256_of_a_text_file_witness :
  getFileSHA256 Stored.E (js "/home/dev/none") World.fresh
  = (Return None, World.fresh) /\
  getFileSHA256 Stored.E (js ".agent/skills/_version.json") Stored.st
  = (Return (Some (hex (SHA256.digest (utf8_encode (marker (JString [])))))),
     Stored.st).
Proof.
  split.
  - apply (proj1 (proj2 (getFileSHA256_of_a_text_file
                           Stored.E (js "/home/dev/none") World.fresh))
                 (SystemError "ENOENT")).
    vm_compute. reflexivity.
  - apply (proj2 (proj2 (getFileSHA256_of_a_text_file
                           Stored.E (js ".agent/skills/_version.json") Stored.st))
                 (marker (JString [])) _).
    + apply marker_wf. constructor.
    + reflexivity.
    + vm_compute. reflexivity.
Defined.

Lemma written_file_digest (E : env) (p s : list Z) (st st' : state) :
  wf_str s ->
  writeFileSync E p s st = (Return tt, st') ->
  getFileSHA256 E p st' = (Return (Some (calculateSHA256 s)), st').
Proof.
  intros Hs Hw. unfold writeFileSync in Hw.
  destruct (FS.write_file (cwd E) (fs st) p (utf8_encode s)) as [t|e] eqn:Hwf;
    [|discriminate].
  injection Hw as <-.
  apply getFileSHA256_text; [exact Hs|].
  apply (write_file_read _ _ _ _ _ Hwf).
Qed.

(** X3. A file that [writeFileSync] has just written with a string has,
    for [getFileSHA256], the digest [calculateSHA256] gives for that
    string. *)
Theorem digest_of_a_file_just_written (E : env) (p s : list Z) (st st' : state) :
  wf_str s ->
  writeFileSync E p s st = (Return tt, st') ->
  getFileSHA256 E p st' = (Return (Some (calculateSHA256 s)), st').
Proof. apply written_file_digest. Qed.

Lemma digest_of_a_file_just_written_witness :
  let st' := snd (writeFileSync Stored.E (js "notes.md") (js "hi") World.fresh) in
  getFileSHA256 Stored.E (js "notes.md") st' = (Return (Some World.sha_hi), st').
Proof.
  apply (digest_of_a_file_just_written Stored.E (js "notes.md") (js "hi")
                                       World.fresh).
  - unfold wf_str. repeat constructor; unfold wf_unit; cbn; lia.
  - vm_compute. reflexivity.
Defined.

Lemma installed_file_digest (E : env) (mf : JSValue) (st st' : state) (o : outcome) :
  downloadFile E mf st = (Return o, st') ->
  o_success o = true ->
  exists path sha,
    get_prop mf (js "path") = Return (JString path) /\
    get_prop mf (js "sha256") = Return (JString sha) /\
    getFileSHA256 E (Path.join [process_cwd E; path]) st'
    = (Return (Some sha), st').
Proof.
  intros Hrun Hok.
  destruct (downloadFile_success E mf st st' o Hrun Hok)
    as (path & status & body & Hpath & _ & _ & Hsha & Hread).
  exists path, (calculateSHA256 (utf8_decode_bom body)).
  split; [exact Hpath|]. split; [exact Hsha|].
  apply getFileSHA256_text; [apply utf8_decode_bom_wf | exact Hread].
Qed.

(** X4. After a transfer unit has reported success, [getFileSHA256] of
    the file it installed is the hash the manifest declares for it. *)
Theorem installed_file_has_the_declared_digest
        (E : env) (mf : JSValue) (st st' : state) (o : outcome) :
  downloadFile E mf st = (Return o, st') ->
  o_success o = true ->
  exists path sha,
    get_prop mf (js "path") = Return (JString path) /\
    get_prop mf (js "sha256") = Return (JString sha) /\
    getFileSHA256 E (Path.join [process_cwd E; path]) st'
    = (Return (Some sha), st').
Proof. apply installed_file_digest. Qed.

Lemma installed_file_has_the_declared_digest_witness :
  let mf := World.entry (js "a.md") World.sha_hi in
  let st' := snd (downloadFile Bom.E mf World.fresh) in
  exists path sha,
    get_prop mf (js "path") = Return (JString path) /\
    get_prop mf (js "sha256") = Return (JString sha) /\
    getFileSHA256 Bom.E (Path.join [process_cwd Bom.E; path]) st'
    = (Return (Some sha), st').
Proof.
  apply (installed_file_has_the_declared_digest
           Bom.E (World.entry (js "a.md") World.sha_hi) World.fresh _
           (Outcome (JString (js "a.md")) true None)).
  - vm_compute. reflexivity.
  - reflexivity.
Defined.

(** ** Nothing is ever removed *)

Lemma grows_refl (t : gmap (list (list Z)) node) : grows t t.
Proof.
  intros k. destruct (t !! k) as [[c|]|]; eauto.
Qed.

Lemma grows_trans (t1 t2 t3 : gmap (list (list Z)) node) :
  grows t1 t2 -> grows t2 t3 -> grows t1 t3.
Proof.
  intros H12 H23 k. specialize (H12 k). specialize (H23 k).
  destruct (t1 !! k) as [[c|]|]; [| |exact I].
  - destruct H12 as [c' Hc']. rewrite Hc' in H23. exact H23.
  - rewrite H12 in H23. exact H23.
Qed.

#[local] Instance grows_preorder : PreOrder grows.
Proof. split; [exact grows_refl|exact grows_trans]. Qed.

Lemma grows_insert_new (t : gmap (list (list Z)) node) k x :
  t !! k = None -> grows t (<[k := x]> t).
Proof.
  intros Hk k'. destruct (decide (k = k')) as [<-|Hne].
  - rewrite Hk. exact I.
  - rewrite lookup_insert_ne by exact Hne.
    destruct (t !! k') as [[c|]|]; eauto.
Qed.

Lemma grows_insert_file (t : gmap (list (list Z)) node) k c data :
  t !! k = Some (File c) -> grows t (<[k := File data]> t).
Proof.
  intros Hk k'. destruct (decide (k = k')) as [<-|Hne].
  - rewrite Hk, lookup_insert_eq. eauto.
  - rewrite lookup_insert_ne by exact Hne.
    destruct (t !! k') as [[c'|]|]; eauto.
Qed.

Lemma mkdir_from_grows (segs pre : list (list Z)) (t t' : gmap (list (list Z)) node) :
  FS.mkdir_from t pre segs = Return t' -> grows t t'.
Proof.
  revert pre t; induction segs as [|s segs IH]; intros pre t Hm; cbn in Hm.
  - injection Hm as <-. apply grows_refl.
  - destruct (t !! (pre ++ [s])) as [[c|]|] eqn:Hk.
    + discriminate.
    + apply (IH _ _ Hm).
    + eapply grows_trans; [apply (grows_insert_new _ _ Dir Hk)|apply (IH _ _ Hm)].
Qed.

Lemma mkdir_p_grows (wd p : list Z) (t t' : gmap (list (list Z)) node) :
  FS.mkdir_p wd t p = Return t' -> grows t t'.
Proof.
  unfold FS.mkdir_p. destruct (FS.has_nul p); [discriminate|].
  destruct (FS.resolve wd p) as [[segs trail]|]; [|discriminate].
  apply mkdir_from_grows.
Qed.

Lemma write_file_grows (wd p : list Z) (data : list byte)
      (t t' : gmap (list (list Z)) node) :
  FS.write_file wd t p data = Return t' -> grows t t'.
Proof.
  unfold FS.write_file. destruct (FS.has_nul p); [discriminate|].
  destruct (FS.resolve wd p) as [[segs trail]|]; [|discriminate].
  destruct segs as [|s segs]; [discriminate|].
  destruct (FS.lookup_path t (removelast (s :: segs))) as [[c|]|]; try discriminate.
  destruct (t !! (s :: segs)) as [[c|]|] eqn:Hk; try discriminate;
    destruct trail; try discriminate; intros Hw; injection Hw as <-.
  - apply (grows_insert_file _ _ _ _ Hk).
  - apply (grows_insert_new _ _ _ Hk).
Qed.

Lemma grows_lookup_from (t t' : gmap (list (list Z)) node) :
  grows t t' ->
  forall segs pre n,
    FS.lookup_from t pre segs = Some n ->
    exists n', FS.lookup_from t' pre segs = Some n' /\
               (n = Dir -> n' = Dir).
Proof.
  intros Hg. induction segs as [|s segs IH]; intros pre n Hl.
  - cbn in Hl |- *. eauto.
  - cbn [FS.lookup_from] in Hl |- *. destruct segs as [|s' segs].
    + pose proof (Hg (pre ++ [s])) as Hk. rewrite Hl in Hk.
      destruct n as [c|].
      * destruct Hk as [c' Hc']. exists (File c'). split; [exact Hc'|discriminate].
      * exists Dir. split; [exact Hk|reflexivity].
    + destruct (t !! (pre ++ [s])) as [[c|]|] eqn:Hk; try discriminate.
      pose proof (Hg (pre ++ [s])) as Hk'. rewrite Hk in Hk'. rewrite Hk'.
      apply (IH _ _ Hl).
Qed.

Lemma grows_exists (wd : list Z) (t t' : gmap (list (list Z)) node) (p : list Z) :
  grows t t' ->
  FS.exists_path wd t p = true -> FS.exists_path wd t' p = true.
Proof.
  intros Hg. unfold FS.exists_path, FS.stat, FS.lookup_path.
  destruct (FS.has_nul p); [discriminate|].
  destruct (FS.resolve wd p) as [[segs trail]|]; [|discriminate].
  destruct (FS.lookup_from t [] segs) as [n|] eqn:Hl.
  - destruct (grows_lookup_from _ _ Hg _ _ _ Hl) as (n' & Hl' & Hdir).
    rewrite Hl'. destruct n as [c|].
    + destruct trail; [discriminate|]. intros _. destruct n'; reflexivity.
    + rewrite (Hdir eq_refl). reflexivity.
  - discriminate.
Qed.

Lemma grows_mkdirSync (E : env) (p : list Z) : preserves grows (mkdirSync E p).
Proof.
  intros st r st' H. unfold mkdirSync in H.
  destruct (FS.mkdir_p (cwd E) (fs st) p) as [t|e] eqn:Hm; injection H as _ <-.
  - apply (mkdir_p_grows _ _ _ _ Hm).
  - apply grows_refl.
Qed.

Lemma grows_writeFileSync (E : env) (p data : list Z) :
  preserves grows (writeFileSync E p data).
Proof.
  intros st r st' H. unfold writeFileSync in H.
  destruct (FS.write_file (cwd E) (fs st) p (utf8_encode data)) as [t|e] eqn:Hw;
    injection H as _ <-.
  - apply (write_file_grows _ _ _ _ _ Hw).
  - apply grows_refl.
Qed.

Lemma grows_ensure_dir (E : env) (p : list Z) (present : bool) :
  preserves grows (if negb present then mkdirSync E p else mret tt).
Proof.
  destruct present; [apply (preserves_ret grows)|apply grows_mkdirSync].
Qed.

(** One step of a proof that a computation removes nothing. *)
Ltac grows_step :=
  first [ apply (preserves_ret grows)
        | apply (preserves_throw grows)
        | apply (preserves_lift grows)
        | apply (preserves_fetch grows)
        | apply (preserves_fetch_head grows)
        | apply (preserves_existsSync grows)
        | apply (preserves_text grows)
        | apply (preserves_join_value grows)
        | apply grows_ensure_dir
        | apply grows_mkdirSync
        | apply grows_writeFileSync
        | apply (preserves_bind grows); [|intros ?]
        | match goal with
          | |- preserves _ (if ?b then _ else _) => destruct b
          end ].

Lemma grows_saveLocalVersion (E : env) (dir : list Z) (v : JSValue) :
  preserves grows (saveLocalVersion E dir v).
Proof. unfold saveLocalVersion. cbv zeta. repeat grows_step. Qed.

Lemma grows_downloadFile (E : env) (mf : JSValue) : preserves grows (downloadFile E mf).
Proof. unfold downloadFile. cbv zeta. repeat grows_step. Qed.

(** The units of a pass, in whatever order they go on. *)
Lemma grows_units (E : env) (items : list JSValue) :
  preserves grows (units E items).
Proof.
  intros st r st' H. unfold units in H.
  apply (pMap_lawful 10 (downloadFile_async E) grows (outcome_of E)) in H as [H _];
    [exact H|].
  apply (downloadFile_async_lawful E grows);
    [apply grows_mkdirSync|apply grows_writeFileSync].
Qed.

Lemma grows_update_try (E : env) : preserves grows (update_try E).
Proof.
  unfold update_try.
  apply (preserves_bind grows);
    [apply (preserves_fetchRemoteManifest grows)|]. intros m.
  apply (preserves_bind grows);
    [apply (preserves_getLocalVersion grows)|]. intros lv.
  grows_step; [grows_step|].
  destruct (strict_eq lv a); [repeat grows_step|].
  do 4 (grows_step; [grows_step|]).
  grows_step; [apply (grows_units E)|].
  grows_step; [apply (preserves_array_map grows); intros x;
               grows_step|].
  grows_step; [apply grows_saveLocalVersion|]. grows_step.
Qed.

Lemma update_grows (E : env) (st : state) :
  grows (fs st) (fs (snd (update E st))).
Proof.
  unfold update. destruct (update_try E st) as [[r|e] st'] eqn:Hrun;
    apply (grows_update_try E _ _ _ Hrun).
Qed.

(** X5. A run of [update] removes nothing, however it ends: a directory
    is still a directory, a regular file is still a regular file, and
    a path that existed before the run exists after it. *)
Theorem update_removes_nothing (E : env) (st : state) (p : list Z) :
  FS.exists_path (cwd E) (fs st) p = true ->
  grows (fs st) (fs (snd (update E st))) /\
  FS.exists_path (cwd E) (fs (snd (update E st))) p = true.
Proof.
  intros Hp. split; [apply update_grows|].
  apply (grows_exists _ _ _ _ (update_grows E st) Hp).
Qed.

Lemma update_removes_nothing_witness :
  grows (fs Stored.st) (fs (snd (update Release.E Stored.st))) /\
  FS.exists_path (cwd Release.E) (fs (snd (update Release.E Stored.st)))
                 (js ".agent/skills/_version.json") = true.
Proof.
  apply (update_removes_nothing Release.E Stored.st (js ".agent/skills/_version.json")).
  vm_compute. reflexivity.
Defined.

(** ** The files of a skill *)

Lemma run_returned {A : Type} (run : A * state) (a : A) :
  fst run = a -> run = (a, snd run).
Proof. destruct run as [r st]. cbn. intros ->. reflexivity. Qed.

Lemma fetch_head_unfold (head : list Z -> fetch_result) (url : list Z) (st : state) :
  fetch_head head url st =
  (match head url with
   | NetworkError => Throw TypeError
   | Response status body => Return (status, body)
   end, fetched url st).
Proof.
  unfold fetch_head. rewrite bind_unfold. unfold log, fetched.
  destruct (head url); reflexivity.
Qed.

Lemma probe_answers (head : list Z -> fetch_result) (skillName : list Z) :
  forall candidates files st,
    Forall (fun file => head (skill_url skillName file) <> NetworkError) candidates ->
    probe head skillName candidates files st =
    (Return (files ++ List.filter
                        (fun file => answered_ok head (skill_url skillName file))
                        candidates),
     State (fs st)
           (trace st ++ map (fun file => EvFetch (skill_url skillName file)) candidates)).
Proof.
  induction candidates as [|file rest IH]; intros files st Hall.
  - cbn. rewrite !app_nil_r. destruct st; reflexivity.
  - inversion Hall as [|? ? Hfile Hrest]; subst.
    cbn [probe]. rewrite bind_unfold, fetch_head_unfold.
    cbn [List.filter map]. unfold answered_ok at 1.
    destruct (head (skill_url skillName file)) as [|status body]; [congruence|].
    rewrite (IH _ _ Hrest). unfold fetched. cbn [fs trace].
    rewrite <- app_assoc. cbn [app].
    destruct (ok (status, body)); [rewrite <- app_assoc|]; reflexivity.
Qed.

Lemma probe_fails (head : list Z -> fetch_result) (skillName : list Z) :
  forall candidates files st,
    Exists (fun file => head (skill_url skillName file) = NetworkError) candidates ->
    exists st',
      probe head skillName candidates files st = (Throw TypeError, st') /\
      fs st' = fs st.
Proof.
  induction candidates as [|file rest IH]; intros files st Hex.
  - inversion Hex.
  - cbn [probe]. rewrite bind_unfold, fetch_head_unfold.
    destruct (head (skill_url skillName file)) as [|status body] eqn:Hhead.
    + eexists. split; reflexivity.
    + inversion Hex as [? ? Hhere|? ? Hlater]; subst; [congruence|].
      destruct (IH (if ok (status, body) then files ++ [file] else files)
                   (fetched (skill_url skillName file) st) Hlater)
        as (st' & Hrun & Hfs).
      exists st'. split; [exact Hrun|exact Hfs].
Qed.

(** X6. [fetchSkillFiles] sends one [HEAD] request for each of the five
    resource files, in order, and changes no file. When the network
    answers them all, the result is [SKILL.md], which is never probed,
    followed by the resource files whose answer is a success, in order;
    when one of them meets a network error the call throws. *)
Theorem fetchSkillFiles_lists_what_answers
        (head : list Z -> fetch_result) (skillName : list Z) (st : state) :
  (Forall (fun file => head (skill_url skillName file) <> NetworkError)
          resourceFiles ->
   fetchSkillFiles head skillName st =
   (Return (js "SKILL.md" ::
            List.filter (fun file => answered_ok head (skill_url skillName file))
                        resourceFiles),
    State (fs st)
          (trace st ++ map (fun file => EvFetch (skill_url skillName file))
                           resourceFiles)))
  /\
  (Exists (fun file => head (skill_url skillName file) = NetworkError)
          resourceFiles ->
   exists st',
     fetchSkillFiles head skillName st = (Throw TypeError, st') /\
     fs st' = fs st).
Proof.
  split.
  - intros Hall. unfold fetchSkillFiles.
    rewrite (probe_answers head skillName _ _ _ Hall). reflexivity.
  - intros Hex. apply (probe_fails head skillName _ _ _ Hex).
Qed.

Lemma fetchSkillFiles_lists_what_answers_witness :
  fetchSkillFiles Registry.head (js "commit") World.fresh =
  (Return [js "SKILL.md"; js "resources/checklist.md"],
   State (fs World.fresh)
         (trace World.fresh ++ map (fun file => EvFetch (skill_url (js "commit") file))
                                   resourceFiles)).
Proof.
  apply (proj1 (fetchSkillFiles_lists_what_answers
                  Registry.head (js "commit") World.fresh)).
  repeat constructor; vm_compute; discriminate.
Defined.


Lemma for_of_skips {A : Type} (body : A -> M unit) (items : list A) :
  (forall x st, In x items ->
                exists st', body x st = (Return tt, st') /\ fs st' = fs st) ->
  forall st, exists st', for_of items body st = (Return tt, st') /\ fs st' = fs st.
Proof.
  induction items as [|x items IH]; intros Hbody st.
  - exists st. split; reflexivity.
  - destruct (Hbody x st (or_introl eq_refl)) as (st1 & Hrun & Hfs).
    destruct (IH (fun y s Hy => Hbody y s (or_intror Hy)) st1) as (st' & Hrest & Hfs').
    exists st'. cbn [for_of]. rewrite (bind_return _ _ _ _ _ Hrun).
    split; [exact Hrest|congruence].
Qed.

Lemma installSkillFile_skips (E : env) (skillName skillDir file : list Z)
      (status : Z) (body : option (list byte)) (st : state) :
  net E (skill_url skillName file) = Response status body ->
  ok (status, body) = false ->
  installSkillFile E skillName skillDir file st
  = (Return tt, fetched (skill_url skillName file) st).
Proof.
  intros Hnet Hok. unfold installSkillFile.
  rewrite bind_unfold, fetch_unfold, Hnet, Hok. reflexivity.
Qed.

Lemma installSkill_nothing (E : env) (head : list Z -> fetch_result)
      (skillName targetDir : list Z) (st : state) :
  (forall file, exists status body,
      net E (skill_url skillName file) = Response status body /\
      ok (status, body) = false) ->
  (forall file, head (skill_url skillName file) <> NetworkError) ->
  exists st',
    installSkill E head skillName targetDir st = (Return true, st') /\
    fs st' = fs st.
Proof.
  intros Hnet Hhead. unfold installSkill. cbv zeta.
  assert (Hall : Forall (fun file => head (skill_url skillName file) <> NetworkError)
                        resourceFiles)
    by (apply Forall_forall; intros file _; apply Hhead).
  pose proof (probe_answers head skillName resourceFiles [js "SKILL.md"] st Hall)
    as Hfiles.
  unfold fetchSkillFiles. rewrite (bind_return _ _ _ _ _ Hfiles).
  match goal with |- context [for_of ?l ?b] =>
    destruct (for_of_skips b l) with (st := State (fs st)
      (trace st ++ map (fun file => EvFetch (skill_url skillName file)) resourceFiles))
      as (st' & Hrun & Hfs)
  end.
  - intros file s _. destruct (Hnet file) as (status & body & Hn & Hok).
    eexists. split; [apply (installSkillFile_skips _ _ _ _ _ _ _ Hn Hok)|reflexivity].
  - exists st'. rewrite (bind_return _ _ _ _ _ Hrun). split; [reflexivity|exact Hfs].
Qed.

(** X7. For a skill the registry does not have, every request about it
    being answered and none with a success status, [installSkill] still
    returns [true]; it has then changed no file and no directory. *)
Theorem installSkill_of_a_skill_not_served
        (E : env) (head : list Z -> fetch_result) (skillName targetDir : list Z)
        (st : state) :
  (forall file, exists status body,
      net E (skill_url skillName file) = Response status body /\
      ok (status, body) = false) ->
  (forall file, head (skill_url skillName file) <> NetworkError) ->
  exists st',
    installSkill E head skillName targetDir st = (Return true, st') /\
    fs st' = fs st.
Proof. apply installSkill_nothing. Qed.

Lemma installSkill_of_a_skill_not_served_witness :
  exists st',
    installSkill Stored.E (World.serve []) (js "ghost") World.home World.fresh
    = (Return true, st') /\
    fs st' = fs World.fresh.
Proof.
  apply (installSkill_of_a_skill_not_served
           Stored.E (World.serve []) (js "ghost") World.home World.fresh).
  - intros file. exists 404, (Some []). split; reflexivity.
  - intros file. discriminate.
Defined.

(** ** Where a joined path leads *)

Lemma split_app_slash (a b cur : list Z) :
  Path.split (a ++ Path.slash :: b) cur = Path.split a cur ++ Path.split b [].
Proof.
  revert cur; induction a as [|c a IH]; intros cur; cbn [app Path.split].
  - rewrite Z.eqb_refl. reflexivity.
  - destruct (c =? Path.slash); [cbn [app]; f_equal|]; apply IH.
Qed.

Lemma split_no_slash (s cur : list Z) :
  forallb (fun c => negb (c =? Path.slash)) s = true ->
  Path.split s cur = [rev cur ++ s].
Proof.
  revert cur; induction s as [|c s IH]; intros cur Hs; cbn [Path.split].
  - rewrite app_nil_r. reflexivity.
  - cbn [forallb] in Hs. apply andb_prop in Hs as [Hc Hs].
    apply negb_true_iff in Hc. rewrite Hc, (IH _ Hs). cbn [rev].
    rewrite <- app_assoc. reflexivity.
Qed.

Lemma split_segments (Q : Z -> Prop) (s cur : list Z) :
  Forall Q s -> Forall Q cur -> Forall (Forall Q) (Path.split s cur).
Proof.
  revert cur; induction s as [|c s IH]; intros cur Hs Hcur; cbn [Path.split].
  - constructor; [|constructor]. apply Forall_rev. exact Hcur.
  - inversion Hs as [|? ? Hc Hs']; subst. destruct (c =? Path.slash).
    + constructor; [apply Forall_rev; exact Hcur|]. apply IH; [exact Hs'|constructor].
    + apply IH; [exact Hs'|]. constructor; assumption.
Qed.

Lemma split_without_slash (s cur : list Z) :
  Forall (fun c => c <> Path.slash) cur ->
  Forall (Forall (fun c => c <> Path.slash)) (Path.split s cur).
Proof.
  revert cur; induction s as [|c s IH]; intros cur Hcur; cbn [Path.split].
  - constructor; [|constructor]. apply Forall_rev. exact Hcur.
  - destruct (Z.eqb_spec c Path.slash) as [->|Hne].
    + constructor; [apply Forall_rev; exact Hcur|]. apply IH. constructor.
    + apply IH. constructor; assumption.
Qed.

Lemma walk_app (l1 l2 acc : list (list Z)) :
  FS.walk (l1 ++ l2) acc = FS.walk l2 (rev (FS.walk l1 acc)).
Proof.
  revert acc; induction l1 as [|seg l1 IH]; intros acc; cbn [app FS.walk].
  - rewrite rev_involutive. reflexivity.
  - destruct (str_eqb seg [] || str_eqb seg (js ".")); [apply IH|].
    destruct (str_eqb seg (js "..")); apply IH.
Qed.

Lemma is_plain_spec (seg : list Z) :
  is_plain seg = true ->
  str_eqb seg [] = false /\ str_eqb seg (js ".") = false /\
  str_eqb seg (js "..") = false /\
  forallb (fun c => negb (c =? Path.slash)) seg = true.
Proof.
  unfold is_plain. intros H.
  apply andb_prop in H as [H H4]. apply andb_prop in H as [H H3].
  apply andb_prop in H as [H1 H2].
  apply negb_true_iff in H1, H2, H3. auto.
Qed.

Lemma walk_push (seg : list Z) (rest acc : list (list Z)) :
  is_plain seg = true -> FS.walk (seg :: rest) acc = FS.walk rest (seg :: acc).
Proof.
  intros H. destruct (is_plain_spec _ H) as (H1 & H2 & H3 & _).
  cbn [FS.walk]. rewrite H1, H2, H3. reflexivity.
Qed.

Lemma walk_plain (xs acc : list (list Z)) :
  forallb is_plain xs = true -> FS.walk xs acc = rev acc ++ xs.
Proof.
  revert acc; induction xs as [|x xs IH]; intros acc Hxs.
  - cbn. rewrite app_nil_r. reflexivity.
  - cbn [forallb] in Hxs. apply andb_prop in Hxs as [Hx Hxs].
    rewrite (walk_push _ _ _ Hx), (IH _ Hxs). cbn [rev].
    rewrite <- app_assoc. reflexivity.
Qed.

(** For an absolute path, normalisation is resolution from the root. *)
Lemma normalize_segments_walk (segs acc : list (list Z)) :
  Forall (fun s => str_eqb s (js "..") = false) acc ->
  Path.normalize_segments false segs acc = FS.walk segs acc.
Proof.
  revert acc; induction segs as [|seg segs IH]; intros acc Hacc;
    cbn [Path.normalize_segments FS.walk]; [reflexivity|].
  destruct (str_eqb seg [] || str_eqb seg (js ".")); [apply IH; exact Hacc|].
  destruct (str_eqb seg (js "..")) eqn:Hdots.
  - destruct acc as [|last acc']; [apply IH; constructor|].
    inversion Hacc as [|? ? Hlast Hacc']; subst. rewrite Hlast.
    apply IH. exact Hacc'.
  - apply IH. constructor; assumption.
Qed.

(** For a relative path, the segments normalisation keeps lead where all
    of them lead. *)
Lemma walk_normalize_segments (segs acc start : list (list Z)) :
  Forall (fun s => str_eqb s [] || str_eqb s (js ".") = false) acc ->
  FS.walk (Path.normalize_segments true segs acc) start
  = FS.walk (rev acc ++ segs) start.
Proof.
  revert acc; induction segs as [|seg segs IH]; intros acc Hacc;
    cbn [Path.normalize_segments].
  - rewrite app_nil_r. reflexivity.
  - destruct (str_eqb seg [] || str_eqb seg (js ".")) eqn:Hskip.
    + rewrite (IH _ Hacc), !walk_app. cbn [FS.walk]. rewrite Hskip. reflexivity.
    + destruct (str_eqb seg (js "..")) eqn:Hdots.
      * destruct acc as [|last acc'].
        -- rewrite IH by (constructor; [exact Hskip|constructor]). reflexivity.
        -- inversion Hacc as [|? ? Hlast Hacc']; subst.
           destruct (str_eqb last (js "..")) eqn:Hlastdots.
           ++ rewrite IH by (constructor; [exact Hskip|exact Hacc]).
              cbn [rev]. rewrite <- !app_assoc. reflexivity.
           ++ rewrite (IH _ Hacc'). cbn [rev]. rewrite <- !app_assoc.
              cbn [app].
              rewrite (walk_app (rev acc') segs),
                (walk_app (rev acc') (last :: seg :: segs)).
              cbn [FS.walk]. rewrite Hlast, Hlastdots, Hskip, Hdots.
              reflexivity.
      * rewrite IH by (constructor; [exact Hskip|exact Hacc]).
        cbn [rev]. rewrite <- !app_assoc. reflexivity.
Qed.

Lemma normalize_segments_kept (above : bool) (segs acc : list (list Z)) :
  Forall (Forall (fun c => c <> Path.slash)) segs ->
  Forall (kept above) acc ->
  Forall (kept above) (Path.normalize_segments above segs acc).
Proof.
  revert acc; induction segs as [|seg segs IH]; intros acc Hsegs Hacc;
    cbn [Path.normalize_segments].
  - apply Forall_rev. exact Hacc.
  - inversion Hsegs as [|? ? Hseg Hsegs']; subst.
    destruct (str_eqb seg [] || str_eqb seg (js ".")) eqn:Hskip;
      [apply IH; assumption|].
    destruct (str_eqb seg (js "..")) eqn:Hdots.
    + destruct acc as [|last acc'].
      * apply IH; [exact Hsegs'|]. destruct above; [|constructor].
        constructor; [|constructor]. split; [exact Hskip|]. split; [exact Hseg|].
        discriminate.
      * inversion Hacc as [|? ? Hlast Hacc']; subst.
        destruct (str_eqb last (js "..")); [|apply IH; assumption].
        apply IH; [exact Hsegs'|]. destruct above; [|exact Hacc].
        constructor; [|exact Hacc]. split; [exact Hskip|]. split; [exact Hseg|].
        discriminate.
    + apply IH; [exact Hsegs'|]. constructor; [|exact Hacc].
      split; [exact Hskip|]. split; [exact Hseg|]. intros _. exact Hdots.
Qed.

Lemma no_slash_forallb (s : list Z) :
  Forall (fun c => c <> Path.slash) s ->
  forallb (fun c => negb (c =? Path.slash)) s = true.
Proof.
  induction 1 as [|c s Hc _ IH]; [reflexivity|].
  cbn [forallb]. rewrite IH, andb_true_r. apply negb_true_iff.
  apply Z.eqb_neq. exact Hc.
Qed.

Lemma kept_plain (seg : list Z) : kept false seg -> is_plain seg = true.
Proof.
  intros (Hskip & Hslash & Hdots). apply orb_false_elim in Hskip as [H1 H2].
  unfold is_plain. rewrite H1, H2, (Hdots eq_refl), (no_slash_forallb _ Hslash).
  reflexivity.
Qed.

Lemma kept_head (above : bool) (seg : list Z) :
  kept above seg -> exists c s, seg = c :: s /\ c <> Path.slash.
Proof.
  intros (Hskip & Hslash & _). destruct seg as [|c s]; [discriminate|].
  inversion Hslash; subst. eauto.
Qed.

Lemma split_join_with (above : bool) (segs : list (list Z)) :
  segs <> [] -> Forall (kept above) segs ->
  Path.split (JSON.join_with [Path.slash] segs) [] = segs.
Proof.
  induction segs as [|x segs IH]; intros Hne Hall; [congruence|].
  inversion Hall as [|? ? (_ & Hx & _) Hrest]; subst.
  destruct segs as [|y segs].
  - cbn [JSON.join_with]. apply (split_no_slash x []), no_slash_forallb, Hx.
  - change (JSON.join_with [Path.slash] (x :: y :: segs))
      with (x ++ Path.slash :: JSON.join_with [Path.slash] (y :: segs)).
    rewrite split_app_slash, IH by (congruence || exact Hrest).
    rewrite (split_no_slash x []) by (apply no_slash_forallb, Hx). reflexivity.
Qed.

Lemma ends_with_slash_app (a b : list Z) :
  b <> [] -> Path.ends_with_slash (a ++ b) = Path.ends_with_slash b.
Proof.
  intros Hb. unfold Path.ends_with_slash. rewrite rev_app_distr.
  destruct (rev b) as [|c r] eqn:Hr; [|reflexivity].
  apply (f_equal (@rev Z)) in Hr. rewrite rev_involutive in Hr. contradiction.
Qed.

Lemma ends_with_slash_snoc (a : list Z) (c : Z) :
  Path.ends_with_slash (a ++ [c]) = (c =? Path.slash).
Proof. unfold Path.ends_with_slash. rewrite rev_app_distr. reflexivity. Qed.

Lemma ends_with_slash_no_slash (s : list Z) :
  Forall (fun c => c <> Path.slash) s -> Path.ends_with_slash s = false.
Proof.
  intros Hs. unfold Path.ends_with_slash.
  apply Forall_rev in Hs. destruct (rev s) as [|c r]; [reflexivity|].
  inversion Hs; subst. apply Z.eqb_neq. assumption.
Qed.

Lemma join_with_last (above : bool) (segs : list (list Z)) :
  segs <> [] -> Forall (kept above) segs ->
  JSON.join_with [Path.slash] segs <> [] /\
  Path.ends_with_slash (JSON.join_with [Path.slash] segs) = false.
Proof.
  induction segs as [|x segs IH]; intros Hne Hall; [congruence|].
  inversion Hall as [|? ? Hx Hrest]; subst.
  destruct (kept_head _ _ Hx) as (c & s & -> & Hc).
  destruct Hx as (_ & Hx & _).
  destruct segs as [|y segs].
  - cbn [JSON.join_with]. split; [discriminate|].
    apply ends_with_slash_no_slash, Hx.
  - change (JSON.join_with [Path.slash] ((c :: s) :: y :: segs))
      with ((c :: s) ++ Path.slash :: JSON.join_with [Path.slash] (y :: segs)).
    split; [discriminate|].
    destruct (IH ltac:(congruence) Hrest) as [Hj Hend].
    rewrite (ends_with_slash_app (c :: s)) by discriminate.
    change (Path.slash :: JSON.join_with [Path.slash] (y :: segs))
      with ([Path.slash] ++ JSON.join_with [Path.slash] (y :: segs)).
    rewrite (ends_with_slash_app [Path.slash]) by exact Hj.
    exact Hend.
Qed.

Lemma str_eqb_refl (a : list Z) : str_eqb a a = true.
Proof. apply str_eqb_eq. reflexivity. Qed.

Lemma walk_trailing (segs : list (list Z)) (trail : bool) (start : list (list Z)) :
  FS.walk (segs ++ (if trail then [[]] else [])) start = FS.walk segs start.
Proof.
  rewrite walk_app. destruct trail; cbn [FS.walk].
  - rewrite str_eqb_refl. cbn [orb]. apply rev_involutive.
  - apply rev_involutive.
Qed.

Lemma normalize_unfold (p : list Z) :
  p <> [] ->
  Path.normalize p =
  match Path.normalize_segments (negb (Path.is_absolute p)) (Path.split p []) [] with
  | [] => if Path.is_absolute p then js "/"
          else if Path.ends_with_slash p then js "./" else js "."
  | segs =>
      (if Path.is_absolute p then js "/" else [])
      ++ JSON.join_with (js "/") segs
      ++ (if Path.ends_with_slash p then js "/" else [])
  end.
Proof.
  destruct p as [|c p]; [congruence|]. intros _. unfold Path.normalize.
  cbv zeta.
  destruct (Path.normalize_segments _ _ _); reflexivity.
Qed.

Lemma kept_forallb_plain (segs : list (list Z)) :
  Forall (kept false) segs -> forallb is_plain segs = true.
Proof.
  induction 1 as [|x segs Hx _ IH]; [reflexivity|].
  cbn [forallb]. rewrite (kept_plain _ Hx), IH. reflexivity.
Qed.

Lemma walk_normalized (wd p : list Z) :
  FS.walk (Path.normalize_segments (negb (Path.is_absolute p)) (Path.split p []) [])
          (start_of wd p)
  = FS.walk (Path.split p []) (start_of wd p).
Proof.
  pose proof (normalize_segments_kept (negb (Path.is_absolute p)) (Path.split p []) []
                (split_without_slash p [] (List.Forall_nil _)) (List.Forall_nil _)) as Hkept.
  unfold start_of. destruct (Path.is_absolute p); cbn [negb] in *.
  - rewrite normalize_segments_walk in * by constructor.
    rewrite (walk_plain _ [] (kept_forallb_plain _ Hkept)). reflexivity.
  - apply (walk_normalize_segments _ [] _). constructor.
Qed.

Lemma split_joined (above : bool) (segs : list (list Z)) (trail : bool) :
  segs <> [] -> Forall (kept above) segs ->
  Path.split (JSON.join_with [Path.slash] segs ++ (if trail then [Path.slash] else [])) []
  = segs ++ (if trail then [[]] else []).
Proof.
  intros Hne Hall. destruct trail.
  - rewrite split_app_slash, (split_join_with above) by assumption. reflexivity.
  - rewrite !app_nil_r. apply (split_join_with above); assumption.
Qed.

Lemma ends_with_slash_joined (above : bool) (pre : list Z) (segs : list (list Z))
      (trail : bool) :
  segs <> [] -> Forall (kept above) segs ->
  Path.ends_with_slash
    (pre ++ JSON.join_with [Path.slash] segs ++ (if trail then [Path.slash] else []))
  = trail.
Proof.
  intros Hne Hall. destruct (join_with_last above segs Hne Hall) as [Hj Hend].
  destruct trail.
  - rewrite app_assoc, ends_with_slash_snoc. apply Z.eqb_refl.
  - rewrite app_nil_r, ends_with_slash_app by exact Hj. exact Hend.
Qed.

Lemma is_absolute_joined (above : bool) (segs : list (list Z)) (post : list Z) :
  segs <> [] -> Forall (kept above) segs ->
  Path.is_absolute (JSON.join_with [Path.slash] segs ++ post) = false.
Proof.
  intros Hne Hall. destruct segs as [|x segs]; [congruence|].
  inversion Hall as [|? ? Hx _]; subst.
  destruct (kept_head _ _ Hx) as (c & s & -> & Hc).
  destruct segs; cbn; apply Z.eqb_neq; exact Hc.
Qed.

Lemma resolve_nonempty (wd p : list Z) :
  p <> [] ->
  FS.resolve wd p
  = Some (FS.walk (Path.split p []) (start_of wd p), Path.ends_with_slash p).
Proof. destruct p; [congruence|reflexivity]. Qed.

(** Normalisation does not change where a path leads. *)
Lemma resolve_normalize (wd p : list Z) :
  p <> [] ->
  exists trail,
    FS.resolve wd (Path.normalize p)
    = Some (FS.walk (Path.split p []) (start_of wd p), trail) /\
    (trail = Path.ends_with_slash p \/
     FS.walk (Path.split p []) (start_of wd p) = []).
Proof.
  intros Hp. rewrite (normalize_unfold p Hp), <- (walk_normalized wd p).
  pose proof (normalize_segments_kept (negb (Path.is_absolute p)) (Path.split p []) []
                (split_without_slash p [] (List.Forall_nil _)) (List.Forall_nil _)) as Hkept.
  change (js "/") with [Path.slash].
  destruct (Path.normalize_segments _ _ _) as [|n N] eqn:HN.
  - unfold start_of. destruct (Path.is_absolute p).
    + exists true. split; [reflexivity|right; reflexivity].
    + exists (Path.ends_with_slash p). split; [|left; reflexivity].
      destruct (Path.ends_with_slash p);
        [change (FS.resolve wd (js "./"))
           with (Some (rev (rev (FS.walk (Path.split wd []) [])), true))
        |change (FS.resolve wd (js "."))
           with (Some (rev (rev (FS.walk (Path.split wd []) [])), false))];
        reflexivity.
  - exists (Path.ends_with_slash p). split; [|left; reflexivity].
    assert (Hne : n :: N <> []) by discriminate.
    remember (n :: N) as segs eqn:Hsegs. clear Hsegs HN.
    destruct (Path.is_absolute p) eqn:Habs; cbn [negb] in Hkept.
    + rewrite resolve_nonempty by discriminate.
      rewrite (ends_with_slash_joined false) by assumption.
      assert (Hstart : forall x, start_of wd ([Path.slash] ++ x) = start_of wd p).
      { intros x. unfold start_of. rewrite Habs. cbn. reflexivity. }
      rewrite Hstart.
      change ([Path.slash] ++ ?x) with ([] ++ Path.slash :: x).
      rewrite split_app_slash, (split_joined false) by assumption.
      cbn [Path.split rev app FS.walk]. rewrite str_eqb_refl. cbn [orb].
      rewrite walk_trailing. reflexivity.
    + destruct (join_with_last true segs Hne Hkept) as [Hj _].
      cbn [app].
      rewrite resolve_nonempty
        by (intros Hr; apply app_eq_nil in Hr as [Hr _]; contradiction).
      assert (Hstart : forall x,
                 start_of wd (JSON.join_with [Path.slash] segs ++ x) = start_of wd p).
      { intros x. unfold start_of.
        rewrite Habs, (is_absolute_joined true) by assumption. reflexivity. }
      rewrite Hstart, (split_joined true), walk_trailing by assumption.
      change (JSON.join_with [Path.slash] segs ++
              (if Path.ends_with_slash p then [Path.slash] else []))
        with ([] ++ JSON.join_with [Path.slash] segs ++
              (if Path.ends_with_slash p then [Path.slash] else [])).
      rewrite (ends_with_slash_joined true) by assumption.
      reflexivity.
Qed.

Lemma split_join_parts (parts : list (list Z)) :
  parts <> [] ->
  Path.split (JSON.join_with [Path.slash] parts) [] = segments parts.
Proof.
  induction parts as [|x parts IH]; intros Hne; [congruence|].
  destruct parts as [|y parts].
  - cbn. rewrite app_nil_r. reflexivity.
  - change (JSON.join_with [Path.slash] (x :: y :: parts))
      with (x ++ Path.slash :: JSON.join_with [Path.slash] (y :: parts)).
    rewrite split_app_slash, IH by discriminate. reflexivity.
Qed.

Lemma join_with_head (x : list Z) (parts : list (list Z)) :
  exists r, JSON.join_with [Path.slash] (x :: parts) = x ++ r.
Proof.
  destruct parts as [|y parts].
  - exists []. cbn. rewrite app_nil_r. reflexivity.
  - eexists. reflexivity.
Qed.

Lemma is_absolute_app (a r : list Z) :
  a <> [] -> Path.is_absolute (a ++ r) = Path.is_absolute a.
Proof. destruct a; [congruence|reflexivity]. Qed.

Lemma split_nonempty (p cur : list Z) : Path.split p cur <> [].
Proof.
  revert cur; induction p as [|c p IH]; intros cur; cbn [Path.split]; [discriminate|].
  destruct (c =? Path.slash); [discriminate|apply IH].
Qed.

Lemma split_trailing (p : list Z) :
  Path.ends_with_slash p = true -> exists l, Path.split p [] = l ++ [[]].
Proof.
  unfold Path.ends_with_slash. intros H.
  destruct (rev p) as [|c r] eqn:Hr; [discriminate|].
  apply Z.eqb_eq in H. subst c.
  apply (f_equal (@rev Z)) in Hr. rewrite rev_involutive in Hr. cbn [rev] in Hr.
  subst p. exists (Path.split (rev r) []).
  change (rev r ++ [Path.slash]) with (rev r ++ Path.slash :: []).
  rewrite split_app_slash. reflexivity.
Qed.

Lemma plain_last (l xs : list (list Z)) :
  xs <> [] -> forallb is_plain xs = true -> forall l', l ++ xs <> l' ++ [[]].
Proof.
  intros Hne Hxs l' Heq.
  destruct (exists_last Hne) as (xs' & x & ->).
  rewrite app_assoc in Heq. apply app_inj_tail in Heq as [_ ->].
  rewrite forallb_app in Hxs. apply andb_prop in Hxs as [_ Hx].
  cbn in Hx. discriminate.
Qed.

Lemma segments_nonempty (xs : list (list Z)) : xs <> [] -> segments xs <> [].
Proof.
  destruct xs as [|x xs]; [congruence|]. intros _. unfold segments. cbn [flat_map].
  pose proof (split_nonempty x []) as Hx.
  destruct (Path.split x []); [congruence|discriminate].
Qed.

Lemma filter_nonempty (parts : list (list Z)) :
  forallb (fun x => negb (str_eqb x [])) parts = true ->
  List.filter (fun x => negb (str_eqb x [])) parts = parts.
Proof.
  induction parts as [|x parts IH]; [reflexivity|].
  cbn [forallb List.filter]. intros H. apply andb_prop in H as [Hx Hrest].
  rewrite Hx, (IH Hrest). reflexivity.
Qed.

(** Where [path.join(a, ...xs)] leads, when the segments of [xs] name
    entries: to the entries of those names below where [a] leads. *)
Lemma resolve_join (wd a : list Z) (xs segs : list (list Z)) (trail : bool) :
  FS.resolve wd a = Some (segs, trail) ->
  xs <> [] ->
  forallb (fun x => negb (str_eqb x [])) xs = true ->
  forallb is_plain (segments xs) = true ->
  FS.resolve wd (Path.join (a :: xs)) = Some (segs ++ segments xs, false).
Proof.
  intros Ha Hxs Hne Hplain.
  assert (Hane : a <> []) by (intros ->; discriminate).
  rewrite (resolve_nonempty wd a Hane) in Ha. injection Ha as <- _.
  unfold Path.join. cbn [List.filter].
  assert (Hanb : negb (str_eqb a []) = true).
  { apply negb_true_iff. destruct (str_eqb a []) eqn:Heq; [|reflexivity].
    apply str_eqb_eq in Heq. contradiction. }
  rewrite Hanb, (filter_nonempty xs Hne).
  change (js "/") with [Path.slash].
  destruct (join_with_head a xs) as (r & Hjoin).
  assert (Hp : JSON.join_with [Path.slash] (a :: xs) <> []).
  { rewrite Hjoin. destruct a; [congruence|discriminate]. }
  destruct (resolve_normalize wd _ Hp) as (tr & Hres & Htr).
  rewrite Hres.
  assert (Hstart : start_of wd (JSON.join_with [Path.slash] (a :: xs)) = start_of wd a).
  { unfold start_of. rewrite Hjoin, (is_absolute_app a r Hane). reflexivity. }
  rewrite Hstart, split_join_parts in * by discriminate.
  change (segments (a :: xs)) with (Path.split a [] ++ segments xs) in *.
  rewrite walk_app, (walk_plain _ _ Hplain), rev_involutive in *.
  f_equal. f_equal.
  destruct Htr as [->|Hnil].
  - destruct (Path.ends_with_slash (JSON.join_with [Path.slash] (a :: xs))) eqn:Hend;
      [|reflexivity].
    destruct (split_trailing _ Hend) as (l & Hl).
    rewrite split_join_parts in Hl by discriminate.
    change (segments (a :: xs)) with (Path.split a [] ++ segments xs) in Hl.
    exfalso. apply (plain_last (Path.split a []) (segments xs)
                               (segments_nonempty xs Hxs) Hplain l Hl).
  - apply app_eq_nil in Hnil as [_ Hnil].
    exfalso. apply (segments_nonempty xs Hxs Hnil).
Qed.

Lemma has_nul_spec (p : list Z) :
  FS.has_nul p = false <-> Forall (fun c => c <> 0) p.
Proof.
  unfold FS.has_nul. induction p as [|c p IH]; cbn [existsb].
  - split; [constructor|reflexivity].
  - rewrite orb_false_iff, IH, Z.eqb_neq. split.
    + intros [Hc Hp]. constructor; [congruence|exact Hp].
    + intros H. inversion H; subst. split; [congruence|assumption].
Qed.

Lemma normalize_segments_Forall (Q : list Z -> Prop) (above : bool)
      (segs acc : list (list Z)) :
  Forall Q segs -> Forall Q acc -> Forall Q (Path.normalize_segments above segs acc).
Proof.
  revert acc; induction segs as [|seg segs IH]; intros acc Hsegs Hacc;
    cbn [Path.normalize_segments].
  - apply Forall_rev. exact Hacc.
  - inversion Hsegs as [|? ? Hseg Hsegs']; subst.
    destruct (str_eqb seg [] || str_eqb seg (js ".")); [apply IH; assumption|].
    destruct (str_eqb seg (js "..")).
    + destruct acc as [|last acc'].
      * apply IH; [exact Hsegs'|]. destruct above; repeat constructor; assumption.
      * inversion Hacc; subst. destruct (str_eqb last (js ".."));
          [|apply IH; assumption].
        apply IH; [exact Hsegs'|]. destruct above; [constructor|]; assumption.
    + apply IH; [exact Hsegs'|]. constructor; assumption.
Qed.

Lemma join_with_Forall (Q : Z -> Prop) (sep : list Z) (items : list (list Z)) :
  Forall Q sep -> Forall (Forall Q) items -> Forall Q (JSON.join_with sep items).
Proof.
  intros Hsep. induction 1 as [|x items Hx Hitems IH]; [constructor|].
  destruct items as [|y items]; [exact Hx|].
  change (JSON.join_with sep (x :: y :: items))
    with (x ++ sep ++ JSON.join_with sep (y :: items)).
  apply Forall_app; split; [exact Hx|]. apply Forall_app; split; [exact Hsep|exact IH].
Qed.

Lemma has_nul_normalize (p : list Z) :
  FS.has_nul p = false -> FS.has_nul (Path.normalize p) = false.
Proof.
  rewrite !has_nul_spec. intros Hp.
  destruct p as [|c p']; [repeat constructor; discriminate|].
  rewrite normalize_unfold by discriminate.
  set (p := c :: p') in *.
  pose proof (normalize_segments_Forall _ (negb (Path.is_absolute p)) _ []
                (split_segments _ p [] Hp (List.Forall_nil _)) (List.Forall_nil _)) as HN.
  destruct (Path.normalize_segments _ _ _) as [|n N].
  - destruct (Path.is_absolute p); [|destruct (Path.ends_with_slash p)];
      repeat constructor; discriminate.
  - apply Forall_app; split;
      [destruct (Path.is_absolute p); repeat constructor; discriminate|].
    apply Forall_app; split;
      [|destruct (Path.ends_with_slash p); repeat constructor; discriminate].
    apply join_with_Forall; [repeat constructor; discriminate|exact HN].
Qed.

Lemma has_nul_join (parts : list (list Z)) :
  forallb (fun p => negb (FS.has_nul p)) parts = true ->
  FS.has_nul (Path.join parts) = false.
Proof.
  intros Hparts. unfold Path.join.
  assert (Hall : Forall (Forall (fun c => c <> 0))
                        (List.filter (fun a => negb (str_eqb a [])) parts)).
  { induction parts as [|x parts IH]; [constructor|].
    cbn [forallb] in Hparts. apply andb_prop in Hparts as [Hx Hrest].
    cbn [List.filter]. destruct (negb (str_eqb x [])); [|apply IH; exact Hrest].
    constructor; [|apply IH; exact Hrest].
    apply has_nul_spec, negb_true_iff, Hx. }
  destruct (List.filter _ parts) as [|x ps]; [reflexivity|].
  apply has_nul_normalize, has_nul_spec, join_with_Forall;
    [repeat constructor; discriminate|exact Hall].
Qed.

(** ** Computations that only read *)

Lemma reads_inert {A : Type} (m : M A) : reads m -> inert m.
Proof. intros H st. destruct (H st) as [a Ha]. eauto. Qed.

Lemma reads_ret {A : Type} (a : A) : reads (mret a).
Proof. intros st. exists a. reflexivity. Qed.

Lemma inert_throw {A : Type} (e : exn) : inert (@throw A e).
Proof. intros st. eexists. reflexivity. Qed.

Lemma inert_lift {A : Type} (r : result A) : inert (lift r).
Proof. intros st. eexists. reflexivity. Qed.

Lemma inert_bind {A B : Type} (m : M A) (f : A -> M B) :
  inert m -> (forall a, inert (f a)) -> inert (m ≫= f).
Proof.
  intros Hm Hf st. rewrite bind_unfold. destruct (Hm st) as [[a|e] ->].
  - apply Hf.
  - eauto.
Qed.

Lemma reads_bind {A B : Type} (m : M A) (f : A -> M B) :
  reads m -> (forall a, reads (f a)) -> reads (m ≫= f).
Proof.
  intros Hm Hf st. rewrite bind_unfold. destruct (Hm st) as [a ->]. apply Hf.
Qed.

Lemma reads_try_catch {A : Type} (body : M A) (handler : exn -> M A) :
  inert body -> (forall e, reads (handler e)) -> reads (try_catch body handler).
Proof.
  intros Hb Hh st. unfold try_catch. destruct (Hb st) as [[a|e] ->].
  - eauto.
  - apply Hh.
Qed.

Lemma reads_existsSync (E : env) (p : list Z) : reads (existsSync E p).
Proof. intros st. eexists. reflexivity. Qed.

Lemma inert_readFileSync (E : env) (p : list Z) : inert (readFileSync E p).
Proof.
  intros st. unfold readFileSync.
  destruct (FS.read_file (cwd E) (fs st) p); eauto.
Qed.

Lemma inert_readdirSync (E : env) (p : list Z) : inert (readdirSync E p).
Proof.
  intros st. unfold readdirSync. destruct (FS.has_nul p); [eauto|].
  destruct (FS.resolve (cwd E) p) as [[segs trail]|]; [|eauto].
  destruct (FS.lookup_path (fs st) segs) as [[c|]|]; eauto.
Qed.

Lemma inert_execSync (exec : list Z -> option (list byte)) (command : list Z) :
  inert (execSync exec command).
Proof.
  intros st. unfold execSync.
  destruct (exec command) as [out|]; [|eexists; reflexivity].
  destruct (Z.of_nat (length out) <=? maxBuffer); eexists; reflexivity.
Qed.

Lemma inert_execSync_ignore (exec : list Z -> option (list byte)) (command : list Z) :
  inert (execSync_ignore exec command).
Proof.
  intros st. unfold execSync_ignore. destruct (exec command); eexists; reflexivity.
Qed.

Lemma reads_array_map {A B : Type} (f : A -> M B) (items : list A) :
  (forall x, reads (f x)) -> reads (array_map f items).
Proof.
  intros Hf. induction items as [|x items IH]; cbn [array_map].
  - apply reads_ret.
  - apply reads_bind; [apply Hf|]. intros y.
    apply reads_bind; [exact IH|]. intros ys. apply reads_ret.
Qed.

(** One step of a proof that a computation only reads. *)
Ltac reads_step :=
  first [ apply reads_ret
        | apply reads_existsSync
        | apply inert_throw
        | apply inert_lift
        | apply inert_readFileSync
        | apply inert_readdirSync
        | apply inert_execSync
        | apply inert_execSync_ignore
        | apply reads_inert; apply reads_ret
        | apply reads_inert; apply reads_existsSync
        | apply reads_try_catch; [|intros ?]
        | apply reads_bind; [|intros ?]
        | apply inert_bind; [|intros ?]
        | match goal with
          | |- reads (if ?b then _ else _) => destruct b
          | |- inert (if ?b then _ else _) => destruct b
          | |- reads (match ?x with _ => _ end) => destruct x
          | |- inert (match ?x with _ => _ end) => destruct x
          end ].

(** ** The checks of [doctor] *)

Section Checks.

Context (E : env) (exec : list Z -> option (list byte))
        (getenv : list Z -> option (list Z)).

Lemma reads_checkCLI (name command installCmd : list Z) :
  reads (checkCLI exec name command installCmd).
Proof. unfold checkCLI. repeat reads_step. Qed.

Lemma reads_checkMCPConfig (cliName : list Z) :
  reads (checkMCPConfig E getenv cliName).
Proof.
  unfold checkMCPConfig.
  destruct (assoc cliName (configs getenv)) as [[path type]|]; repeat reads_step.
Qed.

Lemma reads_checkDashboardDependencies :
  reads (checkDashboardDependencies E exec).
Proof. unfold checkDashboardDependencies. cbv zeta. repeat reads_step. Qed.

Lemma reads_checkSkill (skillsDir : list Z) (s : skill) :
  reads (checkSkill E skillsDir s).
Proof. unfold checkSkill. cbv zeta. repeat reads_step. Qed.

Lemma reads_checkSkills : reads (checkSkills E).
Proof.
  unfold checkSkills, collect. cbv zeta.
  apply reads_bind; [apply reads_existsSync|]. intros present.
  destruct (negb present); [apply reads_ret|].
  apply reads_array_map. intros s. apply reads_checkSkill.
Qed.

End Checks.

Lemma drop_while_head (f : Z -> bool) (s : list Z) :
  forall c r, Path.drop_while f s = c :: r -> f c = false.
Proof.
  induction s as [|d s IH]; intros c r; cbn [Path.drop_while]; [discriminate|].
  destruct (f d) eqn:Hd; [apply IH|].
  intros H. injection H as <- _. exact Hd.
Qed.

Lemma drop_while_suffix (f : Z -> bool) (s : list Z) :
  exists pre, s = pre ++ Path.drop_while f s.
Proof.
  induction s as [|d s IH]; cbn [Path.drop_while]; [exists []; reflexivity|].
  destruct (f d).
  - destruct IH as [pre Hpre]. exists (d :: pre). cbn [app]. f_equal. exact Hpre.
  - exists []. reflexivity.
Qed.

Lemma trim_ends (s : list Z) :
  (forall c r, trim s = c :: r -> is_white_space c = false) /\
  (forall c r, rev (trim s) = c :: r -> is_white_space c = false).
Proof.
  unfold trim. split; intros c r H.
  - destruct (drop_while_suffix is_white_space (rev (Path.drop_while is_white_space s)))
      as [pre Hpre].
    apply (f_equal (@rev Z)) in Hpre.
    rewrite rev_involutive, rev_app_distr, H in Hpre.
    apply (drop_while_head is_white_space s c (r ++ rev pre)). exact Hpre.
  - rewrite rev_involutive in H.
    apply (drop_while_head _ _ _ _ H).
Qed.

Lemma checkCLI_unfold (exec : list Z -> option (list byte))
      (name command installCmd : list Z) (st : state) :
  checkCLI exec name command installCmd st =
  (Return match exec (command ++ js " --version") with
          | Some out =>
              if Z.of_nat (length out) <=? maxBuffer then
                {| cli_name := name; cli_installed := true;
                   cli_version := Some (trim (utf8_decode out));
                   cli_installCmd := installCmd |}
              else
                {| cli_name := name; cli_installed := false;
                   cli_version := None; cli_installCmd := installCmd |}
          | None =>
              {| cli_name := name; cli_installed := false;
                 cli_version := None; cli_installCmd := installCmd |}
          end, st).
Proof.
  unfold checkCLI, try_catch. rewrite bind_unfold. unfold execSync.
  destruct (exec (command ++ js " --version")) as [out|]; [|reflexivity].
  destruct (Z.of_nat (length out) <=? maxBuffer); reflexivity.
Qed.

(** X8. [checkCLI] never throws. It reports the tool as installed
    exactly when its [--version] command exits with status 0 and has
    printed no more than [maxBuffer] bytes, 1 MiB: a tool that prints
    more is reported as not installed. The version reported is then the
    output decoded as UTF-8 and trimmed, which neither starts nor ends
    with white space; no version is reported otherwise. *)
Theorem checkCLI_reports (exec : list Z -> option (list byte))
        (name command installCmd : list Z) (st : state) :
  exists check,
    checkCLI exec name command installCmd st = (Return check, st) /\
    cli_name check = name /\ cli_installCmd check = installCmd /\
    (cli_installed check = true <->
     exists out, exec (command ++ js " --version") = Some out /\
                 Z.of_nat (length out) <= 1024 * 1024) /\
    (forall out, exec (command ++ js " --version") = Some out ->
                 Z.of_nat (length out) <= 1024 * 1024 ->
                 cli_version check = Some (trim (utf8_decode out))) /\
    (cli_installed check = false <-> cli_version check = None) /\
    (forall version, cli_version check = Some version ->
       (forall c r, version = c :: r -> is_white_space c = false) /\
       (forall c r, rev version = c :: r -> is_white_space c = false)).
Proof.
  eexists. split; [apply checkCLI_unfold|].
  change (1024 * 1024) with maxBuffer.
  destruct (exec (command ++ js " --version")) as [out|].
  - destruct (Z.leb_spec (Z.of_nat (length out)) maxBuffer) as [Hle|Hgt];
      cbn [cli_name cli_installed cli_version cli_installCmd].
    + split; [reflexivity|]. split; [reflexivity|].
      split; [split; [eauto|reflexivity]|].
      split; [by intros out' [= <-] _|].
      split; [split; discriminate|].
      intros version Hv. injection Hv as <-. apply trim_ends.
    + split; [reflexivity|]. split; [reflexivity|].
      split; [split; [discriminate|intros (out' & [= <-] & Hle); lia]|].
      split; [intros out' [= <-] Hle; lia|].
      split; [split; reflexivity|].
      discriminate.
  - cbn [cli_name cli_installed cli_version cli_installCmd].
    split; [reflexivity|]. split; [reflexivity|].
    split; [split; [discriminate|by intros (out' & ? & _)]|].
    split; [discriminate|].
    split; [split; reflexivity|].
    discriminate.
Qed.

Lemma str_eqb_neq (a b : list Z) : a <> b -> str_eqb a b = false.
Proof.
  intros Hne. destruct (str_eqb a b) eqn:H; [|reflexivity].
  apply str_eqb_eq in H. contradiction.
Qed.

Section Configured.

Context (E : env) (getenv : list Z -> option (list Z)).

Lemma assoc_configs_unknown (cliName : list Z) :
  cliName <> js "gemini" -> cliName <> js "claude" -> cliName <> js "codex" ->
  assoc cliName (configs getenv) = None.
Proof.
  intros H1 H2 H3. unfold configs. cbn [assoc].
  rewrite (str_eqb_neq _ _ H1), (str_eqb_neq _ _ H2), (str_eqb_neq _ _ H3).
  reflexivity.
Qed.

Lemma checkMCPConfig_unknown (cliName : list Z) (st : state) :
  assoc cliName (configs getenv) = None ->
  checkMCPConfig E getenv cliName st = (Return not_configured, st).
Proof. intros H. unfold checkMCPConfig. rewrite H. reflexivity. Qed.

Lemma checkMCPConfig_cases (cliName : list Z) (st : state) :
  exists check,
    checkMCPConfig E getenv cliName st = (Return check, st) /\
    (check = not_configured \/
     exists path type content,
       assoc cliName (configs getenv) = Some (path, type) /\
       mcp_path check = Some path /\
       FS.read_file (cwd E) (fs st) path = Return content /\
       (type = json_config ->
        exists json v,
          JSON.parse (utf8_decode content) = Return json /\
          (get_prop json (js "mcpServers") = Return v \/
           get_prop json (js "mcp") = Return v) /\
          mcp_configured check = truthy v)).
Proof.
  unfold checkMCPConfig.
  destruct (assoc cliName (configs getenv)) as [[path type]|] eqn:Hassoc;
    [|eexists; split; [reflexivity|left; reflexivity]].
  rewrite bind_unfold. unfold existsSync.
  destruct (FS.exists_path (cwd E) (fs st) path);
    [|eexists; split; [reflexivity|left; reflexivity]].
  unfold try_catch. rewrite bind_unfold. unfold readFileSync.
  destruct (FS.read_file (cwd E) (fs st) path) as [content|e] eqn:Hread;
    [|eexists; split; [reflexivity|left; reflexivity]].
  destruct type.
  - rewrite bind_unfold, lift_return.
    destruct (JSON.parse (utf8_decode content)) as [json|e] eqn:Hparse;
      [|eexists; split; [reflexivity|left; reflexivity]].
    rewrite bind_unfold, lift_return.
    destruct (get_prop json (js "mcpServers")) as [v1|e] eqn:H1;
      [|eexists; split; [reflexivity|left; reflexivity]].
    rewrite bind_unfold. destruct (truthy v1) eqn:Ht1.
    + eexists. split; [reflexivity|]. right. exists path, json_config, content.
      repeat split; try assumption. intros _. exists json, v1.
      split; [exact Hparse|]. split; [left; exact H1|]. reflexivity.
    + rewrite lift_return.
      destruct (get_prop json (js "mcp")) as [v2|e] eqn:H2;
        [|eexists; split; [reflexivity|left; reflexivity]].
      eexists. split; [reflexivity|]. right. exists path, json_config, content.
      repeat split; try assumption. intros _. exists json, v2.
      split; [exact Hparse|]. split; [right; exact H2|]. reflexivity.
  - eexists. split; [reflexivity|]. right. exists path, yaml_config, content.
    repeat split; try assumption. discriminate.
  - eexists. split; [reflexivity|]. right. exists path, toml_config, content.
    repeat split; try assumption. discriminate.
Qed.

End Configured.

(** X9. [checkMCPConfig] never throws and changes nothing. For a name
    other than [gemini], [claude] and [codex] it reports that nothing is
    configured. When it reports a configuration, the file of that tool
    could be read and, if it is a JSON file, it holds a JSON value whose
    [mcpServers] or [mcp] property is truthy. *)
Theorem checkMCPConfig_reports (E : env) (getenv : list Z -> option (list Z))
        (cliName : list Z) (st : state) :
  exists check,
    checkMCPConfig E getenv cliName st = (Return check, st) /\
    (cliName <> js "gemini" -> cliName <> js "claude" -> cliName <> js "codex" ->
     check = not_configured) /\
    (mcp_configured check = true ->
     exists path type content,
       assoc cliName (configs getenv) = Some (path, type) /\
       mcp_path check = Some path /\
       FS.read_file (cwd E) (fs st) path = Return content /\
       (type = json_config ->
        exists json v,
          JSON.parse (utf8_decode content) = Return json /\
          (get_prop json (js "mcpServers") = Return v \/
           get_prop json (js "mcp") = Return v) /\
          truthy v = true)).
Proof.
  destruct (checkMCPConfig_cases E getenv cliName st) as (check & Hrun & Hcases).
  exists check. split; [exact Hrun|]. split.
  - intros H1 H2 H3.
    rewrite (checkMCPConfig_unknown E getenv cliName st
               (assoc_configs_unknown getenv cliName H1 H2 H3)) in Hrun.
    congruence.
  - intros Hconf. destruct Hcases as [->|(path & type & content & Ha & Hp & Hr & Hj)];
      [discriminate|].
    exists path, type, content. repeat split; try assumption.
    intros Htype. destruct (Hj Htype) as (json & v & Hparse & Hprop & Hv).
    exists json, v. repeat split; try assumption. congruence.
Qed.

Lemma checkMCPConfig_reports_witness :
  exists path type content,
    assoc (js "gemini") (configs Machine.getenv) = Some (path, type) /\
    path = js "/home/dev/.gemini/settings.json" /\
    FS.read_file (cwd Stored.E) (fs Machine.st) path = Return content /\
    (type = json_config ->
     exists json v,
       JSON.parse (utf8_decode content) = Return json /\
       (get_prop json (js "mcpServers") = Return v \/
        get_prop json (js "mcp") = Return v) /\
       truthy v = true).
Proof.
  destruct (checkMCPConfig_reports Stored.E Machine.getenv (js "gemini") Machine.st)
    as (check & Hrun & _ & Hconfigured).
  assert (Hcheck : check = {| mcp_configured := true;
                              mcp_path := Some (js "/home/dev/.gemini/settings.json") |}).
  { assert (Hfst : fst (checkMCPConfig Stored.E Machine.getenv (js "gemini") Machine.st)
                   = Return {| mcp_configured := true;
                               mcp_path := Some (js "/home/dev/.gemini/settings.json") |})
      by (vm_compute; reflexivity).
    rewrite Hrun in Hfst. injection Hfst as ->. reflexivity. }
  destruct Hconfigured as (path & type & content & Hassoc & Hpath & Hread & Hjson);
    [rewrite Hcheck; reflexivity|].
  exists path, type, content. split; [exact Hassoc|]. split; [|split; assumption].
  rewrite Hcheck in Hpath. injection Hpath as <-. reflexivity.
Defined.


(** ** The diagnosis *)

Section Diagnosis.

Context (E : env) (exec : list Z -> option (list byte))
        (getenv : list Z -> option (list Z)).

Lemma collect_mcp (l : list CLICheck) (st : state) :
  exists rs,
    collect l (fun cli => mcp ← checkMCPConfig E getenv (cli_name cli); mret (cli, mcp)) st
    = (Return rs, st) /\
    map fst rs = l /\
    Forall (fun r => cli_name (fst r) = js "qwen" -> snd r = not_configured) rs.
Proof.
  unfold collect. induction l as [|cli l IH].
  - exists []. repeat split. constructor.
  - destruct IH as (rs & Hrs & Hfst & Hall).
    destruct (reads_checkMCPConfig E getenv (cli_name cli) st) as (mcp & Hmcp).
    exists ((cli, mcp) :: rs). cbn [array_map].
    rewrite (bind_return _ _ st (cli, mcp) st)
      by (cbv beta; rewrite bind_unfold, Hmcp; reflexivity).
    rewrite (bind_return _ _ _ _ _ Hrs).
    split; [reflexivity|]. split; [cbn [map fst]; f_equal; exact Hfst|].
    constructor; [|exact Hall]. cbn [fst snd]. intros Hname. rewrite Hname in Hmcp.
    rewrite (checkMCPConfig_unknown E getenv (js "qwen") st) in Hmcp
      by (vm_compute; reflexivity).
    congruence.
Qed.

Lemma checkCLI_named (name command installCmd : list Z) (st : state) :
  exists check,
    checkCLI exec name command installCmd st = (Return check, st) /\
    cli_name check = name.
Proof.
  eexists. split; [apply checkCLI_unfold|].
  destruct (exec (command ++ js " --version")) as [out|]; [|reflexivity].
  destruct (Z.of_nat (length out) <=? maxBuffer); reflexivity.
Qed.

Lemma filter_length_pos {A : Type} (f : A -> bool) (l : list A) (x : A) :
  In x l -> f x = true -> (1 <= length (List.filter f l))%nat.
Proof.
  intros Hin Hx. assert (Hf : In x (List.filter f l)) by (apply filter_In; auto).
  destruct (List.filter f l); [contradiction|cbn; lia].
Qed.

Lemma doctor_diagnosis (st : state) :
  exists d,
    doctor E exec getenv st = (Diagnosed d, st) /\
    map cli_name (clis d) = [js "gemini"; js "claude"; js "codex"; js "qwen"] /\
    1 <= totalIssues d.
Proof.
  unfold doctor, doctor_try.
  destruct (checkCLI_named (js "gemini") (js "gemini")
              (js "npm install -g @anthropic-ai/gemini-cli") st) as (gemini & Hg & Hgn).
  destruct (checkCLI_named (js "claude") (js "claude")
              (js "npm install -g @anthropic-ai/claude-code") st) as (claude & Hc & Hcn).
  destruct (checkCLI_named (js "codex") (js "codex")
              (js "npm install -g @openai/codex") st) as (codex & Hx & Hxn).
  destruct (checkCLI_named (js "qwen") (js "qwen")
              (js "pip install qwen-cli") st) as (qwen & Hq' & Hq).
  rewrite (bind_return _ _ _ _ _ Hg), (bind_return _ _ _ _ _ Hc),
    (bind_return _ _ _ _ _ Hx), (bind_return _ _ _ _ _ Hq').
  cbv zeta.
  destruct (collect_mcp (List.filter cli_installed [gemini; claude; codex; qwen]) st)
    as (rs & Hrs & Hfst & Hall).
  rewrite bind_unfold, Hrs.
  destruct (reads_checkDashboardDependencies E exec st) as (ds & Hds).
  rewrite bind_unfold, Hds.
  destruct (reads_checkSkills E st) as (ss & Hss).
  rewrite bind_unfold, Hss.
  rewrite bind_unfold. unfold existsSync at 1.
  match goal with
  | |- context [(?m ≫= _) st] =>
      assert (Hserena : reads m) by (repeat reads_step);
      destruct (Hserena st) as (s & Hs)
  end.
  rewrite bind_unfold, Hs.
  eexists. split; [reflexivity|]. cbn [clis totalIssues].
  split.
  - cbn [map]. rewrite Hgn, Hcn, Hxn, Hq. reflexivity.
  - assert (Hpos : (1 <= length (List.filter (fun c => negb (cli_installed c))
                                             [gemini; claude; codex; qwen]))%nat \/
                   (1 <= length (List.filter
                                   (fun c => negb (mcp_configured (snd c))) rs))%nat).
    { destruct (cli_installed qwen) eqn:Hinst.
      - right.
        assert (Hin : In qwen (map fst rs)).
        { rewrite Hfst. apply filter_In. split; [|exact Hinst].
          right; right; right; left; reflexivity. }
        apply in_map_iff in Hin as (r & Hr & Hinr).
        apply (filter_length_pos _ _ r Hinr).
        rewrite List.Forall_forall in Hall. rewrite (Hall r Hinr); [reflexivity|].
        rewrite Hr. exact Hq.
      - left. apply (filter_length_pos _ _ qwen).
        + right; right; right; left; reflexivity.
        + rewrite Hinst. reflexivity. }
    unfold count. destruct (Nat.eqb (length ss) 0); lia.
Qed.

End Diagnosis.

(** X10. A run of [doctor] never ends in its [catch] branch and changes
    nothing. It checks [gemini], [claude], [codex] and [qwen], in that
    order, and always counts at least one issue: [qwen] is either
    missing or, having no entry among the configurations, reported as
    not configured. *)
Theorem doctor_always_finds_an_issue
        (E : env) (exec : list Z -> option (list byte))
        (getenv : list Z -> option (list Z)) (st : state) :
  exists d,
    doctor E exec getenv st = (Diagnosed d, st) /\
    map cli_name (clis d) = [js "gemini"; js "claude"; js "codex"; js "qwen"] /\
    1 <= totalIssues d.
Proof. apply doctor_diagnosis. Qed.

(** ** Entries of a directory *)

Lemma normalize_nonempty (p : list Z) : Path.normalize p <> [].
Proof.
  destruct p as [|c p]; [discriminate|].
  destruct (resolve_normalize [] (c :: p)) as (tr & Hres & _); [discriminate|].
  intros Heq. rewrite Heq in Hres. discriminate.
Qed.

Lemma join_nonempty (parts : list (list Z)) : Path.join parts <> [].
Proof.
  unfold Path.join. destruct (List.filter _ parts); [discriminate|].
  apply normalize_nonempty.
Qed.

Lemma segments_single (b : list Z) : is_plain b = true -> segments [b] = [b].
Proof.
  intros Hb. destruct (is_plain_spec _ Hb) as (_ & _ & _ & Hslash).
  unfold segments. cbn [flat_map]. rewrite app_nil_r.
  apply (split_no_slash b [] Hslash).
Qed.

Lemma resolve_child (wd a b : list Z) (segs : list (list Z)) (trail : bool) :
  FS.resolve wd a = Some (segs, trail) ->
  is_plain b = true ->
  FS.resolve wd (Path.join [a; b]) = Some (segs ++ [b], false).
Proof.
  intros Ha Hb. destruct (is_plain_spec _ Hb) as (Hne & _).
  assert (Hjoin : FS.resolve wd (Path.join [a; b])
                  = Some (segs ++ segments [b], false)).
  { apply (resolve_join wd a [b] segs trail Ha); [discriminate| |].
    - cbn [forallb]. rewrite Hne. reflexivity.
    - rewrite (segments_single b Hb). cbn [forallb]. rewrite Hb. reflexivity. }
  rewrite (segments_single b Hb) in Hjoin. exact Hjoin.
Qed.

Lemma exists_child (wd : list Z) (t : gmap (list (list Z)) node) (a b : list Z) :
  a <> [] -> FS.has_nul a = false -> is_plain b = true ->
  FS.exists_path wd t (Path.join [a; b]) = true ->
  FS.stat wd t a = Some Dir.
Proof.
  intros Ha Hnul Hb. unfold FS.exists_path, FS.stat.
  destruct (FS.has_nul (Path.join [a; b])); [discriminate|].
  rewrite (resolve_child wd a b _ _ (resolve_nonempty wd a Ha) Hb).
  rewrite (resolve_nonempty wd a Ha).
  unfold FS.lookup_path. rewrite lookup_from_snoc.
  destruct (FS.lookup_from t [] _) as [[c|]|]; try discriminate. reflexivity.
Qed.

Lemma array_map_pure {A B : Type} (f : A -> M B) (g : A -> B) (items : list A) (st : state) :
  (forall x, f x st = (Return (g x), st)) ->
  array_map f items st = (Return (map g items), st).
Proof.
  intros Hf. induction items as [|x items IH]; [reflexivity|].
  cbn [array_map map]. rewrite (bind_return _ _ _ _ _ (Hf x)), (bind_return _ _ _ _ _ IH).
  reflexivity.
Qed.

Lemma allSkills_plain :
  Forall (fun s => is_plain (skill_name s) = true /\ FS.has_nul (skill_name s) = false)
         allSkills.
Proof. repeat constructor. Qed.

Lemma checkSkills_answer (E : env) (st : state) :
  FS.has_nul (cwd E) = false ->
  exists checks,
    checkSkills E st = (Return checks, st) /\
    (FS.exists_path (cwd E) (fs st)
       (Path.join [process_cwd E; js ".agent"; js "skills"]) = false ->
     checks = []) /\
    (FS.exists_path (cwd E) (fs st)
       (Path.join [process_cwd E; js ".agent"; js "skills"]) = true ->
     map check_name checks = map skill_name allSkills) /\
    Forall (fun c => check_hasSkillMd c = true -> check_installed c = true) checks.
Proof.
  intros Hnul. unfold checkSkills, collect. cbv zeta.
  rewrite bind_unfold. unfold existsSync at 1.
  set (skillsDir := Path.join [process_cwd E; js ".agent"; js "skills"]).
  destruct (FS.exists_path (cwd E) (fs st) skillsDir) eqn:Hdir; cbn [negb].
  - rewrite (array_map_pure _ (fun s =>
               {| check_name := skill_name s;
                  check_installed :=
                    FS.exists_path (cwd E) (fs st) (Path.join [skillsDir; skill_name s]);
                  check_hasSkillMd :=
                    FS.exists_path (cwd E) (fs st)
                      (Path.join [Path.join [skillsDir; skill_name s]; js "SKILL.md"]) |}))
      by reflexivity.
    eexists. split; [reflexivity|]. split; [discriminate|].
    split; [intros _; rewrite map_map; reflexivity|].
    apply Forall_map. eapply Forall_impl; [apply allSkills_plain|].
    intros s [Hplain Hsnul]. cbn [check_hasSkillMd check_installed]. intros Hmd.
    assert (Hdirnul : FS.has_nul skillsDir = false).
    { apply has_nul_join. cbn [forallb]. unfold process_cwd. rewrite Hnul. reflexivity. }
    assert (Hpnul : FS.has_nul (Path.join [skillsDir; skill_name s]) = false).
    { apply has_nul_join. cbn [forallb]. rewrite Hdirnul, Hsnul. reflexivity. }
    pose proof (exists_child (cwd E) (fs st) _ (js "SKILL.md")
                  (join_nonempty _) Hpnul eq_refl Hmd) as Hstat.
    unfold FS.exists_path. rewrite Hpnul, Hstat. reflexivity.
  - exists []. split; [reflexivity|]. split; [reflexivity|].
    split; [discriminate|constructor].
Qed.

(** X11. [checkSkills] never throws and changes nothing. Without the
    directory of skills its result is empty; with it, there is one
    check for each of the nine skills, in the order of [SKILLS], and a
    skill whose [SKILL.md] is found is reported as installed. *)
Theorem checkSkills_reports (E : env) (st : state) :
  FS.has_nul (cwd E) = false ->
  exists checks,
    checkSkills E st = (Return checks, st) /\
    (FS.exists_path (cwd E) (fs st)
       (Path.join [process_cwd E; js ".agent"; js "skills"]) = false ->
     checks = []) /\
    (FS.exists_path (cwd E) (fs st)
       (Path.join [process_cwd E; js ".agent"; js "skills"]) = true ->
     map check_name checks = map skill_name allSkills) /\
    Forall (fun c => check_hasSkillMd c = true -> check_installed c = true) checks.
Proof. apply checkSkills_answer. Qed.

Lemma checkSkills_reports_witness :
  exists checks,
    checkSkills Stored.E Skilled.st = (Return checks, Skilled.st) /\
    (FS.exists_path (cwd Stored.E) (fs Skilled.st)
       (Path.join [process_cwd Stored.E; js ".agent"; js "skills"]) = false ->
     checks = []) /\
    (FS.exists_path (cwd Stored.E) (fs Skilled.st)
       (Path.join [process_cwd Stored.E; js ".agent"; js "skills"]) = true ->
     map check_name checks = map skill_name allSkills) /\
    Forall (fun c => check_hasSkillMd c = true -> check_installed c = true) checks.
Proof.
  apply (checkSkills_reports Stored.E Skilled.st). vm_compute. reflexivity.
Defined.

(** ** Files that stay as they were written *)

Lemma lookup_from_insert_file (t : gmap (list (list Z)) node) (k : list (list Z))
      (data : list byte) :
  t !! k <> Some Dir ->
  forall segs pre,
    pre ++ segs <> k ->
    FS.lookup_from (<[k := File data]> t) pre segs = FS.lookup_from t pre segs.
Proof.
  intros Hk. induction segs as [|s segs IH]; intros pre Hne; [reflexivity|].
  cbn [FS.lookup_from]. destruct segs as [|s' segs].
  - rewrite lookup_insert_ne by congruence. reflexivity.
  - destruct (decide (k = pre ++ [s])) as [->|Hks].
    + rewrite lookup_insert_eq.
      destruct (t !! (pre ++ [s])) as [[c|]|]; [reflexivity|contradiction|reflexivity].
    + rewrite lookup_insert_ne by exact Hks.
      destruct (t !! (pre ++ [s])) as [[c|]|]; try reflexivity.
      apply IH. rewrite <- app_assoc. exact Hne.
Qed.

Lemma write_file_other (wd p q : list Z) (data : list byte)
      (t t' : gmap (list (list Z)) node) (k k' : list (list Z)) (tr tr' : bool) :
  FS.write_file wd t p data = Return t' ->
  FS.resolve wd p = Some (k, tr) ->
  FS.resolve wd q = Some (k', tr') ->
  k' <> k ->
  FS.read_file wd t' q = FS.read_file wd t q.
Proof.
  unfold FS.write_file, FS.read_file. intros Hw Hp Hq Hne.
  destruct (FS.has_nul p); [discriminate|]. rewrite Hp in Hw. rewrite Hq.
  destruct (FS.has_nul q); [reflexivity|].
  assert (Hins : forall x, t !! k <> Some Dir ->
                           FS.lookup_path (<[k := File x]> t) k' = FS.lookup_path t k').
  { intros x Hk. apply (lookup_from_insert_file t k x Hk k' []). exact Hne. }
  destruct k as [|s k0]; [discriminate|].
  destruct (FS.lookup_path t (removelast (s :: k0))) as [[c|]|]; try discriminate.
  destruct (t !! (s :: k0)) as [[c|]|] eqn:Hk; try discriminate;
    destruct tr; try discriminate; injection Hw as <-;
    rewrite Hins by discriminate; reflexivity.
Qed.

Lemma subseteq_lookup_from (t t' : gmap (list (list Z)) node) :
  t ⊆ t' ->
  forall segs pre n,
    FS.lookup_from t pre segs = Some n -> FS.lookup_from t' pre segs = Some n.
Proof.
  intros Hsub. induction segs as [|s segs IH]; intros pre n Hl; [exact Hl|].
  cbn [FS.lookup_from] in Hl |- *. destruct segs as [|s' segs].
  - apply (lookup_weaken _ _ _ _ Hl Hsub).
  - destruct (t !! (pre ++ [s])) as [[c|]|] eqn:Hk; try discriminate.
    rewrite (lookup_weaken _ _ _ _ Hk Hsub). apply (IH _ _ Hl).
Qed.

Lemma mkdir_from_subseteq (segs pre : list (list Z)) (t t' : gmap (list (list Z)) node) :
  FS.mkdir_from t pre segs = Return t' -> t ⊆ t'.
Proof.
  revert pre t; induction segs as [|s segs IH]; intros pre t Hm; cbn in Hm.
  - injection Hm as <-. reflexivity.
  - destruct (t !! (pre ++ [s])) as [[c|]|] eqn:Hk.
    + discriminate.
    + apply (IH _ _ Hm).
    + etransitivity; [apply (insert_subseteq t (pre ++ [s]) Dir Hk)|apply (IH _ _ Hm)].
Qed.

Lemma mkdirSync_keeps_files (E : env) (p q : list Z) (st st' : state) (c : list byte) :
  mkdirSync E p st = (Return tt, st') ->
  FS.read_file (cwd E) (fs st) q = Return c ->
  FS.read_file (cwd E) (fs st') q = Return c.
Proof.
  unfold mkdirSync, FS.mkdir_p. intros Hm.
  destruct (FS.has_nul p); [discriminate|].
  destruct (FS.resolve (cwd E) p) as [[segs trail]|]; [|discriminate].
  destruct (FS.mkdir_from (fs st) [] segs) as [t|e] eqn:Hmk; [|discriminate].
  injection Hm as <-. cbn [fs]. unfold FS.read_file.
  destruct (FS.has_nul q); [discriminate|].
  destruct (FS.resolve (cwd E) q) as [[ksegs ktrail]|]; [|discriminate].
  unfold FS.lookup_path.
  destruct (FS.lookup_from (fs st) [] ksegs) as [n|] eqn:Hl; [|discriminate].
  rewrite (subseteq_lookup_from _ _ (mkdir_from_subseteq _ _ _ _ Hmk) _ _ _ Hl).
  intros H. exact H.
Qed.

Lemma writeFileSync_keeps_files (E : env) (p q data : list Z) (st st' : state)
      (k k' : list (list Z)) (tr tr' : bool) :
  writeFileSync E p data st = (Return tt, st') ->
  FS.resolve (cwd E) p = Some (k, tr) ->
  FS.resolve (cwd E) q = Some (k', tr') ->
  k' <> k ->
  FS.read_file (cwd E) (fs st') q = FS.read_file (cwd E) (fs st) q.
Proof.
  unfold writeFileSync. intros Hw Hp Hq Hne.
  destruct (FS.write_file (cwd E) (fs st) p (utf8_encode data)) as [t|e] eqn:Hwf;
    [|discriminate].
  injection Hw as <-. cbn [fs].
  apply (write_file_other _ _ _ _ _ _ _ _ _ _ Hwf Hp Hq Hne).
Qed.

Lemma writeFileSync_written (E : env) (p data : list Z) (st st' : state) :
  writeFileSync E p data st = (Return tt, st') ->
  FS.read_file (cwd E) (fs st') p = Return (utf8_encode data).
Proof.
  unfold writeFileSync. intros Hw.
  destruct (FS.write_file (cwd E) (fs st) p (utf8_encode data)) as [t|e] eqn:Hwf;
    [|discriminate].
  injection Hw as <-. apply (write_file_read _ _ _ _ _ Hwf).
Qed.

Lemma for_of_keeps {A : Type} (E : env) (body : A -> M unit) (q : list Z)
      (items : list A) :
  (forall y st st' c, In y items ->
     body y st = (Return tt, st') ->
     FS.read_file (cwd E) (fs st) q = Return c ->
     FS.read_file (cwd E) (fs st') q = Return c) ->
  forall st st' c,
    for_of items body st = (Return tt, st') ->
    FS.read_file (cwd E) (fs st) q = Return c ->
    FS.read_file (cwd E) (fs st') q = Return c.
Proof.
  induction items as [|y items IH]; intros Hkeep st st' c Hrun Hread.
  - injection Hrun as <-. exact Hread.
  - cbn [for_of] in Hrun. apply bind_inv in Hrun as ([] & st1 & Hy & Hrest).
    apply (IH (fun z s s' c' Hz => Hkeep z s s' c' (or_intror Hz)) st1 st' c Hrest).
    apply (Hkeep y st st1 c (or_introl eq_refl) Hy Hread).
Qed.

(** A loop that installs one file for each item: if each round answers
    for its item and keeps the files of the others, then at the end
    every item has been answered for. *)
Lemma for_of_installs {A : Type} (E : env) (body : A -> M unit) (path : A -> list Z)
      (answer : A -> option (list byte) -> Prop) :
  (forall x st st', body x st = (Return tt, st') ->
     exists found, answer x found /\
       forall c, found = Some c -> FS.read_file (cwd E) (fs st') (path x) = Return c) ->
  forall items,
    (forall x y st st' c, In x items -> In y items -> x <> y ->
       body y st = (Return tt, st') ->
       FS.read_file (cwd E) (fs st) (path x) = Return c ->
       FS.read_file (cwd E) (fs st') (path x) = Return c) ->
    List.NoDup items ->
    forall st st',
      for_of items body st = (Return tt, st') ->
      forall x, In x items ->
        exists found, answer x found /\
          forall c, found = Some c -> FS.read_file (cwd E) (fs st') (path x) = Return c.
Proof.
  intros Hbody. induction items as [|y items IH]; intros Hkeep Hnodup st st' Hrun x Hin;
    [destruct Hin|].
  cbn [for_of] in Hrun. apply bind_inv in Hrun as ([] & st1 & Hy & Hrest).
  inversion Hnodup as [|? ? Hnotin Hnodup']; subst.
  destruct Hin as [<-|Hin].
  - destruct (Hbody y st st1 Hy) as (found & Hanswer & Hfound).
    exists found. split; [exact Hanswer|]. intros c ->.
    apply (for_of_keeps E body (path y) items) with (st := st1); [|exact Hrest|auto].
    intros z s s' c' Hz. apply Hkeep; [left; reflexivity|right; exact Hz|].
    intros ->. contradiction.
  - apply (IH (fun a b s s' c Ha Hb => Hkeep a b s s' c (or_intror Ha) (or_intror Hb))
              Hnodup' st1 st' Hrest x Hin).
Qed.

(** ** The installer *)

Lemma mkdir_from_dir (segs pre : list (list Z)) (t t' : gmap (list (list Z)) node) :
  FS.mkdir_from t pre segs = Return t' -> FS.lookup_from t' pre segs = Some Dir.
Proof.
  revert pre t; induction segs as [|s segs IH]; intros pre t Hm; [reflexivity|].
  cbn [FS.mkdir_from] in Hm. cbn [FS.lookup_from].
  assert (Hkey : forall t1, t1 !! (pre ++ [s]) = Some Dir ->
                            FS.mkdir_from t1 (pre ++ [s]) segs = Return t' ->
                            t' !! (pre ++ [s]) = Some Dir).
  { intros t1 Hk Hrest. pose proof (mkdir_from_grows _ _ _ _ Hrest (pre ++ [s])) as Hg.
    rewrite Hk in Hg. exact Hg. }
  destruct (t !! (pre ++ [s])) as [[c|]|] eqn:Hk; [discriminate| |].
  - rewrite (Hkey t Hk Hm). destruct segs; [reflexivity|apply (IH _ _ Hm)].
  - rewrite (Hkey _ (lookup_insert_eq _ _ _) Hm).
    destruct segs; [reflexivity|apply (IH _ _ Hm)].
Qed.

Lemma mkdirSync_exists (E : env) (p : list Z) (st st' : state) :
  mkdirSync E p st = (Return tt, st') ->
  FS.exists_path (cwd E) (fs st') p = true.
Proof.
  unfold mkdirSync, FS.mkdir_p, FS.exists_path, FS.stat. intros Hm.
  destruct (FS.has_nul p); [discriminate|].
  destruct (FS.resolve (cwd E) p) as [[segs trail]|]; [|discriminate].
  destruct (FS.mkdir_from (fs st) [] segs) as [t|e] eqn:Hmk; [|discriminate].
  injection Hm as <-. cbn [fs]. unfold FS.lookup_path.
  rewrite (mkdir_from_dir _ _ _ _ Hmk). reflexivity.
Qed.

Lemma ensure_dir_exists (E : env) (p : list Z) (st st' : state) :
  (present ← existsSync E p;
   if negb present then mkdirSync E p else mret tt) st = (Return tt, st') ->
  FS.exists_path (cwd E) (fs st') p = true.
Proof.
  rewrite bind_unfold. unfold existsSync.
  destruct (FS.exists_path (cwd E) (fs st) p) eqn:Hex; cbn [negb].
  - intros H. injection H as <-. exact Hex.
  - apply mkdirSync_exists.
Qed.

Section Installed.

Context (E : env).

Lemma fetched_file (url : list Z) (st st' : state) (res : Z * option (list byte)) :
  fetch E url st = (Return res, st') ->
  net E url = Response (fst res) (snd res) /\ fs st' = fs st.
Proof.
  rewrite fetch_unfold. destruct (net E url) as [|status body]; [discriminate|].
  intros H. injection H as <- <-. split; reflexivity.
Qed.

Lemma text_body (res : Z * option (list byte)) (st st' : state) (content : list Z) :
  text res st = (Return content, st') ->
  exists b, snd res = Some b /\ content = utf8_decode_bom b /\ st' = st.
Proof.
  unfold text. destruct (snd res) as [b|]; [|discriminate].
  intros H. injection H as <- <-. eauto.
Qed.

Lemma installSharedFile_answers (sharedDir file : list Z) (st st' : state) :
  installSharedFile E sharedDir file st = (Return tt, st') ->
  exists found,
    served E (shared_url file) found /\
    forall c, found = Some c ->
              FS.read_file (cwd E) (fs st') (Path.join [sharedDir; file]) = Return c.
Proof.
  unfold installSharedFile. intros Hrun.
  apply bind_inv in Hrun as ([status body] & st1 & Hfetch & Hrun).
  destruct (fetched_file _ _ _ _ Hfetch) as [Hnet _]. cbn [fst snd] in Hnet.
  destruct (ok (status, body)) eqn:Hok; cbn [negb] in Hrun.
  - apply bind_inv in Hrun as (content & st2 & Htext & Hwrite).
    destruct (text_body _ _ _ _ Htext) as (b & Hb & -> & ->). cbn [snd] in Hb.
    exists (Some (utf8_encode (utf8_decode_bom b))). split.
    + exists status, body. split; [exact Hnet|]. split; [exact Hok|]. eauto.
    + intros c Hc. injection Hc as <-. apply (writeFileSync_written _ _ _ _ _ Hwrite).
  - exists None. split; [|discriminate].
    exists status, body. split; [exact Hnet|exact Hok].
Qed.

Lemma installSharedFile_keeps (sharedDir x y : list Z) (st st' : state) (c : list byte) :
  sharedDir <> [] -> is_plain x = true -> is_plain y = true -> x <> y ->
  installSharedFile E sharedDir y st = (Return tt, st') ->
  FS.read_file (cwd E) (fs st) (Path.join [sharedDir; x]) = Return c ->
  FS.read_file (cwd E) (fs st') (Path.join [sharedDir; x]) = Return c.
Proof.
  intros Hdir Hx Hy Hne Hrun Hread. unfold installSharedFile in Hrun.
  apply bind_inv in Hrun as (res & st1 & Hfetch & Hrun).
  destruct (fetched_file _ _ _ _ Hfetch) as [_ Hfs].
  destruct (negb (ok res)).
  - injection Hrun as <-. rewrite Hfs. exact Hread.
  - apply bind_inv in Hrun as (content & st2 & Htext & Hwrite).
    destruct (text_body _ _ _ _ Htext) as (b & _ & _ & ->).
    rewrite (writeFileSync_keeps_files E _ _ _ _ _ _ _ _ _ Hwrite
               (resolve_child _ _ _ _ _ (resolve_nonempty _ _ Hdir) Hy)
               (resolve_child _ _ _ _ _ (resolve_nonempty _ _ Hdir) Hx)).
    + rewrite Hfs. exact Hread.
    + intros Heq. apply app_inv_head in Heq. congruence.
Qed.

End Installed.

Lemma join_split (p cur : list Z) :
  JSON.join_with [Path.slash] (Path.split p cur) = rev cur ++ p.
Proof.
  revert cur; induction p as [|c p IH]; intros cur; cbn [Path.split].
  - cbn. rewrite app_nil_r. reflexivity.
  - destruct (Z.eqb_spec c Path.slash) as [->|Hne].
    + pose proof (split_nonempty p []) as Hp. specialize (IH []).
      destruct (Path.split p []) as [|y l]; [congruence|].
      change (JSON.join_with [Path.slash] (rev cur :: y :: l))
        with (rev cur ++ Path.slash :: JSON.join_with [Path.slash] (y :: l)).
      rewrite IH. reflexivity.
    + rewrite IH. cbn [rev]. rewrite <- app_assoc. reflexivity.
Qed.

Lemma segments_inj (x y : list Z) : segments [x] = segments [y] -> x = y.
Proof.
  unfold segments. cbn [flat_map]. rewrite !app_nil_r. intros H.
  pose proof (join_split x []) as Hx. pose proof (join_split y []) as Hy.
  cbn [rev app] in Hx, Hy. rewrite <- Hx, <- Hy, H. reflexivity.
Qed.

Lemma resolve_file (wd a file : list Z) :
  a <> [] -> names_entries file = true ->
  exists segs trail,
    FS.resolve wd a = Some (segs, trail) /\
    FS.resolve wd (Path.join [a; file]) = Some (segs ++ segments [file], false).
Proof.
  intros Ha Hfile. unfold names_entries in Hfile.
  apply andb_prop in Hfile as [Hne Hplain].
  eexists _, _. split; [apply (resolve_nonempty wd a Ha)|].
  apply (resolve_join wd a [file] _ _ (resolve_nonempty wd a Ha));
    [discriminate| |exact Hplain].
  cbn [forallb]. rewrite Hne. reflexivity.
Qed.

Lemma plain_names_entries (x : list Z) : is_plain x = true -> names_entries x = true.
Proof.
  intros Hx. unfold names_entries. rewrite (segments_single x Hx).
  cbn [forallb]. rewrite Hx. destruct (is_plain_spec _ Hx) as (-> & _). reflexivity.
Qed.

Section Installing.

Context (E : env).

Lemma ensured_dir (p : list Z) (st st' : state) :
  (if negb (FS.exists_path (cwd E) (fs st) p) then mkdirSync E p else mret tt) st
  = (Return tt, st') ->
  FS.exists_path (cwd E) (fs st') p = true /\
  forall q c, FS.read_file (cwd E) (fs st) q = Return c ->
              FS.read_file (cwd E) (fs st') q = Return c.
Proof.
  destruct (FS.exists_path (cwd E) (fs st) p) eqn:Hex; cbn [negb]; intros H.
  - injection H as <-. split; [exact Hex|auto].
  - split; [apply (mkdirSync_exists _ _ _ _ H)|].
    intros q c. apply (mkdirSync_keeps_files _ _ _ _ _ _ H).
Qed.

Lemma grows_installSharedFile (sharedDir file : list Z) :
  preserves grows (installSharedFile E sharedDir file).
Proof. unfold installSharedFile. repeat grows_step. Qed.

Lemma grows_installShared (targetDir : list Z) :
  preserves grows (installShared E targetDir).
Proof.
  unfold installShared. cbv zeta. grows_step; [grows_step|].
  grows_step; [grows_step|].
  apply (preserves_for_of grows). intros file. apply grows_installSharedFile.
Qed.

Lemma sharedFiles_plain : Forall (fun f => is_plain f = true) sharedFiles.
Proof. repeat constructor. Qed.

Lemma sharedFiles_NoDup : List.NoDup sharedFiles.
Proof. apply NoDup_ListNoDup, (bool_decide_unpack _). vm_compute. exact I. Qed.

Lemma installShared_done (targetDir : list Z) (st st' : state) :
  installShared E targetDir st = (Return tt, st') ->
  FS.exists_path (cwd E) (fs st')
    (Path.join [targetDir; js ".agent"; js "skills"; js "_shared"]) = true /\
  forall file, In file sharedFiles ->
    exists found,
      served E (shared_url file) found /\
      forall c, found = Some c ->
        FS.read_file (cwd E) (fs st')
          (Path.join [Path.join [targetDir; js ".agent"; js "skills"; js "_shared"];
                      file])
        = Return c.
Proof.
  unfold installShared. cbv zeta.
  set (sharedDir := Path.join [targetDir; js ".agent"; js "skills"; js "_shared"]).
  intros Hrun.
  apply bind_inv in Hrun as (present & st0 & Hex & Hrun).
  unfold existsSync in Hex. injection Hex as <- <-.
  apply bind_inv in Hrun as ([] & st1 & Hmk & Hloop).
  destruct (ensured_dir _ _ _ Hmk) as [Hdir _].
  split.
  - apply (grows_exists _ (fs st1)); [|exact Hdir].
    apply (preserves_for_of grows _ _ (grows_installSharedFile sharedDir) _ _ _ Hloop).
  - apply (for_of_installs E _ (fun file => Path.join [sharedDir; file])
                           (fun file => served E (shared_url file))
                           (installSharedFile_answers E sharedDir)
                           sharedFiles)
      with (st := st1); [|apply sharedFiles_NoDup|exact Hloop].
    intros x y s s' c Hx Hy Hne.
    apply (installSharedFile_keeps E sharedDir x y s s' c (join_nonempty _)
             (proj1 (List.Forall_forall _ _) sharedFiles_plain x Hx)
             (proj1 (List.Forall_forall _ _) sharedFiles_plain y Hy) Hne).
Qed.

End Installing.

(** X12. When [installShared] returns, the directory of shared files
    exists, and each of the four shared files that the registry answered
    for with a success status holds the text of that answer; the other
    answers had another status. *)
Theorem installShared_installs_what_is_served
        (E : env) (targetDir : list Z) (st st' : state) :
  installShared E targetDir st = (Return tt, st') ->
  FS.exists_path (cwd E) (fs st')
    (Path.join [targetDir; js ".agent"; js "skills"; js "_shared"]) = true /\
  forall file, In file sharedFiles ->
    exists found,
      served E (shared_url file) found /\
      forall c, found = Some c ->
        FS.read_file (cwd E) (fs st')
          (Path.join [Path.join [targetDir; js ".agent"; js "skills"; js "_shared"];
                      file])
        = Return c.
Proof. apply installShared_done. Qed.

Lemma installShared_installs_what_is_served_witness :
  let st' := snd (installShared Registry.E World.home World.fresh) in
  FS.exists_path (cwd Registry.E) (fs st')
    (Path.join [World.home; js ".agent"; js "skills"; js "_shared"]) = true /\
  forall file, In file sharedFiles ->
    exists found,
      served Registry.E (shared_url file) found /\
      forall c, found = Some c ->
        FS.read_file (cwd Registry.E) (fs st')
          (Path.join [Path.join [World.home; js ".agent"; js "skills"; js "_shared"];
                      file])
        = Return c.
Proof.
  intros st'.
  apply (installShared_installs_what_is_served Registry.E World.home World.fresh st').
  apply (run_returned (installShared Registry.E World.home World.fresh) (Return tt)).
  vm_compute. reflexivity.
Defined.

Section Skill.

Context (E : env) (head : list Z -> fetch_result).

Lemma probe_inv (skillName : list Z) :
  forall candidates files st listed st',
    probe head skillName candidates files st = (Return listed, st') ->
    listed = files ++ List.filter
                        (fun file => answered_ok head (skill_url skillName file))
                        candidates /\
    fs st' = fs st.
Proof.
  induction candidates as [|file rest IH]; intros files st listed st' Hrun.
  - injection Hrun as <- <-. rewrite app_nil_r. split; reflexivity.
  - cbn [probe] in Hrun. apply bind_inv in Hrun as (res & st1 & Hhead & Hrun).
    rewrite fetch_head_unfold in Hhead. cbn [List.filter]. unfold answered_ok at 1.
    destruct (head (skill_url skillName file)) as [|status body]; [discriminate|].
    injection Hhead as <- <-.
    destruct (IH _ _ _ _ Hrun) as [-> Hfs]. split; [|exact Hfs].
    destruct (ok (status, body)); [rewrite <- app_assoc|]; reflexivity.
Qed.

Lemma installSkillFile_answers (skillName skillDir file : list Z) (st st' : state) :
  installSkillFile E skillName skillDir file st = (Return tt, st') ->
  exists found,
    served E (skill_url skillName file) found /\
    forall c, found = Some c ->
              FS.read_file (cwd E) (fs st') (Path.join [skillDir; file]) = Return c.
Proof.
  unfold installSkillFile. cbv zeta. intros Hrun.
  apply bind_inv in Hrun as ([status body] & st1 & Hfetch & Hrun).
  destruct (fetched_file _ _ _ _ _ Hfetch) as [Hnet _]. cbn [fst snd] in Hnet.
  destruct (ok (status, body)) eqn:Hok; cbn [negb] in Hrun.
  - apply bind_inv in Hrun as (content & st2 & Htext & Hrun).
    destruct (text_body _ _ _ _ Htext) as (b & Hb & -> & ->). cbn [snd] in Hb.
    apply bind_inv in Hrun as (present & st3 & _ & Hrun).
    apply bind_inv in Hrun as ([] & st4 & _ & Hwrite).
    exists (Some (utf8_encode (utf8_decode_bom b))). split.
    + exists status, body. split; [exact Hnet|]. split; [exact Hok|]. eauto.
    + intros c Hc. injection Hc as <-. apply (writeFileSync_written _ _ _ _ _ Hwrite).
  - exists None. split; [|discriminate].
    exists status, body. split; [exact Hnet|exact Hok].
Qed.

Lemma installSkillFile_keeps (skillName skillDir x y : list Z) (st st' : state)
      (c : list byte) :
  skillDir <> [] -> names_entries x = true -> names_entries y = true -> x <> y ->
  installSkillFile E skillName skillDir y st = (Return tt, st') ->
  FS.read_file (cwd E) (fs st) (Path.join [skillDir; x]) = Return c ->
  FS.read_file (cwd E) (fs st') (Path.join [skillDir; x]) = Return c.
Proof.
  intros Hdir Hx Hy Hne Hrun Hread. unfold installSkillFile in Hrun. cbv zeta in Hrun.
  apply bind_inv in Hrun as (res & st1 & Hfetch & Hrun).
  destruct (fetched_file _ _ _ _ _ Hfetch) as [_ Hfs].
  destruct (negb (ok res)).
  - injection Hrun as <-. rewrite Hfs. exact Hread.
  - apply bind_inv in Hrun as (content & st2 & Htext & Hrun).
    destruct (text_body _ _ _ _ Htext) as (b & _ & _ & ->).
    apply bind_inv in Hrun as (present & st3 & Hex & Hrun).
    unfold existsSync in Hex. injection Hex as <- <-.
    apply bind_inv in Hrun as ([] & st4 & Hmk & Hwrite).
    destruct (ensured_dir _ _ _ _ Hmk) as [_ Hkeep].
    destruct (resolve_file (cwd E) skillDir x Hdir Hx) as (segs & tr & Ha & Hrx).
    destruct (resolve_file (cwd E) skillDir y Hdir Hy) as (segs' & tr' & Ha' & Hry).
    rewrite Ha in Ha'. injection Ha' as <- <-.
    rewrite (writeFileSync_keeps_files E _ _ _ _ _ _ _ _ _ Hwrite Hry Hrx).
    + apply Hkeep. rewrite Hfs. exact Hread.
    + intros Heq. apply app_inv_head in Heq. apply segments_inj in Heq. contradiction.
Qed.

Lemma candidates_name_entries :
  Forall (fun f => names_entries f = true) (js "SKILL.md" :: resourceFiles).
Proof. repeat constructor. Qed.

Lemma candidates_NoDup : List.NoDup (js "SKILL.md" :: resourceFiles).
Proof. apply NoDup_ListNoDup, (bool_decide_unpack _). vm_compute. exact I. Qed.

Lemma installSkill_done (skillName targetDir : list Z) (st st' : state) (r : bool) :
  installSkill E head skillName targetDir st = (Return r, st') ->
  r = true /\
  forall file,
    In file (js "SKILL.md" ::
             List.filter (fun f => answered_ok head (skill_url skillName f))
                         resourceFiles) ->
    exists found,
      served E (skill_url skillName file) found /\
      forall c, found = Some c ->
        FS.read_file (cwd E) (fs st')
          (Path.join [Path.join [targetDir; js ".agent"; js "skills"; skillName];
                      file])
        = Return c.
Proof.
  unfold installSkill. cbv zeta.
  set (skillDir := Path.join [targetDir; js ".agent"; js "skills"; skillName]).
  intros Hrun.
  apply bind_inv in Hrun as (files & st1 & Hfiles & Hrun).
  apply bind_inv in Hrun as ([] & st2 & Hloop & Hret).
  injection Hret as <- <-. split; [reflexivity|].
  unfold fetchSkillFiles in Hfiles.
  destruct (probe_inv _ _ _ _ _ _ Hfiles) as [-> _]. cbn [app].
  assert (Hsub : forall x,
             In x (js "SKILL.md" ::
                   List.filter (fun f => answered_ok head (skill_url skillName f))
                               resourceFiles) ->
             names_entries x = true).
  { intros x Hx. apply (proj1 (List.Forall_forall _ _) candidates_name_entries).
    destruct Hx as [<-|Hx]; [left; reflexivity|right].
    apply filter_In in Hx as [Hx _]. exact Hx. }
  apply (for_of_installs E _ (fun file => Path.join [skillDir; file])
                         (fun file => served E (skill_url skillName file))
                         (installSkillFile_answers skillName skillDir) _)
    with (st := st1); [| |exact Hloop].
  - intros x y s s' c Hx Hy Hne.
    apply (installSkillFile_keeps skillName skillDir x y s s' c (join_nonempty _)
             (Hsub x Hx) (Hsub y Hy) Hne).
  - pose proof candidates_NoDup as Hnd. inversion Hnd as [|? ? Hnotin Hnd']; subst.
    constructor; [|apply List.NoDup_filter; exact Hnd'].
    intros Hin. apply filter_In in Hin as [Hin _]. contradiction.
Qed.

End Skill.

(** X13. [installSkill] returns [true] whenever it returns. By then
    [SKILL.md] and every resource file whose [HEAD] request was answered
    with a success has been asked for, and each of them that the
    registry answered for with a success status holds the text of that
    answer. *)
Theorem installSkill_installs_what_is_served
        (E : env) (head : list Z -> fetch_result) (skillName targetDir : list Z)
        (st st' : state) (r : bool) :
  installSkill E head skillName targetDir st = (Return r, st') ->
  r = true /\
  forall file,
    In file (js "SKILL.md" ::
             List.filter (fun f => answered_ok head (skill_url skillName f))
                         resourceFiles) ->
    exists found,
      served E (skill_url skillName file) found /\
      forall c, found = Some c ->
        FS.read_file (cwd E) (fs st')
          (Path.join [Path.join [targetDir; js ".agent"; js "skills"; skillName];
                      file])
        = Return c.
Proof. apply installSkill_done. Qed.

Lemma installSkill_installs_what_is_served_witness :
  true = true /\
  forall file,
    In file (js "SKILL.md" ::
             List.filter (fun f => answered_ok Registry.head (skill_url (js "commit") f))
                         resourceFiles) ->
    exists found,
      served Registry.E (skill_url (js "commit") file) found /\
      forall c, found = Some c ->
        FS.read_file (cwd Registry.E) (fs Registry.installed)
          (Path.join [Path.join [World.home; js ".agent"; js "skills"; js "commit"];
                      file])
        = Return c.
Proof.
  apply (installSkill_installs_what_is_served
           Registry.E Registry.head (js "commit") World.home World.fresh
           Registry.installed true).
  apply (run_returned (installSkill Registry.E Registry.head (js "commit") World.home
                                    World.fresh) (Return true)).
  vm_compute. reflexivity.
Defined.

(** ** What the installer leaves alone *)

Lemma confined_refl (pre : list (list Z)) (t : gmap (list (list Z)) node) :
  confined pre t t.
Proof. intros k _. left. reflexivity. Qed.

Lemma confined_trans (pre : list (list Z)) (t1 t2 t3 : gmap (list (list Z)) node) :
  confined pre t1 t2 -> confined pre t2 t3 -> confined pre t1 t3.
Proof.
  intros H12 H23 k Hk. destruct (H12 k Hk) as [E12|[N1 D2]], (H23 k Hk) as [E23|[N2 D3]].
  - left. congruence.
  - right. split; congruence.
  - right. split; congruence.
  - congruence.
Qed.

#[local] Instance confined_preorder (pre : list (list Z)) : PreOrder (confined pre).
Proof. split; [exact (confined_refl pre)|exact (confined_trans pre)]. Qed.

Lemma mkdir_from_adds_dirs (segs pre : list (list Z)) (t t' : gmap (list (list Z)) node) :
  FS.mkdir_from t pre segs = Return t' ->
  forall k, t' !! k = t !! k \/ (t !! k = None /\ t' !! k = Some Dir).
Proof.
  revert pre t; induction segs as [|s segs IH]; intros pre t Hm k; cbn in Hm.
  - injection Hm as <-. left. reflexivity.
  - destruct (t !! (pre ++ [s])) as [[c|]|] eqn:Hk.
    + discriminate.
    + apply (IH _ _ Hm).
    + destruct (IH _ _ Hm k) as [Heq|[Hnone Hdir]].
      * destruct (decide (k = pre ++ [s])) as [->|Hne].
        -- right. rewrite lookup_insert_eq in Heq. split; [exact Hk|exact Heq].
        -- left. rewrite lookup_insert_ne in Heq by congruence. exact Heq.
      * right. split; [|exact Hdir].
        destruct (decide (k = pre ++ [s])) as [->|Hne]; [exact Hk|].
        rewrite lookup_insert_ne in Hnone by congruence. exact Hnone.
Qed.

Lemma confined_mkdirSync (E : env) (pre : list (list Z)) (p : list Z) :
  preserves (confined pre) (mkdirSync E p).
Proof.
  intros st r st' H. unfold mkdirSync, FS.mkdir_p in H.
  destruct (FS.has_nul p); [injection H as _ <-; reflexivity|].
  destruct (FS.resolve (cwd E) p) as [[segs trail]|];
    [|injection H as _ <-; reflexivity].
  destruct (FS.mkdir_from (fs st) [] segs) as [t|e] eqn:Hmk;
    injection H as _ <-; [|reflexivity].
  intros k _. apply (mkdir_from_adds_dirs _ _ _ _ Hmk).
Qed.

Lemma confined_writeFileSync (E : env) (pre : list (list Z)) (p data : list Z)
      (k : list (list Z)) (tr : bool) :
  FS.resolve (cwd E) p = Some (k, tr) -> pre `prefix_of` k ->
  preserves (confined pre) (writeFileSync E p data).
Proof.
  intros Hp Hpre st r st' H. unfold writeFileSync, FS.write_file in H.
  rewrite Hp in H.
  destruct (FS.has_nul p); [injection H as _ <-; reflexivity|].
  destruct k as [|s k0]; [injection H as _ <-; reflexivity|].
  destruct (FS.lookup_path (fs st) (removelast (s :: k0))) as [[c|]|];
    try (injection H as _ <-; reflexivity).
  destruct (fs st !! (s :: k0)) as [[c|]|]; destruct tr;
    injection H as _ <-; try reflexivity;
    intros k' Hk'; left; cbn [fs]; apply lookup_insert_ne; intros <-; contradiction.
Qed.

Lemma confined_ensure_dir (E : env) (pre : list (list Z)) (p : list Z) (present : bool) :
  preserves (confined pre) (if negb present then mkdirSync E p else mret tt).
Proof.
  destruct present; [apply (preserves_ret (confined pre))|apply confined_mkdirSync].
Qed.

Section Confined.

Context (E : env) (head : list Z -> fetch_result).
Lemma confined_install_file (pre : list (list Z)) (url dir file : list Z)
      (segs : list (list Z)) (tr : bool) (mkdir : bool) :
  FS.resolve (cwd E) dir = Some (segs, tr) ->
  pre `prefix_of` segs ->
  names_entries file = true ->
  preserves (confined pre)
    (res ← fetch E url;
     if negb (ok res) then mret tt
     else
       content ← text res;
       if mkdir then
         present ← existsSync E (Path.dirname (Path.join [dir; file]));
         _ ← (if negb present
              then mkdirSync E (Path.dirname (Path.join [dir; file]))
              else mret tt);
         writeFileSync E (Path.join [dir; file]) content
       else writeFileSync E (Path.join [dir; file]) content).
Proof.
  intros Hdir Hpre Hfile.
  assert (Hane : dir <> []) by (intros ->; discriminate).
  destruct (resolve_file (cwd E) dir file Hane Hfile) as (segs' & tr' & Ha & Hres).
  rewrite Hdir in Ha. injection Ha as <- <-.
  assert (Hwrite : forall content,
             preserves (confined pre) (writeFileSync E (Path.join [dir; file]) content)).
  { intros content. apply (confined_writeFileSync E pre _ _ _ _ Hres).
    apply prefix_app_r. exact Hpre. }
  apply (preserves_bind (confined pre)); [apply (preserves_fetch (confined pre))|].
  intros res. destruct (negb (ok res)); [apply (preserves_ret (confined pre))|].
  apply (preserves_bind (confined pre)); [apply (preserves_text (confined pre))|].
  intros content. destruct mkdir; [|apply Hwrite].
  apply (preserves_bind (confined pre)); [apply (preserves_existsSync (confined pre))|].
  intros present.
  apply (preserves_bind (confined pre)); [apply confined_ensure_dir|].
  intros _. apply Hwrite.
Qed.

Lemma confined_installShared (targetDir : list Z) (base : list (list Z)) (tr : bool) :
  FS.resolve (cwd E) targetDir = Some (base, tr) ->
  preserves (confined (base ++ [js ".agent"; js "skills"])) (installShared E targetDir).
Proof.
  intros Hbase. unfold installShared. cbv zeta.
  apply (preserves_bind (confined _)); [apply (preserves_existsSync (confined _))|].
  intros present.
  apply (preserves_bind (confined _)); [apply confined_ensure_dir|]. intros _.
  apply (preserves_for_of_In (confined _)). intros file Hin.
  apply (confined_install_file _ (shared_url file) _ file
           (base ++ [js ".agent"; js "skills"; js "_shared"]) false false).
  - apply (resolve_join (cwd E) targetDir [js ".agent"; js "skills"; js "_shared"]
                        base tr Hbase); [discriminate|reflexivity|reflexivity].
  - exists [js "_shared"]. rewrite <- app_assoc. reflexivity.
  - apply plain_names_entries.
    apply (proj1 (List.Forall_forall _ _) sharedFiles_plain file Hin).
Qed.

Lemma segments_app (l1 l2 : list (list Z)) :
  segments (l1 ++ l2) = segments l1 ++ segments l2.
Proof. apply flat_map_app. Qed.

Lemma resolve_skillDir (targetDir skillName : list Z) (base : list (list Z)) (tr : bool) :
  FS.resolve (cwd E) targetDir = Some (base, tr) ->
  is_plain skillName = true ->
  FS.resolve (cwd E) (Path.join [targetDir; js ".agent"; js "skills"; skillName])
  = Some (base ++ [js ".agent"; js "skills"; skillName], false).
Proof.
  intros Hbase Hname. destruct (is_plain_spec _ Hname) as (Hne & _).
  assert (Hsegs : segments [js ".agent"; js "skills"; skillName]
                  = [js ".agent"; js "skills"; skillName]).
  { change [js ".agent"; js "skills"; skillName]
      with ([js ".agent"; js "skills"] ++ [skillName]) at 1.
    rewrite segments_app, (segments_single _ Hname). reflexivity. }
  rewrite <- Hsegs at 2.
  apply (resolve_join (cwd E) targetDir [js ".agent"; js "skills"; skillName]
                      base tr Hbase); [discriminate| |].
  - cbn [forallb]. rewrite Hne. reflexivity.
  - rewrite Hsegs. cbn [forallb]. rewrite Hname. reflexivity.
Qed.

Lemma fetchSkillFiles_candidates (skillName : list Z) (st st' : state)
      (files : list (list Z)) :
  fetchSkillFiles head skillName st = (Return files, st') ->
  forall file, In file files -> In file (js "SKILL.md" :: resourceFiles).
Proof.
  unfold fetchSkillFiles. intros Hrun file Hin.
  destruct (probe_inv head _ _ _ _ _ _ Hrun) as [-> _].
  destruct Hin as [<-|Hin]; [left; reflexivity|right].
  apply filter_In in Hin as [Hin _]. exact Hin.
Qed.

Lemma preserves_fetchSkillFiles (R : gmap (list (list Z)) node ->
                                     gmap (list (list Z)) node -> Prop)
      `{!PreOrder R} (skillName : list Z) :
  preserves R (fetchSkillFiles head skillName).
Proof.
  unfold fetchSkillFiles. generalize [js "SKILL.md"].
  induction resourceFiles as [|file rest IH]; intros files; cbn [probe].
  - apply (preserves_ret R).
  - apply (preserves_bind R); [apply (preserves_fetch_head R)|]. intros res. apply IH.
Qed.

Lemma confined_installSkill (skillName targetDir : list Z) (base : list (list Z))
      (tr : bool) :
  FS.resolve (cwd E) targetDir = Some (base, tr) ->
  is_plain skillName = true ->
  preserves (confined (base ++ [js ".agent"; js "skills"]))
            (installSkill E head skillName targetDir).
Proof.
  intros Hbase Hname. unfold installSkill. cbv zeta.
  apply (preserves_bind_post (confined _)
           (fun files => forall file, In file files ->
                                      In file (js "SKILL.md" :: resourceFiles))).
  - intros st files st' Hrun. apply (fetchSkillFiles_candidates _ _ _ _ Hrun).
  - apply (preserves_fetchSkillFiles (confined _)).
  - intros files Hfiles.
    apply (preserves_bind (confined _)); [|intros _; apply (preserves_ret (confined _))].
    apply (preserves_for_of_In (confined _)). intros file Hin.
    apply (confined_install_file _ (skill_url skillName file) _ file
             (base ++ [js ".agent"; js "skills"; skillName]) false true).
    + apply (resolve_skillDir _ _ _ _ Hbase Hname).
    + exists [skillName]. rewrite <- app_assoc. reflexivity.
    + apply (proj1 (List.Forall_forall _ _) candidates_name_entries file
                   (Hfiles file Hin)).
Qed.

Lemma confined_main_try (selectedSkills : list (list Z)) (base : list (list Z))
      (tr : bool) :
  FS.resolve (cwd E) (cwd E) = Some (base, tr) ->
  Forall (fun n => is_plain n = true) selectedSkills ->
  preserves (confined (base ++ [js ".agent"; js "skills"]))
            (main_try E head selectedSkills).
Proof.
  intros Hbase Hplain. unfold main_try.
  apply (preserves_bind (confined _));
    [apply (confined_installShared _ _ _ Hbase)|]. intros _.
  apply (preserves_for_of_In (confined _)). intros skillName Hin.
  apply (preserves_bind (confined _)); [|intros _; apply (preserves_ret (confined _))].
  apply (confined_installSkill _ _ _ _ Hbase).
  apply (proj1 (List.Forall_forall _ _) Hplain skillName Hin).
Qed.

Lemma grows_installSkill (skillName targetDir : list Z) :
  preserves grows (installSkill E head skillName targetDir).
Proof.
  unfold installSkill. cbv zeta.
  apply (preserves_bind grows); [apply (preserves_fetchSkillFiles grows)|].
  intros files.
  apply (preserves_bind grows); [|intros _; apply (preserves_ret grows)].
  apply (preserves_for_of grows). intros file.
  unfold installSkillFile. cbv zeta. repeat grows_step.
Qed.

Lemma grows_main_try (selectedSkills : list (list Z)) :
  preserves grows (main_try E head selectedSkills).
Proof.
  unfold main_try.
  apply (preserves_bind grows); [apply grows_installShared|]. intros _.
  apply (preserves_for_of grows). intros skillName.
  apply (preserves_bind grows); [apply grows_installSkill|].
  intros _. apply (preserves_ret grows).
Qed.

End Confined.

Lemma presets_plain (value : list Z) (names : list (list Z)) :
  assoc value PRESETS = Some names -> Forall (fun n => is_plain n = true) names.
Proof.
  unfold PRESETS. cbn [assoc].
  repeat (destruct (str_eqb value _);
          [intros H; injection H as <-; repeat constructor|]).
  discriminate.
Qed.

Lemma selection_plain (projectType : answer (list Z)) (selected : answer (list (list Z)))
      (names : list (list Z)) :
  (forall chosen, selected = Answered chosen ->
                  Forall (fun n => is_plain n = true) chosen) ->
  selection projectType selected = Some names ->
  Forall (fun n => is_plain n = true) names.
Proof.
  intros Hsel. unfold selection. destruct projectType as [|value]; [discriminate|].
  destruct (str_eqb value (js "custom")).
  - destruct selected as [|chosen]; [discriminate|].
    intros H. injection H as <-. apply (Hsel chosen eq_refl).
  - destruct (assoc value PRESETS) as [preset|] eqn:Hp;
      intros H; injection H as <-; [apply (presets_plain _ _ Hp)|constructor].
Qed.

Lemma main_footprint (E : env) (head : list Z -> fetch_result)
      (projectType : answer (list Z)) (selected : answer (list (list Z)))
      (st : state) (base : list (list Z)) (tr : bool) :
  FS.resolve (cwd E) (cwd E) = Some (base, tr) ->
  (forall chosen, selected = Answered chosen ->
                  Forall (fun n => is_plain n = true) chosen) ->
  grows (fs st) (fs (snd (main E head projectType selected st))) /\
  confined (base ++ [js ".agent"; js "skills"]) (fs st)
           (fs (snd (main E head projectType selected st))).
Proof.
  intros Hbase Hsel. unfold main.
  destruct (selection projectType selected) as [names|] eqn:Hnames;
    [|split; [apply grows_refl|apply confined_refl]].
  pose proof (selection_plain _ _ _ Hsel Hnames) as Hplain.
  destruct (main_try E head names st) as [[r|e] st'] eqn:Hrun; cbn [snd]; split;
    first [apply (grows_main_try E head names _ _ _ Hrun)
          |apply (confined_main_try E head names base tr Hbase Hplain _ _ _ Hrun)].
Qed.

(** X14. However a run of [main] ends, it has removed nothing, and
    outside the directory [.agent/skills] of the working directory it
    has changed no file: there it can only have created directories.
    This holds for the presets and for any selection of names that name
    entries. *)
Theorem main_keeps_to_the_skills_directory
        (E : env) (head : list Z -> fetch_result)
        (projectType : answer (list Z)) (selected : answer (list (list Z)))
        (st : state) (base : list (list Z)) (tr : bool) :
  FS.resolve (cwd E) (cwd E) = Some (base, tr) ->
  (forall chosen, selected = Answered chosen ->
                  Forall (fun n => is_plain n = true) chosen) ->
  grows (fs st) (fs (snd (main E head projectType selected st))) /\
  confined (base ++ [js ".agent"; js "skills"]) (fs st)
           (fs (snd (main E head projectType selected st))).
Proof. apply main_footprint. Qed.

Lemma main_keeps_to_the_skills_directory_witness :
  let st' := snd (main Registry.E Registry.head (Answered (js "fullstack")) Cancelled
                       World.fresh) in
  grows (fs World.fresh) (fs st') /\
  confined ([js "home"; js "dev"] ++ [js ".agent"; js "skills"]) (fs World.fresh) (fs st').
Proof.
  intros st'.
  apply (main_keeps_to_the_skills_directory
           Registry.E Registry.head (Answered (js "fullstack")) Cancelled World.fresh
           [js "home"; js "dev"] false).
  - reflexivity.
  - intros chosen H. discriminate H.
Defined.

(** ** From the installer to the diagnosis *)

Lemma lookup_from_prefix (t : gmap (list (list Z)) node) (pre a : list (list Z)) :
  forall b n,
    b <> [] -> FS.lookup_from t pre (a ++ b) = Some n ->
    FS.lookup_from t pre a = Some Dir.
Proof.
  induction b as [|s b IH] using rev_ind; intros n Hb Hl; [congruence|].
  rewrite app_assoc, lookup_from_snoc in Hl.
  destruct (FS.lookup_from t pre (a ++ b)) as [[c|]|] eqn:Hab; try discriminate.
  destruct b as [|s' b']; [rewrite app_nil_r in Hab; exact Hab|].
  apply (IH Dir); [discriminate|reflexivity].
Qed.

Lemma exists_at (wd : list Z) (t : gmap (list (list Z)) node) (p : list Z)
      (segs : list (list Z)) (n : node) :
  FS.has_nul p = false ->
  FS.resolve wd p = Some (segs, false) ->
  FS.lookup_path t segs = Some n ->
  FS.exists_path wd t p = true.
Proof.
  intros Hnul Hres Hl. unfold FS.exists_path, FS.stat. rewrite Hnul, Hres, Hl.
  destruct n; reflexivity.
Qed.

Lemma served_ok (E : env) (url : list Z) (found : option (list byte)) :
  served E url found -> answered_ok (net E) url = true -> exists c, found = Some c.
Proof.
  intros (status & body & Hnet & Hfound). unfold answered_ok. rewrite Hnet.
  destruct found as [c|]; [eauto|]. intros Hok. congruence.
Qed.

Lemma installed_skill_is_reported (E : env) (head : list Z -> fetch_result)
      (s : skill) (st st' : state) (r : bool) :
  cwd E <> [] -> FS.has_nul (cwd E) = false ->
  In s allSkills ->
  installSkill E head (skill_name s) (process_cwd E) st = (Return r, st') ->
  answered_ok (net E) (skill_url (skill_name s) (js "SKILL.md")) = true ->
  exists checks,
    checkSkills E st' = (Return checks, st') /\
    In {| check_name := skill_name s; check_installed := true;
          check_hasSkillMd := true |} checks.
Proof.
  intros Hcwd Hnul Hs Hrun Hok.
  destruct (proj1 (List.Forall_forall _ _) allSkills_plain s Hs) as [Hplain Hsnul].
  destruct (installSkill_done E head _ _ _ _ _ Hrun) as [_ Hfiles].
  destruct (Hfiles (js "SKILL.md") (or_introl eq_refl)) as (found & Hserved & Hread).
  destruct (served_ok _ _ _ Hserved Hok) as [c ->]. specialize (Hread c eq_refl).
  unfold process_cwd in *.
  pose proof (resolve_nonempty (cwd E) (cwd E) Hcwd) as Hbase.
  set (base := FS.walk _ _) in Hbase. set (tr := Path.ends_with_slash _) in Hbase.
  pose proof (resolve_skillDir E _ _ _ _ Hbase Hplain) as Hdir.
  pose proof (resolve_child _ _ (js "SKILL.md") _ _ Hdir eq_refl) as Hmd.
  assert (Hfile : FS.lookup_path (fs st')
                    ((base ++ [js ".agent"; js "skills"; skill_name s]) ++ [js "SKILL.md"])
                  = Some (File c)).
  { revert Hread. unfold FS.read_file.
    destruct (FS.has_nul (Path.join [Path.join [cwd E; js ".agent"; js "skills";
                                                skill_name s]; js "SKILL.md"]));
      [discriminate|].
    rewrite Hmd. destruct (FS.lookup_path _ _) as [[c'|]|]; try discriminate.
    intros H. cbv iota in H. injection H as <-. reflexivity. }
  assert (HskillsDir : FS.resolve (cwd E) (Path.join [cwd E; js ".agent"; js "skills"])
                       = Some (base ++ [js ".agent"; js "skills"], false)).
  { apply (resolve_join (cwd E) (cwd E) [js ".agent"; js "skills"] base tr Hbase);
      [discriminate|reflexivity|reflexivity]. }
  pose proof (resolve_child _ _ _ _ _ HskillsDir Hplain) as HskillPath.
  pose proof (resolve_child _ _ (js "SKILL.md") _ _ HskillPath eq_refl) as HmdPath.
  assert (Hn1 : FS.has_nul (Path.join [cwd E; js ".agent"; js "skills"]) = false).
  { apply has_nul_join. cbn [forallb]. rewrite Hnul. reflexivity. }
  assert (Hn2 : FS.has_nul (Path.join [Path.join [cwd E; js ".agent"; js "skills"];
                                       skill_name s]) = false).
  { apply has_nul_join. cbn [forallb]. rewrite Hn1, Hsnul. reflexivity. }
  assert (Hn3 : FS.has_nul
                  (Path.join [Path.join [Path.join [cwd E; js ".agent"; js "skills"];
                                         skill_name s]; js "SKILL.md"]) = false).
  { apply has_nul_join. cbn [forallb]. rewrite Hn2. reflexivity. }
  assert (Hkey : (base ++ [js ".agent"; js "skills"; skill_name s]) ++ [js "SKILL.md"]
                 = ((base ++ [js ".agent"; js "skills"]) ++ [skill_name s])
                   ++ [js "SKILL.md"])
    by (rewrite <- !app_assoc; reflexivity).
  rewrite Hkey in Hfile.
  assert (Hskill : FS.lookup_path (fs st')
                     ((base ++ [js ".agent"; js "skills"]) ++ [skill_name s]) = Some Dir).
  { apply (lookup_from_prefix _ [] _ [js "SKILL.md"] _ ltac:(discriminate) Hfile). }
  assert (Hskills : FS.lookup_path (fs st') (base ++ [js ".agent"; js "skills"])
                    = Some Dir).
  { apply (lookup_from_prefix _ [] _ [skill_name s] _ ltac:(discriminate) Hskill). }
  unfold checkSkills, collect. cbv zeta. unfold process_cwd.
  rewrite bind_unfold. unfold existsSync at 1.
  rewrite (exists_at _ _ _ _ _ Hn1 HskillsDir Hskills). cbn [negb].
  rewrite (array_map_pure _ (fun s0 =>
             {| check_name := skill_name s0;
                check_installed :=
                  FS.exists_path (cwd E) (fs st')
                    (Path.join [Path.join [cwd E; js ".agent"; js "skills"]; skill_name s0]);
                check_hasSkillMd :=
                  FS.exists_path (cwd E) (fs st')
                    (Path.join [Path.join [Path.join [cwd E; js ".agent"; js "skills"];
                                           skill_name s0]; js "SKILL.md"]) |}))
    by reflexivity.
  eexists. split; [reflexivity|].
  apply in_map_iff. exists s. split; [|exact Hs].
  rewrite (exists_at _ _ _ _ _ Hn2 HskillPath Hskill),
    (exists_at _ _ _ _ _ Hn3 HmdPath Hfile).
  reflexivity.
Qed.

(** X15. After [installSkill] has returned for one of the nine skills,
    in the working directory, and the registry has answered for its
    [SKILL.md] with a success status, [checkSkills] reports that skill as
    installed and as having its [SKILL.md]. *)
Theorem an_installed_skill_is_reported
        (E : env) (head : list Z -> fetch_result) (s : skill) (st st' : state)
        (r : bool) :
  cwd E <> [] -> FS.has_nul (cwd E) = false ->
  In s allSkills ->
  installSkill E head (skill_name s) (process_cwd E) st = (Return r, st') ->
  answered_ok (net E) (skill_url (skill_name s) (js "SKILL.md")) = true ->
  exists checks,
    checkSkills E st' = (Return checks, st') /\
    In {| check_name := skill_name s; check_installed := true;
          check_hasSkillMd := true |} checks.
Proof. apply installed_skill_is_reported. Qed.

Lemma an_installed_skill_is_reported_witness :
  exists checks,
    checkSkills Registry.E Registry.installed = (Return checks, Registry.installed) /\
    In {| check_name := js "commit"; check_installed := true;
          check_hasSkillMd := true |} checks.
Proof.
  apply (an_installed_skill_is_reported
           Registry.E Registry.head (Skill (js "commit") (js "Conventional Commits helper"))
           World.fresh Registry.installed true).
  - discriminate.
  - reflexivity.
  - repeat (first [left; reflexivity|right]).
  - apply (run_returned (installSkill Registry.E Registry.head (js "commit") World.home
                                      World.fresh) (Return true)).
    vm_compute. reflexivity.
  - vm_compute. reflexivity.
Defined.

(** ** What [main] has installed when it ends *)

Section Main.

Context (E : env) (head : list Z -> fetch_result).
Context (base : list (list Z)) (tr : bool).
Context (Hbase : FS.resolve (cwd E) (cwd E) = Some (base, tr)).

Lemma resolve_target (name file : list Z) :
  is_plain name = true -> names_entries file = true ->
  FS.resolve (cwd E) (target E name file)
  = Some ((base ++ [js ".agent"; js "skills"; name]) ++ segments [file], false).
Proof.
  intros Hname Hfile. unfold names_entries in Hfile.
  apply andb_prop in Hfile as [Hne Hplain]. unfold target, process_cwd.
  apply (resolve_join (cwd E) _ [file] _ false
           (resolve_skillDir E _ _ _ _ Hbase Hname)); [discriminate| |exact Hplain].
  cbn [forallb]. rewrite Hne. reflexivity.
Qed.

Lemma target_inj (name file name' file' : list Z) :
  (base ++ [js ".agent"; js "skills"; name]) ++ segments [file]
  = (base ++ [js ".agent"; js "skills"; name']) ++ segments [file'] ->
  name = name' /\ file = file'.
Proof.
  rewrite <- !app_assoc. intros H. apply app_inv_head in H.
  cbn [app] in H. injection H as Hname Hsegs.
  split; [exact Hname|apply segments_inj; exact Hsegs].
Qed.

Lemma served_once (url : list Z) (c c' : list byte) :
  served E url (Some c) -> served E url (Some c') -> c = c'.
Proof.
  intros (s1 & b1 & Hn1 & _ & x1 & -> & ->) (s2 & b2 & Hn2 & _ & x2 & -> & ->).
  rewrite Hn1 in Hn2. injection Hn2 as _ ->. reflexivity.
Qed.

(** A round of the loop of [installSkill] leaves in place what was. *)
Lemma installSkillFile_in_place (name file name' file' : list Z) (st st' : state) :
  is_plain name = true -> names_entries file = true ->
  is_plain name' = true -> names_entries file' = true ->
  installSkillFile E name'
    (Path.join [process_cwd E; js ".agent"; js "skills"; name']) file' st
  = (Return tt, st') ->
  in_place E st name file -> in_place E st' name file.
Proof.
  intros Hname Hfile Hname' Hfile' Hrun Hin c Hserved.
  specialize (Hin c Hserved).
  pose proof Hrun as Hanswer. apply installSkillFile_answers in Hanswer.
  destruct Hanswer as (found & Hserved' & Hwritten).
  unfold installSkillFile in Hrun. cbv zeta in Hrun.
  apply bind_inv in Hrun as (res & st1 & Hfetch & Hrun).
  destruct (fetched_file _ _ _ _ _ Hfetch) as [_ Hfs].
  destruct (negb (ok res)).
  - injection Hrun as <-. rewrite Hfs. exact Hin.
  - apply bind_inv in Hrun as (content & st2 & Htext & Hrun).
    destruct (text_body _ _ _ _ Htext) as (b & _ & _ & ->).
    apply bind_inv in Hrun as (present & st3 & Hex & Hrun).
    unfold existsSync in Hex. injection Hex as <- <-.
    apply bind_inv in Hrun as ([] & st4 & Hmk & Hwrite).
    destruct (ensured_dir _ _ _ _ Hmk) as [_ Hkeep].
    pose proof (resolve_target name file Hname Hfile) as Hq.
    pose proof (resolve_target name' file' Hname' Hfile') as Hp.
    unfold target in Hp.
    destruct (decide ((base ++ [js ".agent"; js "skills"; name]) ++ segments [file]
                      = (base ++ [js ".agent"; js "skills"; name']) ++ segments [file']))
      as [Heq|Hne].
    + apply target_inj in Heq as [-> ->].
      destruct found as [c'|].
      * rewrite (served_once _ _ _ Hserved Hserved'). apply (Hwritten c' eq_refl).
      * destruct Hserved as (s1 & b1 & Hn1 & Hok1 & _).
        destruct Hserved' as (s2 & b2 & Hn2 & Hok2).
        rewrite Hn1 in Hn2. injection Hn2 as <- <-. congruence.
    + rewrite (writeFileSync_keeps_files E _ _ _ _ _ _ _ _ _ Hwrite Hp Hq Hne).
      apply Hkeep. rewrite Hfs. exact Hin.
Qed.

Lemma for_of_in_place {A : Type} (body : A -> M unit) (name file : list Z)
      (items : list A) :
  (forall y st st', In y items -> body y st = (Return tt, st') ->
                    in_place E st name file -> in_place E st' name file) ->
  forall st st',
    for_of items body st = (Return tt, st') ->
    in_place E st name file -> in_place E st' name file.
Proof.
  induction items as [|y items IH]; intros Hkeep st st' Hrun Hin.
  - injection Hrun as <-. exact Hin.
  - cbn [for_of] in Hrun. apply bind_inv in Hrun as ([] & st1 & Hy & Hrest).
    apply (IH (fun z s s' Hz => Hkeep z s s' (or_intror Hz)) st1 st' Hrest).
    apply (Hkeep y st st1 (or_introl eq_refl) Hy Hin).
Qed.

Lemma installSkill_in_place (name file name' : list Z) (st st' : state) (r : bool) :
  is_plain name = true -> names_entries file = true -> is_plain name' = true ->
  installSkill E head name' (process_cwd E) st = (Return r, st') ->
  in_place E st name file -> in_place E st' name file.
Proof.
  intros Hname Hfile Hname' Hrun Hin. unfold installSkill in Hrun. cbv zeta in Hrun.
  apply bind_inv in Hrun as (files & st1 & Hfiles & Hrun).
  apply bind_inv in Hrun as ([] & st2 & Hloop & Hret). injection Hret as _ <-.
  pose proof (fetchSkillFiles_candidates head _ _ _ _ Hfiles) as Hcand.
  unfold fetchSkillFiles in Hfiles. destruct (probe_inv head _ _ _ _ _ _ Hfiles) as [_ Hfs].
  apply (for_of_in_place
           (installSkillFile E name'
              (Path.join [process_cwd E; js ".agent"; js "skills"; name']))
           name file files) with (st := st1); [|exact Hloop|].
  - intros y s s' Hy. apply (installSkillFile_in_place name file name' y s s' Hname Hfile Hname').
    apply (proj1 (List.Forall_forall _ _) candidates_name_entries y (Hcand y Hy)).
  - intros c Hc. rewrite Hfs. apply (Hin c Hc).
Qed.

Lemma installSkill_puts_in_place (name : list Z) (st st' : state) (r : bool) :
  installSkill E head name (process_cwd E) st = (Return r, st') ->
  forall file,
    In file (js "SKILL.md" ::
             List.filter (fun f => answered_ok head (skill_url name f)) resourceFiles) ->
    (exists found, served E (skill_url name file) found) /\ in_place E st' name file.
Proof.
  intros Hrun file Hfile.
  destruct (installSkill_done E head _ _ _ _ _ Hrun) as [_ Hfiles].
  destruct (Hfiles file Hfile) as (found & Hserved & Hread).
  split; [eauto|]. intros c Hc. destruct found as [c'|].
  - rewrite (served_once _ _ _ Hc Hserved). apply (Hread c' eq_refl).
  - destruct Hc as (s1 & b1 & Hn1 & Hok1 & _). destruct Hserved as (s2 & b2 & Hn2 & Hok2).
    rewrite Hn1 in Hn2. injection Hn2 as <- <-. congruence.
Qed.

Lemma shared_url_skill_url (file : list Z) :
  shared_url file = skill_url (js "_shared") file.
Proof. unfold shared_url, skill_url. f_equal. Qed.

Lemma installShared_puts_in_place (st st' : state) :
  installShared E (process_cwd E) st = (Return tt, st') ->
  forall file, In file sharedFiles ->
    (exists found, served E (shared_url file) found) /\
    in_place E st' (js "_shared") file.
Proof.
  intros Hrun file Hfile.
  destruct (installShared_done E _ _ _ Hrun) as [_ Hfiles].
  destruct (Hfiles file Hfile) as (found & Hserved & Hread).
  split; [eauto|]. intros c Hc. rewrite <- shared_url_skill_url in Hc.
  destruct found as [c'|].
  - rewrite (served_once _ _ _ Hc Hserved). apply (Hread c' eq_refl).
  - destruct Hc as (s1 & b1 & Hn1 & Hok1 & _). destruct Hserved as (s2 & b2 & Hn2 & Hok2).
    rewrite Hn1 in Hn2. injection Hn2 as <- <-. congruence.
Qed.

Lemma skills_loop (names : list (list Z)) :
  Forall (fun n => is_plain n = true) names ->
  forall st st',
    for_of names (fun skillName => _ ← installSkill E head skillName (process_cwd E);
                                   mret tt) st
    = (Return tt, st') ->
    (forall name file, is_plain name = true -> names_entries file = true ->
                       in_place E st name file -> in_place E st' name file) /\
    (forall name file,
       In name names ->
       In file (js "SKILL.md" ::
                List.filter (fun f => answered_ok head (skill_url name f))
                            resourceFiles) ->
       (exists found, served E (skill_url name file) found) /\
       in_place E st' name file).
Proof.
  induction 1 as [|n names Hn Hnames IH]; intros st st' Hrun.
  - injection Hrun as <-. split; [auto|]. intros name file [].
  - cbn [for_of] in Hrun. apply bind_inv in Hrun as ([] & st1 & Hone & Hrest).
    apply bind_inv in Hone as (r & st0 & Hinstall & Hret). injection Hret as <-.
    destruct (IH st0 st' Hrest) as [Hkeep Hdone]. split.
    + intros name file Hname Hfile Hin. apply (Hkeep name file Hname Hfile).
      apply (installSkill_in_place name file n st st0 r Hname Hfile Hn Hinstall Hin).
    + intros name file [<-|Hname] Hfile; [|apply (Hdone name file Hname Hfile)].
      destruct (installSkill_puts_in_place n st st0 r Hinstall file Hfile)
        as [Hserved Hplace].
      split; [exact Hserved|].
      apply (Hkeep n file Hn); [|exact Hplace].
      apply (proj1 (List.Forall_forall _ _) candidates_name_entries file).
      destruct Hfile as [<-|Hfile]; [left; reflexivity|right].
      apply filter_In in Hfile as [Hfile _]. exact Hfile.
Qed.

Lemma main_try_done (names : list (list Z)) (st st' : state) :
  Forall (fun n => is_plain n = true) names ->
  main_try E head names st = (Return tt, st') ->
  (forall file, In file sharedFiles ->
     (exists found, served E (shared_url file) found) /\
     in_place E st' (js "_shared") file) /\
  (forall name file,
     In name names ->
     In file (js "SKILL.md" ::
              List.filter (fun f => answered_ok head (skill_url name f)) resourceFiles) ->
     (exists found, served E (skill_url name file) found) /\
     in_place E st' name file).
Proof.
  intros Hnames Hrun. unfold main_try in Hrun.
  apply bind_inv in Hrun as ([] & st1 & Hshared & Hloop).
  destruct (skills_loop names Hnames st1 st' Hloop) as [Hkeep Hdone].
  split; [|exact Hdone].
  intros file Hfile.
  destruct (installShared_puts_in_place st st1 Hshared file Hfile) as [Hserved Hplace].
  split; [exact Hserved|].
  apply (Hkeep (js "_shared") file eq_refl); [|exact Hplace].
  apply plain_names_entries.
  apply (proj1 (List.Forall_forall _ _) sharedFiles_plain file Hfile).
Qed.

End Main.

Lemma main_installed (E : env) (head : list Z -> fetch_result)
      (projectType : answer (list Z)) (selected : answer (list (list Z)))
      (st st' : state) (names : list (list Z)) :
  cwd E <> [] ->
  (forall chosen, selected = Answered chosen ->
                  Forall (fun n => is_plain n = true) chosen) ->
  main E head projectType selected st = (Installed names, st') ->
  selection projectType selected = Some names /\
  (forall file, In file sharedFiles ->
     (exists found, served E (shared_url file) found) /\
     in_place E st' (js "_shared") file) /\
  (forall name file,
     In name names ->
     In file (js "SKILL.md" ::
              List.filter (fun f => answered_ok head (skill_url name f)) resourceFiles) ->
     (exists found, served E (skill_url name file) found) /\
     in_place E st' name file).
Proof.
  intros Hcwd Hsel. unfold main.
  destruct (selection projectType selected) as [chosen|] eqn:Hchosen; [|discriminate].
  destruct (main_try E head chosen st) as [[[]|e] st1] eqn:Hrun; [|discriminate].
  intros H. injection H as <- <-. split; [reflexivity|].
  apply (main_try_done E head _ _ (resolve_nonempty (cwd E) (cwd E) Hcwd) chosen st st1
                       (selection_plain _ _ _ Hsel Hchosen) Hrun).
Qed.

(** X16. When a run of [main] ends with the skills installed, they are
    those of the preset chosen, or those selected; every shared file and,
    for every skill, [SKILL.md] and every resource file whose [HEAD]
    request was answered with a success has been asked for; and each of
    these files that the registry answers for with a success status holds
    the text of that answer at the end of the run. *)
Theorem main_installs_what_is_served
        (E : env) (head : list Z -> fetch_result)
        (projectType : answer (list Z)) (selected : answer (list (list Z)))
        (st st' : state) (names : list (list Z)) :
  cwd E <> [] ->
  (forall chosen, selected = Answered chosen ->
                  Forall (fun n => is_plain n = true) chosen) ->
  main E head projectType selected st = (Installed names, st') ->
  selection projectType selected = Some names /\
  (forall file, In file sharedFiles ->
     (exists found, served E (shared_url file) found) /\
     in_place E st' (js "_shared") file) /\
  (forall name file,
     In name names ->
     In file (js "SKILL.md" ::
              List.filter (fun f => answered_ok head (skill_url name f)) resourceFiles) ->
     (exists found, served E (skill_url name file) found) /\
     in_place E st' name file).
Proof. apply main_installed. Qed.

Lemma main_installs_what_is_served_witness :
  let names := [js "frontend-agent"; js "backend-agent"; js "pm-agent"; js "qa-agent";
                js "debug-agent"; js "commit"] in
  let st' := snd (main Registry.E Registry.head (Answered (js "fullstack")) Cancelled
                       World.fresh) in
  selection (Answered (js "fullstack")) Cancelled = Some names /\
  (forall file, In file sharedFiles ->
     (exists found, served Registry.E (shared_url file) found) /\
     in_place Registry.E st' (js "_shared") file) /\
  (forall name file,
     In name names ->
     In file (js "SKILL.md" ::
              List.filter (fun f => answered_ok Registry.head (skill_url name f))
                          resourceFiles) ->
     (exists found, served Registry.E (skill_url name file) found) /\
     in_place Registry.E st' name file).
Proof.
  intros names st'.
  apply (main_installs_what_is_served
           Registry.E Registry.head (Answered (js "fullstack")) Cancelled
           World.fresh st' names).
  - discriminate.
  - intros chosen H. discriminate H.
  - apply (run_returned (main Registry.E Registry.head (Answered (js "fullstack"))
                               Cancelled World.fresh) (Installed names)).
    vm_compute. reflexivity.
Defined.

(** ** The outcomes of a transfer unit *)

Lemma lift_inv {A : Type} (r : result A) (st st' : state) (a : A) :
  lift r st = (Return a, st') -> r = Return a /\ st' = st.
Proof. unfold lift. intros H. injection H as -> <-. split; reflexivity. Qed.

Lemma downloadFile_outcome (E : env) (mf : JSValue) (st st' : state) (o : outcome) :
  downloadFile E mf st = (Return o, st') ->
  get_prop mf (js "path") = Return (o_path o) /\
  ((o_success o = true /\ o_error o = None) \/
   (o_success o = false /\ fs st' = fs st /\
    (o_error o = Some (js "SHA256 mismatch") \/
     exists status body ptext,
       to_string (o_path o) = Return ptext /\
       net E (file_url ptext) = Response status body /\ ok (status, body) = false /\
       o_error o = Some (js "HTTP " ++ dec_digits status)))).
Proof.
  unfold downloadFile. cbv zeta. intros Hrun.
  apply bind_inv in Hrun as (path & st1 & Hpath & Hrun).
  apply lift_inv in Hpath as [Hpath ->].
  apply bind_inv in Hrun as (ptext & st1 & Htext & Hrun).
  apply lift_inv in Htext as [Htext ->].
  apply bind_inv in Hrun as ([status body] & st1 & Hfetch & Hrun).
  destruct (fetched_file _ _ _ _ _ Hfetch) as [Hnet Hfs]. cbn [fst snd] in Hnet.
  destruct (ok (status, body)) eqn:Hok; cbn [negb] in Hrun.
  - apply bind_inv in Hrun as (content & st2 & Hcontent & Hrun).
    destruct (text_body _ _ _ _ Hcontent) as (b & _ & _ & ->).
    apply bind_inv in Hrun as (sha & st2 & Hsha & Hrun).
    apply lift_inv in Hsha as [Hsha ->].
    destruct (negb (strict_eq (JString (calculateSHA256 content)) sha)).
    + injection Hrun as <- <-. split; [exact Hpath|]. right.
      split; [reflexivity|]. split; [exact Hfs|]. left. reflexivity.
    + apply bind_inv in Hrun as (targetPath & st2 & _ & Hrun).
      apply bind_inv in Hrun as (present & st3 & _ & Hrun).
      apply bind_inv in Hrun as ([] & st4 & _ & Hrun).
      apply bind_inv in Hrun as ([] & st5 & _ & Hrun).
      injection Hrun as <- <-. split; [exact Hpath|]. left. split; reflexivity.
  - injection Hrun as <- <-. split; [exact Hpath|]. right.
    split; [reflexivity|]. split; [exact Hfs|]. right.
    exists status, body, ptext. split; [exact Htext|]. split; [exact Hnet|].
    split; [exact Hok|reflexivity].
Qed.

(** X17. The outcome of a transfer unit carries the [path] of the
    manifest entry. It is a success without an error message, or a
    failure whose message is [SHA256 mismatch] or [HTTP] followed by a
    status that is no success; a unit that reports a failure has changed
    no file and no directory. *)
Theorem downloadFile_reports_one_of_three_outcomes
        (E : env) (mf : JSValue) (st st' : state) (o : outcome) :
  downloadFile E mf st = (Return o, st') ->
  get_prop mf (js "path") = Return (o_path o) /\
  ((o_success o = true /\ o_error o = None) \/
   (o_success o = false /\ fs st' = fs st /\
    (o_error o = Some (js "SHA256 mismatch") \/
     exists status body ptext,
       to_string (o_path o) = Return ptext /\
       net E (file_url ptext) = Response status body /\ ok (status, body) = false /\
       o_error o = Some (js "HTTP " ++ dec_digits status)))).
Proof. apply downloadFile_outcome. Qed.

Lemma downloadFile_reports_one_of_three_outcomes_witness :
  let mf := World.entry (js "c.md") World.sha_hi in
  let o := Outcome (JString (js "c.md")) false (Some (js "HTTP 404")) in
  let st' := snd (downloadFile Release.E mf World.fresh) in
  get_prop mf (js "path") = Return (o_path o) /\
  ((o_success o = true /\ o_error o = None) \/
   (o_success o = false /\ fs st' = fs World.fresh /\
    (o_error o = Some (js "SHA256 mismatch") \/
     exists status body ptext,
       to_string (o_path o) = Return ptext /\
       net Release.E (file_url ptext) = Response status body /\
       ok (status, body) = false /\
       o_error o = Some (js "HTTP " ++ dec_digits status)))).
Proof.
  intros mf o st'.
  apply (downloadFile_reports_one_of_three_outcomes Release.E mf World.fresh st' o).
  apply (run_returned (downloadFile Release.E mf World.fresh) (Return o)).
  vm_compute. reflexivity.
Defined.

(** ** A run without a manifest *)

Lemma update_without_manifest (E : env) (st : state) (e : exn) :
  manifest_answer E = Throw e ->
  update E st = (Failed e, fetched manifest_url st).
Proof.
  intros He. rewrite update_unfold. unfold update_try.
  rewrite bind_unfold, fetchRemoteManifest_unfold, He. reflexivity.
Qed.

(** X18. When the manifest cannot be had, the network giving no answer
    or a status that is no success, or the body being no JSON text, a
    run of [update] ends in its [catch] branch with that error; it has
    sent the one request for the manifest and has changed no file and no
    directory. *)
Theorem update_fails_without_a_manifest (E : env) (st : state) (e : exn) :
  manifest_answer E = Throw e ->
  update E st = (Failed e, State (fs st) (trace st ++ [EvFetch manifest_url])).
Proof. apply update_without_manifest. Qed.

Lemma update_fails_without_a_manifest_witness :
  update Stored.E Stored.st
  = (Failed (Error "Failed to fetch remote manifest"),
     State (fs Stored.st) (trace Stored.st ++ [EvFetch manifest_url])).
Proof.
  apply (update_fails_without_a_manifest Stored.E Stored.st). reflexivity.
Defined.
